(** * pyval: a shallow embedding of the email validator and its fast tiers

    Rust [&str] values are modelled as lists of Unicode scalar values ([str]);
    their byte view ([bytes]) is the UTF-8 encoding.  Byte loops of the source
    run over [bytes]; slicing by byte index ([str_range]) fails with a panic
    when an index is not on a character boundary, as Rust's does.

    Functions of the Rust standard library the code calls ([str::trim],
    [char::is_control], [Ipv4Addr]/[Ipv6Addr] parsing, [String::from_utf8]) are
    written out; the two third-party crates (idna's [domain_to_ascii] and
    unicode_normalization's NFC) are parameters of the development, gathered in
    the record [Collab]. *)

From Stdlib Require Import String Ascii ZArith List Lia Bool.
Import ListNotations.
Open Scope Z_scope.

(** ** Strings, bytes and UTF-8 *)

Definition str := list Z.

Definition valid_scalar (c : Z) : bool :=
  (0 <=? c) && (c <=? 0x10FFFF) && negb ((0xD800 <=? c) && (c <=? 0xDFFF)).

Definition valid_str (s : str) : bool := forallb valid_scalar s.

(** UTF-8 encoding of one scalar value (the memory representation of a [char]
    inside a [str]). *)
Definition encode_char (c : Z) : list Z :=
  if c <? 0x80 then [c]
  else if c <? 0x800 then [0xC0 + c / 64; 0x80 + c mod 64]
  else if c <? 0x10000 then
    [0xE0 + c / 4096; 0x80 + (c / 64) mod 64; 0x80 + c mod 64]
  else
    [0xF0 + c / 262144; 0x80 + (c / 4096) mod 64; 0x80 + (c / 64) mod 64;
     0x80 + c mod 64].

Definition char_len (c : Z) : nat := length (encode_char c).

(** [s.as_bytes()] *)
Definition bytes (s : str) : list Z := flat_map encode_char s.

(** [s.len()]: the length in bytes. *)
Definition len (s : str) : nat := length (bytes s).

(** [s.is_empty()] *)
Definition is_empty (s : str) : bool := Nat.eqb (len s) 0.

(** [s.is_ascii()] *)
Definition is_ascii (s : str) : bool := forallb (fun b => b <? 128) (bytes s).

(** [String::from_utf8]: Rust's validation of a byte sequence (overlong forms,
    surrogates and values above U+10FFFF refused), decoding it on success. *)
Definition cont (b : Z) : bool := (0x80 <=? b) && (b <=? 0xBF).

Definition in_range (lo hi b : Z) : bool := (lo <=? b) && (b <=? hi).

Fixpoint from_utf8 (bs : list Z) : option str :=
  match bs with
  | [] => Some []
  | b1 :: r1 =>
    if in_range 0 0x7F b1 then option_map (cons b1) (from_utf8 r1)
    else if in_range 0xC2 0xDF b1 then
      match r1 with
      | b2 :: r2 =>
        if cont b2 then
          option_map (cons ((b1 - 0xC0) * 64 + (b2 - 0x80))) (from_utf8 r2)
        else None
      | _ => None
      end
    else if in_range 0xE0 0xEF b1 then
      match r1 with
      | b2 :: b3 :: r3 =>
        if (if b1 =? 0xE0 then in_range 0xA0 0xBF b2
            else if b1 =? 0xED then in_range 0x80 0x9F b2
            else cont b2) && cont b3 then
          option_map
            (cons ((b1 - 0xE0) * 4096 + (b2 - 0x80) * 64 + (b3 - 0x80)))
            (from_utf8 r3)
        else None
      | _ => None
      end
    else if in_range 0xF0 0xF4 b1 then
      match r1 with
      | b2 :: b3 :: b4 :: r4 =>
        if (if b1 =? 0xF0 then in_range 0x90 0xBF b2
            else if b1 =? 0xF4 then in_range 0x80 0x8F b2
            else cont b2) && cont b3 && cont b4 then
          option_map
            (cons ((b1 - 0xF0) * 262144 + (b2 - 0x80) * 4096
                   + (b3 - 0x80) * 64 + (b4 - 0x80)))
            (from_utf8 r4)
        else None
      | _ => None
      end
    else None
  end.

(** Splitting a [str] at a byte index: [None] when the index is past the end
    or inside a multi-byte character. *)
Fixpoint split_at_byte (s : str) (i : nat) : option (str * str) :=
  match s with
  | [] => if Nat.eqb i 0 then Some ([], []) else None
  | c :: s' =>
    if Nat.eqb i 0 then Some ([], s)
    else if Nat.leb (char_len c) i then
      option_map (fun '(a, b) => (c :: a, b)) (split_at_byte s' (i - char_len c))
    else None
  end.

(** [&s[i..j]]: panics (here [None]) unless [i <= j <= s.len()] and both are
    character boundaries. *)
Definition str_range (s : str) (i j : nat) : option str :=
  if Nat.leb i j then
    match split_at_byte s i with
    | Some (_, r) =>
      match split_at_byte r (j - i) with
      | Some (m, _) => Some m
      | None => None
      end
    | None => None
    end
  else None.

(** [char::is_whitespace]: the Unicode White_Space property. *)
Definition is_whitespace (c : Z) : bool :=
  in_range 0x09 0x0D c || (c =? 0x20) || (c =? 0x85) || (c =? 0xA0)
  || (c =? 0x1680) || in_range 0x2000 0x200A c || (c =? 0x2028)
  || (c =? 0x2029) || (c =? 0x202F) || (c =? 0x205F) || (c =? 0x3000).

Fixpoint drop_ws (s : str) : str :=
  match s with
  | [] => []
  | c :: s' => if is_whitespace c then drop_ws s' else s
  end.

(** [str::trim] *)
Definition str_trim (s : str) : str := rev (drop_ws (rev (drop_ws s))).

(** [char::is_control]: general category Cc. *)
Definition is_control (c : Z) : bool := in_range 0 0x1F c || in_range 0x7F 0x9F c.

Definition starts_with_byte (s : str) (b : Z) : bool :=
  match bytes s with [] => false | b0 :: _ => b0 =? b end.

Definition ends_with_byte (s : str) (b : Z) : bool :=
  match rev (bytes s) with [] => false | b0 :: _ => b0 =? b end.

(** ASCII literals, for writing inputs. *)
Definition lit (s : string) : str :=
  map (fun a => Z.of_nat (nat_of_ascii a)) (list_ascii_of_string s).

(** ** Results: [Ok], a typed [Err], or a panic *)

Inductive EmailError :=
| Empty | MissingAt | MultipleAt | LeadingDot | TrailingDot | ConsecutiveDots
| LocalPartTooLong | DomainTooLong | InvalidDomain | InvalidCharacter | Generic.

Inductive res (A : Type) :=
| Ok (a : A)
| Err (e : EmailError)
| Panic.
Arguments Ok {A} a.
Arguments Err {A} e.
Arguments Panic {A}.

Definition bind {A B} (m : res A) (f : A -> res B) : res B :=
  match m with
  | Ok a => f a
  | Err e => Err e
  | Panic => Panic
  end.

Notation "'let*' x := m 'in' k" := (bind m (fun x => k))
  (at level 200, x name, m at level 100, k at level 200).

(** An [Option] whose [None] is a panic ([.unwrap()], out-of-range slice). *)
Definition unwrap {A} (o : option A) : res A :=
  match o with Some a => Ok a | None => Panic end.

Definition is_ok {A} (r : res A) : bool := match r with Ok _ => true | _ => false end.

(** ** [Ipv4Addr] / [Ipv6Addr] parsing (core::net::parser)

    The parser works on bytes; each reader returns the value read and the rest
    of the input, or [None] (the parser's [read_atomically] rollback is the
    untouched input of the caller). *)
Module NetParser.

(** [char::to_digit(radix)] on one byte. *)
Definition to_digit (radix b : Z) : option Z :=
  let d := if in_range 48 57 b then b - 48
           else if in_range 97 122 b then b - 87
           else if in_range 65 90 b then b - 55 else 99 in
  if d <? radix then Some d else None.

(** The digit loop of [read_number], with the checked multiply/add of the
    target integer type (bound [255] for [u8], [65535] for [u16]) and the
    [digit_count > max_digits] exit. *)
Fixpoint read_digits (radix bound : Z) (max_digits : nat) (acc : Z)
    (count : nat) (s : list Z) : option (Z * nat * list Z) :=
  match s with
  | b :: s' =>
    match to_digit radix b with
    | Some d =>
      let acc' := acc * radix + d in
      if bound <? acc' then None
      else if Nat.ltb max_digits (S count) then None
      else read_digits radix bound max_digits acc' (S count) s'
    | None => Some (acc, count, s)
    end
  | [] => Some (acc, count, [])
  end.

Definition read_number (radix bound : Z) (max_digits : nat)
    (allow_zero_prefix : bool) (s : list Z) : option (Z * list Z) :=
  let has_leading_zero := match s with 48 :: _ => true | _ => false end in
  match read_digits radix bound max_digits 0 0 s with
  | None => None
  | Some (v, count, rest) =>
    if Nat.eqb count 0 then None
    else if negb allow_zero_prefix && has_leading_zero && Nat.ltb 1 count then None
    else Some (v, rest)
  end.

(** [read_separator(sep, index, inner)] *)
Definition read_separator {A} (sep : Z) (index : nat)
    (inner : list Z -> option (A * list Z)) (s : list Z) : option (A * list Z) :=
  if Nat.eqb index 0 then inner s
  else match s with
       | b :: s' => if b =? sep then inner s' else None
       | [] => None
       end.

Definition read_octet := read_number 10 255 3 false.

Definition read_ipv4_addr (s : list Z) : option (list Z * list Z) :=
  match read_separator 46 0 read_octet s with
  | None => None
  | Some (a, s1) =>
    match read_separator 46 1 read_octet s1 with
    | None => None
    | Some (b, s2) =>
      match read_separator 46 2 read_octet s2 with
      | None => None
      | Some (c, s3) =>
        match read_separator 46 3 read_octet s3 with
        | None => None
        | Some (d, s4) => Some ([a; b; c; d], s4)
        end
      end
    end
  end.

(** [read_groups] of [read_ipv6_addr]: the number of groups read, whether the
    last two came from an embedded IPv4 address, and the rest. [k] counts the
    iterations left ([limit - i]). *)
Fixpoint read_groups_from (k i limit : nat) (s : list Z) : nat * bool * list Z :=
  match k with
  | O => (limit, false, s)
  | S k' =>
    match (if Nat.ltb i (limit - 1) then read_separator 58 i read_ipv4_addr s
           else None) with
    | Some (_, r) => (i + 2, true, r)%nat
    | None =>
      match read_separator 58 i (read_number 16 65535 4 true) s with
      | Some (_, r) => read_groups_from k' (S i) limit r
      | None => (i, false, s)
      end
    end
  end.

Definition read_groups (limit : nat) (s : list Z) := read_groups_from limit 0 limit s.

Definition read_ipv6_addr (s : list Z) : option (list Z) :=
  let '(head_size, head_ipv4, r) := read_groups 8 s in
  if Nat.eqb head_size 8 then Some r
  else if head_ipv4 then None
  else match r with
       | 58 :: 58 :: r' =>
         let '(_, _, r'') := read_groups (8 - (head_size + 1)) r' in Some r''
       | _ => None
       end.

End NetParser.

(** [s.parse::<Ipv4Addr>().is_ok()] *)
Definition parse_ipv4 (s : str) : bool :=
  let b := bytes s in
  if Nat.ltb 15 (length b) then false
  else match NetParser.read_ipv4_addr b with Some (_, []) => true | _ => false end.

(** [s.parse::<Ipv6Addr>().is_ok()] *)
Definition parse_ipv6 (s : str) : bool :=
  match NetParser.read_ipv6_addr (bytes s) with Some [] => true | _ => false end.

(** ** The third-party collaborators

    [domain_to_ascii] is idna's UTS #46 mapping to ASCII; its result is a Rust
    [String], hence a valid scalar sequence.  [nfc] is unicode_normalization's
    canonical composition. *)
Record Collab := {
  domain_to_ascii : str -> option str;
  domain_to_ascii_valid : forall d a, domain_to_ascii d = Some a -> valid_str a = true;
  nfc : str -> str
}.

(** ** syntax.rs *)

Definition is_atext (b : Z) : bool :=
  in_range 97 122 b || in_range 65 90 b || in_range 48 57 b
  || existsb (Z.eqb b) [33; 35; 36; 37; 38; 39; 42; 43; 45; 47]
  || existsb (Z.eqb b) [61; 63; 94; 95; 96; 123; 124; 125; 126].

(** [is_valid_local_byte]: atext, the dot, and (with SMTPUTF8) any high byte. *)
Definition is_valid_local_byte (b : Z) (allow_smtputf8 : bool) : bool :=
  is_atext b || (b =? 46) || (allow_smtputf8 && in_range 128 255 b).

Definition is_unsafe_unicode (c : Z) : bool :=
  is_control c || in_range 0x200B 0x200D c || (c =? 0xFEFF).

(** The single pass over the bytes: consecutive dots and invalid bytes. *)
Fixpoint local_scan (allow_smtputf8 prev_was_dot : bool) (bs : list Z) : res unit :=
  match bs with
  | [] => Ok tt
  | b :: bs' =>
    if b =? 46 then
      if prev_was_dot then Err ConsecutiveDots else local_scan allow_smtputf8 true bs'
    else if negb (is_valid_local_byte b allow_smtputf8) then
      if (128 <=? b) && allow_smtputf8 then local_scan allow_smtputf8 false bs'
      else Err InvalidCharacter
    else local_scan allow_smtputf8 false bs'
  end.

Definition validate_local_part (local : str) (allow_smtputf8 : bool) : res unit :=
  if is_empty local then Err Empty
  else if Nat.ltb 64 (len local) then Err LocalPartTooLong
  else
    let bs := bytes local in
    let* b0 := unwrap (nth_error bs 0) in
    if b0 =? 46 then Err LeadingDot
    else
    let* bl := unwrap (nth_error bs (length bs - 1)) in
    if bl =? 46 then Err TrailingDot
    else
    let* _ := local_scan allow_smtputf8 false bs in
    if allow_smtputf8 && existsb (fun b => 128 <=? b) bs then
      if existsb (fun c => (127 <? c) && is_unsafe_unicode c) local
      then Err InvalidCharacter else Ok tt
    else Ok tt.

(** ** domain.rs *)

(** [s.split(sep)] *)
Fixpoint split_on (sep : Z) (s : str) : list str :=
  match s with
  | [] => [[]]
  | c :: s' =>
    if c =? sep then [] :: split_on sep s'
    else match split_on sep s' with
         | l :: ls => (c :: l) :: ls
         | [] => [[c]]
         end
  end.

Definition is_ascii_digit (c : Z) : bool := in_range 48 57 c.

Definition is_ascii_alphanumeric (c : Z) : bool :=
  in_range 48 57 c || in_range 65 90 c || in_range 97 122 c.

Definition validate_domain_label (label : str) : res unit :=
  if is_empty label then Err ConsecutiveDots
  else if Nat.ltb 63 (len label) then Err InvalidDomain
  else if starts_with_byte label 45 || ends_with_byte label 45 then Err InvalidDomain
  else if forallb (fun c => is_ascii_alphanumeric c || (c =? 45)) label then Ok tt
  else Err InvalidCharacter.

Fixpoint validate_labels (labels : list str) : res unit :=
  match labels with
  | [] => Ok tt
  | l :: ls => let* _ := validate_domain_label l in validate_labels ls
  end.

Definition validate_ip_literal (domain : str) : res str :=
  if Nat.eqb (len domain) 0 then Panic   (* [domain.len()-1] underflow *)
  else
  let* inner := unwrap (str_range domain 1 (len domain - 1)) in
  match inner with
  | 73 :: 80 :: 118 :: 54 :: 58 :: ipv6 =>   (* strip_prefix("IPv6:") *)
    if parse_ipv6 ipv6 then Ok domain else Err InvalidDomain
  | _ => if parse_ipv4 inner then Ok domain else Err InvalidDomain
  end.

Definition validate_domain (cb : Collab) (domain : str) : res str :=
  if is_empty domain then Err InvalidDomain
  else if starts_with_byte domain 91 && ends_with_byte domain 93 then
    validate_ip_literal domain
  else if Nat.ltb 253 (len domain) then Err DomainTooLong
  else
    match domain_to_ascii cb domain with
    | None => Err InvalidDomain
    | Some ascii_domain =>
      if negb (existsb (Z.eqb 46) ascii_domain) then Err InvalidDomain
      else
        let labels := split_on 46 ascii_domain in
        if forallb (fun label => forallb is_ascii_digit label) labels
        then Err InvalidDomain
        else let* _ := validate_labels labels in Ok ascii_domain
    end.

(** ** validator.rs *)

Record ValidatedEmail := {
  original : str;
  local_part : str;
  domain : str;
  normalized : str;
  ascii_domain : str;
  smtputf8 : bool
}.

Definition is_ascii_lowercase (b : Z) : bool := in_range 97 122 b.
Definition is_ascii_uppercase (b : Z) : bool := in_range 65 90 b.
Definition is_ascii_alphabetic (b : Z) : bool := is_ascii_uppercase b || is_ascii_lowercase b.

(** [u8::to_ascii_lowercase] on the bytes the map touches. *)
Definition lower_byte (b : Z) : Z := if is_ascii_uppercase b then b + 32 else b.

(** [EmailValidator::ascii_to_lower] *)
Definition ascii_to_lower (s : str) : res str :=
  if forallb (fun b => is_ascii_lowercase b || negb (is_ascii_alphabetic b)) (bytes s)
  then Ok s
  else unwrap (from_utf8 (map lower_byte (bytes s))).

(** The [@] counting loop: [(at_count, at_pos)], or [MultipleAt] at the second
    [@]. *)
Fixpoint at_scan (bs : list Z) (i at_count : nat) (at_pos : option nat)
    : res (nat * option nat) :=
  match bs with
  | [] => Ok (at_count, at_pos)
  | b :: bs' =>
    if b =? 64 then
      if Nat.ltb 1 (S at_count) then Err MultipleAt
      else at_scan bs' (S i) (S at_count) (Some i)
    else at_scan bs' (S i) at_count at_pos
  end.

(** [EmailValidator::validate] (and [pyval_core::validate], which builds the
    validator from the flag alone). *)
Definition validate (cb : Collab) (allow_smtputf8 : bool) (email0 : str)
    : res ValidatedEmail :=
  let email := str_trim email0 in
  if is_empty email then Err Empty
  else
  let* p := at_scan (bytes email) 0 0 None in
  let '(at_count, at_pos_opt) := p in
  if Nat.eqb at_count 0 then Err MissingAt
  else
  let* at_pos := unwrap at_pos_opt in
  let* local := unwrap (str_range email 0 at_pos) in
  let* dom := unwrap (str_range email (at_pos + 1) (len email)) in
  let* _ := validate_local_part local allow_smtputf8 in
  let* ascii_dom := validate_domain cb dom in
  let normalized_local := if is_ascii local then local else nfc cb local in
  let* lowered := ascii_to_lower ascii_dom in
  Ok {| original := email;
        local_part := local;
        domain := dom;
        normalized := normalized_local ++ [64] ++ lowered;
        ascii_domain := ascii_dom;
        smtputf8 := negb (is_ascii local) |}.

(** ** Zero-copy finite-state scanner (crates/pyval-core/src/lazy.rs) *)
Module ZeroCopy.

Inductive ParseState := LocalStart | Local | LocalDot | DomainStart | Domain | DomainDot.

Definition is_local_char (b : Z) : bool := is_atext b.

Definition is_domain_char (b : Z) : bool :=
  in_range 97 122 b || in_range 65 90 b || in_range 48 57 b || (b =? 45).

(** One arm of the [match state]: the next [(state, at_count, dot_count)], or
    [None] for [return false]. *)
Definition step (st : ParseState) (at_count dot_count : nat) (b : Z)
    : option (ParseState * nat * nat) :=
  match st with
  | LocalStart =>
    if b =? 46 then None
    else Some (Local, Nat.add at_count (Nat.b2n (b =? 64)), dot_count)
  | Local =>
    if b =? 64 then
      if Nat.ltb 1 (S at_count) then None else Some (DomainStart, S at_count, 0%nat)
    else if b =? 46 then Some (LocalDot, at_count, dot_count)
    else if is_local_char b then Some (Local, at_count, dot_count)
    else None
  | LocalDot =>
    if (b =? 46) || (b =? 64) then None
    else Some (Local, Nat.add at_count (Nat.b2n (b =? 64)), dot_count)
  | DomainStart =>
    if (b =? 46) || (b =? 45) then None
    else if b =? 64 then None
    else Some (Domain, at_count, Nat.add dot_count (Nat.b2n (b =? 46)))
  | Domain =>
    if b =? 64 then None
    else if b =? 46 then Some (DomainDot, at_count, S dot_count)
    else if is_domain_char b then Some (Domain, at_count, dot_count)
    else None
  | DomainDot =>
    if (b =? 46) || (b =? 45) || (b =? 64) then None
    else Some (Domain, at_count, dot_count)
  end.

Fixpoint run (st : ParseState) (at_count dot_count : nat) (bs : list Z)
    : option (ParseState * nat * nat) :=
  match bs with
  | [] => Some (st, at_count, dot_count)
  | b :: bs' =>
    match step st at_count dot_count b with
    | Some (st', a', d') => run st' a' d' bs'
    | None => None
    end
  end.

(** [ZeroCopyValidator::validate_no_alloc] *)
Definition validate_no_alloc (email : str) : bool :=
  let bs := bytes email in
  if negb (Nat.leb 3 (length bs) && Nat.leb (length bs) 254) then false
  else match run LocalStart 0 0 bs with
       | Some (Domain, 1%nat, dot_count) => Nat.leb 1 dot_count
       | _ => false
       end.

End ZeroCopy.

(** ** The 8-byte SWAR screen (crates/pyval-core/src/simd.rs) *)
Module Simd.

Definition two64 : Z := 2 ^ 64.

(** [u64::from_le_bytes] *)
Fixpoint le_u64 (bs : list Z) : Z :=
  match bs with [] => 0 | b :: bs' => b + 256 * le_u64 bs' end.

(** [(xor.wrapping_sub(0x0101..) & !xor & 0x8080..) != 0] with
    [xor = chunk ^ 0x4040..]. *)
Definition has_at (chunk : Z) : bool :=
  let x := Z.lxor chunk 0x4040404040404040 in
  negb (Z.land (Z.land ((x - 0x0101010101010101) mod two64) (Z.lxor x (two64 - 1)))
                0x8080808080808080 =? 0).

Fixpoint position (p : Z -> bool) (l : list Z) : option nat :=
  match l with
  | [] => None
  | x :: l' => if p x then Some 0%nat else option_map S (position p l')
  end.

(** [SimdValidator::find_at]: the [while i + 8 <= len] loop runs at most
    [len / 8] times; [fuel] bounds it. *)
Fixpoint find_at_loop (fuel i : nat) (bs : list Z) : option nat :=
  match fuel with
  | O => None
  | S f =>
    if Nat.leb (i + 8) (length bs) then
      let chunk := firstn 8 (skipn i bs) in
      if has_at (le_u64 chunk) then
        match position (Z.eqb 64) chunk with
        | Some j => Some (i + j)%nat
        | None => find_at_loop f (i + 8) bs
        end
      else find_at_loop f (i + 8) bs
    else option_map (fun p => (i + p)%nat) (position (Z.eqb 64) (skipn i bs))
  end.

Definition find_at (email : str) : option nat :=
  find_at_loop (S (len email)) 0 (bytes email).

Definition count_in (l : list Z) : nat := length (filter (Z.eqb 64) l).

Fixpoint count_at_loop (fuel i : nat) (bs : list Z) : nat :=
  match fuel with
  | O => 0
  | S f =>
    if Nat.leb (i + 8) (length bs) then
      (count_in (firstn 8 (skipn i bs)) + count_at_loop f (i + 8) bs)%nat
    else count_in (skipn i bs)
  end.

(** [SimdValidator::count_at] *)
Definition count_at (email : str) : nat := count_at_loop (S (len email)) 0 (bytes email).

Fixpoint is_valid_ascii_loop (fuel i : nat) (bs : list Z) : bool :=
  match fuel with
  | O => false
  | S f =>
    if Nat.leb (i + 8) (length bs) then
      if negb (Z.land (le_u64 (firstn 8 (skipn i bs))) 0x8080808080808080 =? 0)
      then false
      else is_valid_ascii_loop f (i + 8) bs
    else forallb (fun b => in_range 0x20 0x7F b) (skipn i bs)
  end.

(** [SimdValidator::is_valid_ascii] *)
Definition is_valid_ascii (email : str) : bool :=
  is_valid_ascii_loop (S (len email)) 0 (bytes email).

(** [PortableSimd::validate_email_fast] *)
Definition validate_email_fast (email : str) : res (option bool) :=
  if Nat.ltb (len email) 16 then Ok None
  else if negb (is_valid_ascii email) then Ok None
  else if negb (Nat.eqb (count_at email) 1) then Ok (Some false)
  else match find_at email with
       | None => Ok None
       | Some at_pos =>
         if Nat.eqb at_pos 0 || Nat.eqb at_pos (len email - 1) then Ok (Some false)
         else
           let* dom := unwrap (str_range email (at_pos + 1) (len email)) in
           if negb (existsb (Z.eqb 46) dom) then Ok (Some false)
           else Ok (Some true)
       end.

End Simd.

(** ** The binding crate's tiers (src/lib.rs, src/fastpath.rs, src/lookup.rs) *)
Module Tiers.

(** [lookup::is_valid_local_byte_fast]: [LOCAL_PART_TABLE] (atext and dot). *)
Definition is_valid_local_byte_fast (b : Z) : bool := is_atext b || (b =? 46).

(** [lookup::is_valid_domain_byte_fast]: [DOMAIN_TABLE]. *)
Definition is_valid_domain_byte_fast (b : Z) : bool := is_ascii_alphanumeric b || (b =? 45).

Definition is_fast_local_char (b : Z) : bool :=
  is_ascii_alphanumeric b || existsb (Z.eqb b) [46; 45; 95; 43; 64].

Definition is_fast_domain_char (b : Z) : bool :=
  is_ascii_alphanumeric b || (b =? 46) || (b =? 45).

Definition common_domains : list string :=
  ["gmail.com"; "yahoo.com"; "hotmail.com"; "outlook.com";
   "icloud.com"; "protonmail.com"; "yandex.com"; "zoho.com";
   "mail.ru"; "qq.com"; "163.com"; "126.com";
   "foxmail.com"; "live.com"; "msn.com"; "aol.com";
   "proton.me"; "hey.com"; "fastmail.com"; "gmx.com";
   "comcast.net"; "verizon.net"; "att.net"; "me.com";
   "mac.com"; "icloud.com"; "example.com"; "test.com"]%string.

Fixpoint list_Z_eqb (a b : list Z) : bool :=
  match a, b with
  | [], [] => true
  | x :: a', y :: b' => (x =? y) && list_Z_eqb a' b'
  | _, _ => false
  end.

Definition is_common_domain (d : list Z) : bool :=
  existsb (fun s => list_Z_eqb (lit s) d) common_domains.

Fixpoint has_adjacent_dots (s : list Z) : bool :=
  match s with
  | a :: ((b :: _) as s') => ((a =? 46) && (b =? 46)) || has_adjacent_dots s'
  | _ => false
  end.

(** [has_dot_issues] *)
Definition has_dot_issues (s : list Z) : bool :=
  match s with
  | [] => true
  | b0 :: _ =>
    (b0 =? 46) || (last s 0 =? 46) || has_adjacent_dots s
  end.

(** [fastpath::fast_ascii_email_check] (byte slices: no boundary panics). *)
Definition fast_ascii_email_check (email : str) : option bool :=
  let bs := bytes email in
  if Nat.ltb 254 (length bs) || Nat.ltb (length bs) 3 then Some false
  else match Simd.position (Z.eqb 64) bs with
  | None => None
  | Some at_pos =>
    let local := firstn at_pos bs in
    let dom := skipn (S at_pos) bs in
    if existsb (Z.eqb 64) dom then Some false
    else if (Nat.eqb (length local) 0) || Nat.ltb 64 (length local) then Some false
    else if Nat.ltb (length dom) 3 || Nat.ltb 253 (length dom) then Some false
    else match Simd.position (Z.eqb 46) dom with
    | None => None
    | Some dot_pos =>
      if Nat.eqb dot_pos 0 || Nat.eqb dot_pos (length dom - 1) then Some false
      else if negb (forallb is_fast_local_char local) then None
      else if negb (forallb is_fast_domain_char dom) then None
      else if is_common_domain dom then Some true
      else if has_dot_issues local || has_dot_issues dom then Some false
      else Some true
    end
  end.

(** The [@] loop of [is_valid_detailed]: [None] for the early [return false]. *)
Fixpoint detailed_at_scan (bs : list Z) (i : nat) (at_pos : option nat)
    : option (option nat) :=
  match bs with
  | [] => Some at_pos
  | b :: bs' =>
    if b =? 64 then
      match at_pos with
      | Some _ => None
      | None => detailed_at_scan bs' (S i) (Some i)
      end
    else detailed_at_scan bs' (S i) at_pos
  end.

Fixpoint detailed_local_loop (allow_smtputf8 prev_dot : bool) (bs : list Z) : bool :=
  match bs with
  | [] => true
  | b :: bs' =>
    if b =? 46 then
      if prev_dot then false else detailed_local_loop allow_smtputf8 true bs'
    else if negb (is_valid_local_byte_fast b) && negb (allow_smtputf8 && (128 <=? b))
    then false
    else detailed_local_loop allow_smtputf8 false bs'
  end.

Definition detailed_label_ok (label : str) : bool :=
  let bs := bytes label in
  match bs with
  | [] => false
  | b0 :: _ =>
    negb (Nat.ltb 63 (length bs)) && negb (b0 =? 45) && negb (last bs 0 =? 45)
    && forallb is_valid_domain_byte_fast bs
  end.

(** [is_valid_detailed] *)
Definition is_valid_detailed (cb : Collab) (email0 : str) (allow_smtputf8 : bool)
    : res bool :=
  let email := str_trim email0 in
  if is_empty email then Ok false
  else match detailed_at_scan (bytes email) 0 None with
  | None => Ok false
  | Some None => Ok false
  | Some (Some at_pos) =>
    let* local := unwrap (str_range email 0 at_pos) in
    let* dom := unwrap (str_range email (at_pos + 1) (len email)) in
    if is_empty local || Nat.ltb 64 (len local) then Ok false
    else
    let lb := bytes local in
    if (hd 0 lb =? 46) || (last lb 0 =? 46) then Ok false
    else if negb (detailed_local_loop allow_smtputf8 false lb) then Ok false
    else if is_empty dom || Nat.ltb 253 (len dom) then Ok false
    else if negb (existsb (Z.eqb 46) dom) then Ok false
    else if forallb (fun label => forallb is_ascii_digit (bytes label)) (split_on 46 dom)
    then Ok false
    else if is_ascii dom then Ok (forallb detailed_label_ok (split_on 46 dom))
    else match validate_domain cb dom with
         | Ok _ => Ok true
         | Err _ => Ok false
         | Panic => Panic
         end
  end.

(** [is_valid_fast], the body of the Python-facing [is_valid]. *)
Definition is_valid_fast (cb : Collab) (email : str) (allow_smtputf8 : bool) : res bool :=
  let* simd :=
    if Nat.leb 32 (len email) then Simd.validate_email_fast email else Ok None in
  match simd with
  | Some result => Ok result
  | None =>
    match fast_ascii_email_check email with
    | Some result => Ok result
    | None => is_valid_detailed cb email allow_smtputf8
    end
  end.

(** [results[i] = v]: indexing past the end panics. *)
Definition set_nth (l : list bool) (i : nat) (v : bool) : res (list bool) :=
  if Nat.ltb i (length l) then Ok (firstn i l ++ v :: skipn (S i) l) else Panic.

Definition get (l : list str) (i : nat) : res str := unwrap (nth_error l i).

Fixpoint small_loop (f : str -> res bool) (emails : list str) (k i : nat)
    (results : list bool) : res (list bool) :=
  match k with
  | O => Ok results
  | S k' =>
    let* e := get emails i in
    let* r := f e in
    let* results := set_nth results i r in
    small_loop f emails k' (S i) results
  end.

(** [for i in 3..len { r3 = f(emails[i]); results[i-2] = r1; r1 = r2; r2 = r3 }] *)
Fixpoint pipe_loop (f : str -> res bool) (emails : list str) (k i : nat)
    (results : list bool) (r1 r2 : bool) : res (list bool * bool * bool) :=
  match k with
  | O => Ok (results, r1, r2)
  | S k' =>
    let* e := get emails i in
    let* r3 := f e in
    let* results := set_nth results (i - 2) r1 in
    pipe_loop f emails k' (S i) results r2 r3
  end.

(** [prefetch::pipelined_validation]: note the literal [true] flag. *)
Definition pipelined_validation (cb : Collab) (emails : list str) : res (list bool) :=
  let f := fun e => is_valid_fast cb e true in
  let n := length emails in
  let results := repeat false n in
  if Nat.ltb n 4 then small_loop f emails n 0 results
  else
    let* e1 := get emails 1 in
    let* r1 := f e1 in
    let* e2 := get emails 2 in
    let* r2 := f e2 in
    let* e0 := get emails 0 in
    let* v0 := f e0 in
    let* results := set_nth results 0 v0 in
    let* st := pipe_loop f emails (n - 3) 3 results r1 r2 in
    let '(results, r1, r2) := st in
    let* results := set_nth results (n - 2) r1 in
    set_nth results (n - 1) r2.

Fixpoint map_res (f : str -> res bool) (l : list str) : res (list bool) :=
  match l with
  | [] => Ok []
  | x :: l' => let* y := f x in let* ys := map_res f l' in Ok (y :: ys)
  end.

(** [batch_is_valid] *)
Definition batch_is_valid (cb : Collab) (emails : list str) (allow_smtputf8 : bool)
    : res (list bool) :=
  if Nat.ltb 16 (length emails) then pipelined_validation cb emails
  else map_res (fun e => is_valid_fast cb e allow_smtputf8) emails.

End Tiers.

(** ** Instances of the collaborators used to evaluate concrete inputs *)

(** The UTS #46 mapping of idna on the inputs evaluated below: ASCII capitals
    are mapped to small letters, U+00AD SOFT HYPHEN is ignored (deleted), other
    ASCII characters pass unchanged.  Labels still holding non-ASCII characters
    after the mapping (punycode) are outside this model and are refused. *)
Definition idna_map_char (c : Z) : list Z :=
  if c =? 0xAD then [] else if in_range 65 90 c then [c + 32] else [c].

Definition idna_model (d : str) : option str :=
  let a := flat_map idna_map_char d in
  if forallb (in_range 0 127) a then Some a else None.

(** Canonical composition on inputs already in composed form (all the
    non-ASCII inputs below are), where it is the identity. *)
Definition nfc_model (l : str) : str := l.

Definition cb_model : Collab := {|
  domain_to_ascii := idna_model;
  domain_to_ascii_valid := ltac:(
    unfold idna_model, valid_str; intros d a H;
    destruct (forallb (in_range 0 127) _) eqn:E; [|discriminate];
    injection H as <-; rewrite forallb_forall in *; intros c Hc;
    specialize (E c Hc); unfold in_range, valid_scalar in *; lia);
  nfc := nfc_model
|}.

(** ** Inputs used by the claims *)

(** The bytes the IPv4 parser consumes. *)
Definition digit_or_dot (b : Z) : Prop := 48 <= b <= 57 \/ b = 46.

(** 25 letters, two dots, [b@example.com]: 40 ASCII bytes, so the SWAR tier
    runs first. *)
Definition long_dotted : str := lit "aaaaaaaaaaaaaaaaaaaaaaaaa..b@example.com".

Definition ip4_literal : str := lit "user@[192.168.1.1]".

(** [üser@example.com] with a precomposed U+00FC. *)
Definition uuser : str := 252 :: lit "ser@example.com".

Definition canonical_in : str := lit "User.Name+tag@Example.COM".

(** A domain of 253 ASCII bytes once a U+00AD SOFT HYPHEN inside its last label
    is dropped by the IDNA mapping; raw, it is 255 bytes. *)
Definition shy_domain : str :=
  repeat 97 63 ++ [46] ++ repeat 98 63 ++ [46] ++ repeat 99 63 ++ [46] ++
  repeat 100 30 ++ [0xAD] ++ repeat 100 31.

(** What [validate] returns for [üser@example.com] with SMTPUTF8 allowed. *)
Definition uuser_validated : ValidatedEmail := {|
  original := uuser; local_part := 252 :: lit "ser"; domain := lit "example.com";
  normalized := uuser; ascii_domain := lit "example.com"; smtputf8 := true |}.

(** [user@example.com] between a leading space and a trailing tab. *)
Definition padded : str := [32] ++ lit "user@example.com" ++ [9].

Definition padded_validated : ValidatedEmail := {|
  original := lit "user@example.com"; local_part := lit "user";
  domain := lit "example.com"; normalized := lit "user@example.com";
  ascii_domain := lit "example.com"; smtputf8 := false |}.

(** What [validate] returns for the canonical example under the idna model. *)
Definition canonical_validated : ValidatedEmail := {|
  original := canonical_in; local_part := lit "User.Name+tag";
  domain := lit "Example.COM"; normalized := lit "User.Name+tag@example.com";
  ascii_domain := lit "example.com"; smtputf8 := false |}.

(** A 65-byte local part: [aaa...a@b.com]. *)
Definition long_local : str := repeat 97 65 ++ lit "@b.com".

(** [user@example.com], split at the [@]. *)
Definition simple_email_local : str := lit "user".
Definition simple_email_domain : str := lit "example.com".

Ltac zlia := Z.div_mod_to_equations; lia.

(** ** Byte helpers of the binding crate (src/lookup.rs) *)
Module Lookup.

(** [has_consecutive_dots]: the [u64] loop over whole chunks computes a value
    it never uses; the answer comes from the byte loop
    [for i in 0..bytes.len() - 1]. *)
Definition has_consecutive_dots (s : str) : bool :=
  let bs := bytes s in
  if Nat.ltb (length bs) 2 then false
  else existsb (fun i => (nth i bs 0 =? 46) && (nth (S i) bs 0 =? 46))
               (seq 0 (length bs - 1)).

(** The loop [for j in 0..8 { if bytes[i + j] == b'@' ... }] and the final
    [while i < len] loop: both update [(count, first_pos)] over a run of bytes
    starting at index [i]. *)
Fixpoint scan_at (bs : list Z) (i count : nat) (first_pos : option nat)
    : nat * option nat :=
  match bs with
  | [] => (count, first_pos)
  | b :: bs' =>
    if b =? 64 then
      scan_at bs' (S i) (S count)
        (match first_pos with None => Some i | Some p => Some p end)
    else scan_at bs' (S i) count first_pos
  end.

(** The [while i + 8 <= len] loop; [low_bits] is [Simd.has_at]'s expression.
    The loop runs at most [len / 8] times; [fuel] bounds it. *)
Fixpoint count_at_swar_loop (fuel i : nat) (bs : list Z) (count : nat)
    (first_pos : option nat) : nat * option nat :=
  match fuel with
  | O => (count, first_pos)
  | S f =>
    if Nat.leb (i + 8) (length bs) then
      let chunk := firstn 8 (skipn i bs) in
      let '(count, first_pos) :=
        if Simd.has_at (Simd.le_u64 chunk) then scan_at chunk i count first_pos
        else (count, first_pos) in
      count_at_swar_loop f (i + 8) bs count first_pos
    else scan_at (skipn i bs) i count first_pos
  end.

(** [count_at_swar]: [(count, position_of_first)] of the [@] bytes. *)
Definition count_at_swar (s : str) : nat * option nat :=
  count_at_swar_loop (S (len s)) 0 (bytes s) 0 None.

End Lookup.

(** ** Specialised paths of the binding crate (src/fastpath.rs) *)
Module Fastpath.

(** The [while i < len] loop of [ultra_fast_ascii_check] from index [i]. *)
Fixpoint ultra_loop (len i : nat) (at_found : bool) (bs : list Z) : bool :=
  match bs with
  | [] => at_found
  | c :: bs' =>
    if c =? 64 then
      if at_found || Nat.eqb i 0 || Nat.eqb i (len - 1) then false
      else ultra_loop len (S i) true bs'
    else if at_found then
      if negb (Tiers.is_fast_domain_char c) then false
      else ultra_loop len (S i) at_found bs'
    else if negb (Tiers.is_fast_local_char c) then false
    else ultra_loop len (S i) at_found bs'
  end.

(** [unsafe fn ultra_fast_ascii_check(ptr, len)]: the [len] bytes at [ptr]. *)
Definition ultra_fast_ascii_check (bs : list Z) : bool :=
  let len := length bs in
  if Nat.ltb len 3 || Nat.ltb 254 len then false
  else ultra_loop len 0 false bs.

Fixpoint const_loop (at_found : bool) (bs : list Z) : bool :=
  match bs with
  | [] => at_found
  | c :: bs' =>
    if c =? 64 then if at_found then false else const_loop true bs'
    else const_loop at_found bs'
  end.

(** [const_validate_email] *)
Definition const_validate_email (email : str) : bool :=
  let bs := bytes email in
  if Nat.ltb (length bs) 3 || Nat.ltb 254 (length bs) then false
  else const_loop false bs.

End Fastpath.

(** ** Batch helpers, string pool and result cache (src/prefetch.rs) *)
Module Prefetch.

Definition is_valid_true (cb : Collab) (e : str) : res bool := Tiers.is_valid_fast cb e true.

(** [PrefetchBatchValidator::validate_batch_prefetch]: [results] is the
    caller's slice, returned updated; the prefetches have no effect on it. *)
Definition validate_batch_prefetch (cb : Collab) (emails : list str)
    (results : list bool) : res (list bool) :=
  if Nat.eqb (length emails) 0 then Ok results
  else Tiers.small_loop (is_valid_true cb) emails (length emails) 0 results.

(** [<[T]>::chunks]: consecutive slices of [k] elements, the last one shorter. *)
Fixpoint chunks_loop (fuel k : nat) (l : list str) : list (list str) :=
  match fuel with
  | O => []
  | S f =>
    match l with
    | [] => []
    | _ => firstn k l :: chunks_loop f k (skipn k l)
    end
  end.

(** [emails.chunks(chunk_size)] asserts [chunk_size != 0]. *)
Definition chunks (k : nat) (l : list str) : res (list (list str)) :=
  if Nat.eqb k 0 then Panic else Ok (chunks_loop (length l) k l).

Fixpoint push_chunk (f : str -> res bool) (chunk : list str) (results : list bool)
    : res (list bool) :=
  match chunk with
  | [] => Ok results
  | e :: chunk' => let* r := f e in push_chunk f chunk' (results ++ [r])
  end.

Fixpoint push_chunks (f : str -> res bool) (cs : list (list str)) (results : list bool)
    : res (list bool) :=
  match cs with
  | [] => Ok results
  | c :: cs' => let* results := push_chunk f c results in push_chunks f cs' results
  end.

(** [PrefetchBatchValidator::validate_chunked] *)
Definition validate_chunked (cb : Collab) (emails : list str) (chunk_size : nat)
    : res (list bool) :=
  let* cs := chunks chunk_size emails in
  push_chunks (is_valid_true cb) cs [].

(** [StringPool]: the concatenated bytes and the start offset of each string. *)
Record StringPool := { buffer : list Z; offsets : list nat }.

Definition pool_new : StringPool := {| buffer := []; offsets := [] |}.

(** [StringPool::add]: the pool after the call, and the returned offset. *)
Definition pool_add (p : StringPool) (s : str) : StringPool * nat :=
  let offset := length (buffer p) in
  ({| buffer := buffer p ++ bytes s; offsets := offsets p ++ [offset] |}, offset).

(** [StringPool::get]: [&self.buffer[offset..end]] panics unless
    [offset <= end <= buffer.len()]. *)
Definition pool_get (p : StringPool) (index : nat) : res (option str) :=
  match nth_error (offsets p) index with
  | None => Ok None
  | Some offset =>
    let end_ := match nth_error (offsets p) (S index) with
                | Some e => e
                | None => length (buffer p)
                end in
    if Nat.leb offset end_ && Nat.leb end_ (length (buffer p)) then
      Ok (from_utf8 (firstn (end_ - offset) (skipn offset (buffer p))))
    else Panic
  end.

(** [StringPool::clear] *)
Definition pool_clear (p : StringPool) : StringPool := {| buffer := []; offsets := [] |}.

(** Adding the strings of a list in order, dropping the returned offsets. *)
Definition pool_add_all (p : StringPool) (ss : list str) : StringPool :=
  fold_left (fun p s => fst (pool_add p s)) ss p.

(** [usize::next_power_of_two] (sizes whose result overflows are not
    allocatable). *)
Definition next_power_of_two (n : nat) : nat :=
  if Nat.leb n 1 then 1 else 2 ^ (S (Nat.log2 (n - 1))).

(** [ValidationCache::new]: the buckets, all [0]. *)
Definition cache_new (size : nat) : list Z := repeat 0 (next_power_of_two size).

(** [ValidationCache::hash]: FNV-1a over the bytes, [u64] arithmetic. *)
Definition hash (email : str) : Z :=
  fold_left (fun h b => (Z.lxor h b * 0x100000001b3) mod Simd.two64) (bytes email)
            0xcbf29ce484222325.

(** [(self.buckets.len() - 1)]: underflows (a panic) on an empty table,
    which [new] never builds. *)
Definition cache_mask (buckets : list Z) : res Z :=
  if Nat.eqb (length buckets) 0 then Panic else Ok (Z.of_nat (length buckets) - 1).

Fixpoint check_loop (fuel : nat) (buckets : list Z) (h mask idx : Z) : option bool :=
  match fuel with
  | O => None
  | S f =>
    let bucket := nth (Z.to_nat idx) buckets 0 in
    if bucket =? 0 then None
    else if Z.shiftr bucket 1 =? h then Some (Z.land bucket 1 =? 1)
    else check_loop f buckets h mask (Z.land (idx + 1) mask)
  end.

(** [ValidationCache::check] *)
Definition cache_check (buckets : list Z) (email : str) : res (option bool) :=
  let h := hash email in
  let* mask := cache_mask buckets in
  Ok (check_loop 8 buckets h mask (Z.land h mask)).

Definition replace_nth (l : list Z) (i : nat) (v : Z) : list Z :=
  firstn i l ++ v :: skipn (S i) l.

(** The probing loop of [insert]; [cas_ok j] is whether the
    [compare_exchange_weak] of the [j]-th probe succeeds when the bucket is
    still [0] (the weak form may fail spuriously). *)
Fixpoint insert_loop (fuel : nat) (cas_ok : nat -> bool) (j : nat) (buckets : list Z)
    (mask idx value : Z) : list Z :=
  match fuel with
  | O => buckets
  | S f =>
    let existing := nth (Z.to_nat idx) buckets 0 in
    if (existing =? 0) && cas_ok j then replace_nth buckets (Z.to_nat idx) value
    else insert_loop f cas_ok (S j) buckets mask (Z.land (idx + 1) mask) value
  end.

(** [ValidationCache::insert]: [(hash << 1) | result] in [u64]. *)
Definition cache_insert (cas_ok : nat -> bool) (buckets : list Z) (email : str)
    (result : bool) : res (list Z) :=
  let h := hash email in
  let* mask := cache_mask buckets in
  let value := Z.lor ((Z.shiftl h 1) mod Simd.two64) (Z.b2z result) in
  Ok (insert_loop 8 cas_ok 0 buckets mask (Z.land h mask) value).

End Prefetch.

(** ** src/vectorized.rs *)
Module Vectorized.

(** [validate_single_fast]: the first ['@'] splits the address; the local part
    is checked for dots only, the domain for its length, its edge bytes and a
    dot. *)
Definition validate_single_fast (email : str) : bool :=
  let bs := bytes email in
  let n := length bs in
  if Nat.ltb n 5 || Nat.ltb 254 n then false
  else match Simd.position (Z.eqb 64) bs with
  | None => false
  | Some at_pos =>
    if Nat.eqb at_pos 0 || Nat.eqb at_pos (n - 1) then false
    else
    let local := firstn at_pos bs in
    let domain := skipn (at_pos + 1) bs in
    if Nat.eqb (length local) 0 || Nat.ltb 64 (length local) then false
    else if (nth 0 local 0 =? 46) || (nth (length local - 1) local 0 =? 46) then false
    else if existsb (fun i => (nth i local 0 =? 46) && (nth (i + 1) local 0 =? 46))
                    (seq 0 (length local - 1)) then false
    else if Nat.ltb (length domain) 3 || Nat.ltb 253 (length domain) then false
    else if (nth 0 domain 0 =? 46) || (nth (length domain - 1) domain 0 =? 46) then false
    else existsb (Z.eqb 46) domain
  end.

(** [validate_multiple] *)
Definition validate_multiple (emails : list str) : list bool :=
  map validate_single_fast emails.

End Vectorized.

(** ** src/jit.rs *)
Module Jit.

Record ValidationState := {
  state : Z; at_count : Z; dot_count : Z; last_char : Z
}.

Definition vs_new : ValidationState :=
  {| state := 0; at_count := 0; dot_count := 0; last_char := 0 |}.

(** [u8] addition: a panic with overflow checks ([debug]), wrapping without. *)
Definition add_u8 (overflow_checks : bool) (x y : Z) : res Z :=
  if overflow_checks && (256 <=? x + y) then Panic else Ok ((x + y) mod 256).

Definition with_state (s : ValidationState) (st : Z) : ValidationState :=
  {| state := st; at_count := at_count s; dot_count := dot_count s;
     last_char := last_char s |}.

(** [ValidationState::transition] *)
Definition transition (oc : bool) (s : ValidationState) (b : Z) : res ValidationState :=
  let* s' :=
    if state s =? 0 then
      Ok (if (b =? 64) || (b =? 46) then with_state s 255 else with_state s 1)
    else if state s =? 1 then
      if b =? 64 then
        let* ac := add_u8 oc (at_count s) 1 in
        let s1 := {| state := state s; at_count := ac; dot_count := dot_count s;
                     last_char := last_char s |} in
        Ok (if 1 <? ac then with_state s1 255 else with_state s1 2)
      else if (b =? 46) && (last_char s =? 46) then Ok (with_state s 255)
      else Ok s
    else if state s =? 2 then
      Ok (if (b =? 46) || (b =? 64) then with_state s 255 else with_state s 3)
    else if state s =? 3 then
      if b =? 64 then Ok (with_state s 255)
      else if b =? 46 then
        let* dc := add_u8 oc (dot_count s) 1 in
        Ok {| state := state s; at_count := at_count s; dot_count := dc;
              last_char := last_char s |}
      else Ok s
    else Ok s in
  Ok {| state := state s'; at_count := at_count s'; dot_count := dot_count s';
        last_char := b |}.

(** Feeding the bytes one [transition] at a time. *)
Fixpoint run (oc : bool) (s : ValidationState) (bs : list Z) : res ValidationState :=
  match bs with
  | [] => Ok s
  | b :: bs' => let* s' := transition oc s b in run oc s' bs'
  end.

(** [ValidationState::is_rejected] *)
Definition is_rejected (s : ValidationState) : bool := state s =? 255.

(** [ValidationState::can_accept] *)
Definition can_accept (s : ValidationState) : bool :=
  (state s =? 3) && (at_count s =? 1) && (1 <=? dot_count s).

End Jit.

(** ** src/approximate.rs *)
Module Approx.

Record NeuralValidator := { weights : list Z; threshold : Z }.

(** [NeuralValidator::new] *)
Definition neural_new : NeuralValidator :=
  {| weights := [10; 20; -50; 15; -100; 5; 8; -30]; threshold := 50 |}.

Definition count_bytes (p : Z -> bool) (bs : list Z) : Z := Z.of_nat (length (filter p bs)).

(** [NeuralValidator::score]: every feature is at most 254 and every weight at
    most 100 in size, so the [i32] sum cannot overflow and is computed in [Z]. *)
Definition score (nv : NeuralValidator) (email : str) : Z :=
  let bs := bytes email in
  let n := length bs in
  if Nat.ltb n 3 || Nat.ltb 254 n then -1000
  else
  let features := [
    Z.of_nat n;
    count_bytes (Z.eqb 64) bs;
    count_bytes (Z.eqb 46) bs;
    Z.b2z (is_ascii_alphabetic (nth 0 bs 0));
    count_bytes is_ascii_uppercase bs;
    count_bytes is_ascii_digit bs;
    Z.b2z (negb (nth 0 bs 0 =? 46) && negb (nth (n - 1) bs 0 =? 46));
    Z.of_nat (length (filter (fun i => (nth i bs 0 =? 46) && (nth (S i) bs 0 =? 46))
                             (seq 0 (n - 1))))
  ] in
  fold_left (fun acc i => acc + nth i features 0 * nth i (weights nv) 0) (seq 0 8) 0.

(** [NeuralValidator::quick_check]: (definitely invalid, probably valid). *)
Definition quick_check (nv : NeuralValidator) (email : str) : bool * bool :=
  let s := score nv email in
  if s <? -200 then (true, false)
  else if threshold nv <? s then (false, true)
  else (false, false).

(** [usize] arithmetic on a 64-bit target. *)
Definition add_usize (overflow_checks : bool) (x y : Z) : res Z :=
  if overflow_checks && (Simd.two64 <=? x + y) then Panic else Ok ((x + y) mod Simd.two64).

Definition sub_usize (overflow_checks : bool) (x y : Z) : res Z :=
  if overflow_checks && (x - y <? 0) then Panic else Ok ((x - y) mod Simd.two64).

(** [EmailFilter::hash1] (DJB2, wrapping). *)
Definition hash1 (s : str) : Z :=
  fold_left (fun h b => ((Z.shiftl h 5 mod Simd.two64 + h) mod Simd.two64 + b) mod Simd.two64)
            (bytes s) 5381.

(** [EmailFilter::hash2] (SDBM): [b + (h << 6) + (h << 16) - h] with plain
    [usize] operators, which panic on overflow when overflow checks are on. *)
Definition hash2_step (oc : bool) (h b : Z) : res Z :=
  let* x := add_usize oc b (Z.shiftl h 6 mod Simd.two64) in
  let* y := add_usize oc x (Z.shiftl h 16 mod Simd.two64) in
  sub_usize oc y h.

Fixpoint hash2_loop (oc : bool) (h : Z) (bs : list Z) : res Z :=
  match bs with
  | [] => Ok h
  | b :: bs' => let* h' := hash2_step oc h b in hash2_loop oc h' bs'
  end.

Definition hash2 (oc : bool) (s : str) : res Z := hash2_loop oc 0 (bytes s).

(** [EmailFilter::hash3] (FNV-1a, wrapping). *)
Definition hash3 (s : str) : Z :=
  fold_left (fun h b => (Z.lxor h b * 0x100000001b3) mod Simd.two64) (bytes s)
            0xcbf29ce484222325.

(** [EmailFilter::new]: [bits: [u64; 32]]. *)
Definition filter_new : list Z := repeat 0 32.

(** [EmailFilter::set_bit]: [bits[idx / 64] |= 1 << (idx % 64)]. *)
Definition set_bit (bits : list Z) (idx : Z) : list Z :=
  Prefetch.replace_nth bits (Z.to_nat (idx / 64))
    (Z.lor (nth (Z.to_nat (idx / 64)) bits 0) (Z.shiftl 1 (idx mod 64))).

(** [EmailFilter::get_bit]: [(bits[idx / 64] >> (idx % 64)) & 1 == 1]. *)
Definition get_bit (bits : list Z) (idx : Z) : bool :=
  Z.land (Z.shiftr (nth (Z.to_nat (idx / 64)) bits 0) (idx mod 64)) 1 =? 1.

(** [EmailFilter::add] *)
Definition filter_add (oc : bool) (bits : list Z) (email : str) : res (list Z) :=
  let h1 := hash1 email in
  let* h2 := hash2 oc email in
  let h3 := hash3 email in
  Ok (set_bit (set_bit (set_bit bits (h1 mod 2048)) (h2 mod 2048)) (h3 mod 2048)).

(** [EmailFilter::might_be_valid] *)
Definition might_be_valid (oc : bool) (bits : list Z) (email : str) : res bool :=
  let h1 := hash1 email in
  let* h2 := hash2 oc email in
  let h3 := hash3 email in
  Ok (get_bit bits (h1 mod 2048) && get_bit bits (h2 mod 2048) && get_bit bits (h3 mod 2048)).

(** A sequence of [add] calls, as in [AdaptiveValidator::new]. *)
Fixpoint filter_add_all (oc : bool) (bits : list Z) (es : list str) : res (list Z) :=
  match es with
  | [] => Ok bits
  | e :: es' => let* bits' := filter_add oc bits e in filter_add_all oc bits' es'
  end.

(** [RleValidator::is_local_char] *)
Definition rle_is_local_char (b : Z) : bool :=
  is_ascii_alphanumeric b || (b =? 46) || (b =? 95) || (b =? 45) || (b =? 43).

(** The first loop of [pattern_match]: [None] is [return false]; otherwise the
    loop ends with [Some None] ([at_seen] false) or breaks after the first
    ['@'] with the next index. [at_seen] is always false where the loop tests
    it, since the loop breaks right after setting it. *)
Fixpoint rle_local_loop (bs : list Z) (i : nat) : option (option nat) :=
  match bs with
  | [] => Some None
  | b :: bs' =>
    if b =? 64 then if Nat.eqb i 0 then None else Some (Some (S i))
    else if negb (rle_is_local_char b) then None
    else rle_local_loop bs' (S i)
  end.

(** The domain loop over [bytes[i..]]: [None] is [return false], otherwise
    the final [dot_seen]. *)
Fixpoint rle_domain_loop (all rest : list Z) (i : nat) (dot_seen : bool) : option bool :=
  match rest with
  | [] => Some dot_seen
  | b :: rest' =>
    if b =? 46 then
      if Nat.ltb 0 i && (nth (i - 1) all 0 =? 46) then None
      else rle_domain_loop all rest' (S i) true
    else if negb (is_ascii_alphanumeric b) && negb (b =? 45) then None
    else rle_domain_loop all rest' (S i) dot_seen
  end.

(** [RleValidator::pattern_match] *)
Definition pattern_match (email : str) : bool :=
  let bs := bytes email in
  let n := length bs in
  if Nat.ltb n 5 || Nat.ltb 254 n then false
  else match rle_local_loop bs 0 with
  | None | Some None => false
  | Some (Some i) =>
    if Nat.leb n i then false
    else match rle_domain_loop bs (skipn i bs) i false with
         | None => false
         | Some dot_seen => dot_seen && negb (nth (n - 1) bs 0 =? 46)
         end
  end.

End Approx.

(** ** [approximate::AdaptiveValidator] *)
Module Adaptive.

(** The patterns [AdaptiveValidator::new] adds to its filter. *)
Definition patterns : list str :=
  map lit ["gmail.com"; "yahoo.com"; "hotmail.com"; "outlook.com";
           "icloud.com"; "protonmail.com"; "aol.com"; "live.com"]%string.

(** The [full_validation_rate: f64] field is set to [0.1] and read nowhere;
    it is left out. *)
Record AdaptiveValidator := { neural : Approx.NeuralValidator; filter : list Z }.

(** [AdaptiveValidator::new] *)
Definition adaptive_new (oc : bool) : res AdaptiveValidator :=
  let* filter := Approx.filter_add_all oc Approx.filter_new patterns in
  Ok {| neural := Approx.neural_new; filter := filter |}.

End Adaptive.

(** ** [lazy::BranchlessValidator] (src/lazy.rs) *)
Module Branchless.

(** [u32 << usize]: with overflow checks a shift by 32 or more panics;
    without them the shift amount is masked to its low five bits. *)
Definition shl_u32 (overflow_checks : bool) (x : Z) (i : nat) : res Z :=
  if overflow_checks && Nat.leb 32 i then Panic
  else Ok (Z.shiftl x (Z.of_nat i mod 32) mod 2 ^ 32).

(** [u32::count_ones] *)
Definition count_ones (x : Z) : nat :=
  length (filter (fun k => Z.testbit x (Z.of_nat k)) (seq 0 32)).

(** The loop over [bytes.iter().enumerate()]: [(mask, at_pos)]. *)
Fixpoint branchless_loop (oc : bool) (bs : list Z) (i : nat) (mask : Z) (at_pos : nat)
    : res (Z * nat) :=
  match bs with
  | [] => Ok (mask, at_pos)
  | b :: bs' =>
    let is_at := Z.b2z (b =? 64) in
    let* sh := shl_u32 oc is_at i in
    branchless_loop oc bs' (S i) (Z.lor mask sh) (if is_at =? 1 then i else at_pos)
  end.

(** [BranchlessValidator::is_valid_branchless] *)
Definition is_valid_branchless (oc : bool) (email : str) : res bool :=
  let bs := bytes email in
  let n := length bs in
  if Nat.ltb n 3 || Nat.ltb 254 n then Ok false
  else
    let* p := branchless_loop oc bs 0 0 0 in
    let '(mask, at_pos) := p in
    Ok (Nat.eqb (count_ones mask) 1 && Nat.ltb 0 at_pos && Nat.ltb at_pos (n - 1)).

(** The bits the loop sets, and the index of the last ['@'], when no shift
    amount reaches 32. *)
Fixpoint at_bits (bs : list Z) (i : nat) : Z :=
  match bs with
  | [] => 0
  | b :: bs' => Z.lor (Z.b2z (b =? 64) * 2 ^ Z.of_nat i) (at_bits bs' (S i))
  end.

Fixpoint last_at (bs : list Z) (i at_pos : nat) : nat :=
  match bs with
  | [] => at_pos
  | b :: bs' => last_at bs' (S i) (if b =? 64 then i else at_pos)
  end.

End Branchless.

(** ** Auxiliary functions of the proofs *)

(** The SWAR expression read byte by byte, with the borrow of the subtraction. *)
Fixpoint swar_bytes (bs : list Z) (bw : Z) : Z :=
  match bs with
  | [] => 0
  | a :: r =>
    Z.land (Z.land ((a - 1 - bw) mod 256) (Z.lxor a 255)) 128
    + 256 * swar_bytes r (if a - 1 - bw <? 0 then 1 else 0)
  end.

Definition all_bytes (bs : list Z) : Prop := forall b, In b bs -> 0 <= b < 256.

(** The conditions [fast_ascii_email_check] puts on a common domain. *)
Definition common_domain_ok (d : list Z) : bool :=
  forallb (fun c => (0 <=? c) && (c <? 128)) d && negb (existsb (Z.eqb 64) d)
  && Nat.leb 3 (length d) && Nat.leb (length d) 189
  && match Simd.position (Z.eqb 46) d with
     | Some k => negb (Nat.eqb k 0) && negb (Nat.eqb k (length d - 1))
     | None => false
     end
  && forallb Tiers.is_fast_domain_char d && Tiers.is_common_domain d.

Definition u64_ok (b : Z) : bool := (0 <=? b) && (b <? Simd.two64).

Definition rle_domain_char (b : Z) : bool := is_ascii_alphanumeric b || (b =? 45) || (b =? 46).

Definition dots (bs : list Z) : Z := Z.of_nat (count_occ Z.eq_dec bs 46).

Definition atext_or_dot (b : Z) : bool := is_atext b || (b =? 46).

(** * Properties *)

(** ** The spec's examples, evaluated *)

Example ex_canonical :
  match validate cb_model true (lit "User.Name+tag@Example.COM") with
  | Ok r => normalized r = lit "User.Name+tag@example.com"
  | _ => False
  end.
Proof. vm_compute. reflexivity. Qed.

Example ex_ipv6 : validate cb_model true (lit "user@[IPv6:::1]") <> Panic /\
  is_ok (validate cb_model true (lit "user@[IPv6:::1]")) = true.
Proof. vm_compute. split; [discriminate | reflexivity]. Qed.

Example ex_ipv6_bad : validate cb_model true (lit "user@[IPv6:not-an-addr]") = Err InvalidDomain.
Proof. vm_compute. reflexivity. Qed.

Example ex_ipv4 : is_ok (validate cb_model true (lit "user@[192.168.1.1]")) = true.
Proof. vm_compute. reflexivity. Qed.

Example ex_numeric : validate cb_model true (lit "user@192.168.1.1") = Err InvalidDomain.
Proof. vm_compute. reflexivity. Qed.

Example ex_dots : validate cb_model true (lit "a..b@example.com") = Err ConsecutiveDots
  /\ validate cb_model true (lit ".a@example.com") = Err LeadingDot
  /\ validate cb_model true (lit "a.@example.com") = Err TrailingDot
  /\ validate cb_model true (lit "no-at-sign.example.com") = Err MissingAt
  /\ validate cb_model true (lit "a@b@example.com") = Err MultipleAt.
Proof. vm_compute. repeat split. Qed.

Example ex_unicode : is_ok (validate cb_model true (252 :: lit "ser@example.com")) = true
  /\ validate cb_model false (252 :: lit "ser@example.com") = Err InvalidCharacter.
Proof. vm_compute. split; reflexivity. Qed.

(** ** Lemmas on bytes, slicing and the [@] split *)

(** ** Bytes of a [str] *)

Lemma encode_char_high : forall c b, 0x80 <= c -> In b (encode_char c) -> 0x80 <= b.
Proof.
  intros c b Hc Hin. unfold encode_char in Hin.
  assert (0 <= c / 64) by (apply Z.div_pos; lia).
  assert (0 <= c / 4096) by (apply Z.div_pos; lia).
  assert (0 <= c / 262144) by (apply Z.div_pos; lia).
  pose proof (Z.mod_pos_bound c 64 ltac:(lia)).
  pose proof (Z.mod_pos_bound (c / 64) 64 ltac:(lia)).
  pose proof (Z.mod_pos_bound (c / 4096) 64 ltac:(lia)).
  destruct (c <? 0x80) eqn:E1; [apply Z.ltb_lt in E1; lia|].
  destruct (c <? 0x800); [|destruct (c <? 0x10000)];
    cbn [In] in Hin; repeat destruct Hin as [<- | Hin]; try contradiction; lia.
Qed.

Lemma encode_char_ascii : forall c x, 0 <= x < 128 -> In x (encode_char c) ->
  c = x /\ encode_char c = [x].
Proof.
  intros c x Hx Hin.
  destruct (c <? 0x80) eqn:E1.
  - unfold encode_char in *. rewrite E1 in *.
    destruct Hin as [<- | []]. auto.
  - apply Z.ltb_ge in E1. exfalso.
    pose proof (encode_char_high c x E1 Hin). lia.
Qed.

Lemma encode_char_nonempty : forall c, encode_char c <> [].
Proof.
  intros c. unfold encode_char.
  destruct (c <? 0x80); [|destruct (c <? 0x800); [|destruct (c <? 0x10000)]];
    discriminate.
Qed.

Lemma char_len_pos : forall c, (1 <= char_len c)%nat.
Proof.
  intros c. unfold char_len. destruct (encode_char c) eqn:E.
  - exfalso; exact (encode_char_nonempty c E).
  - simpl; lia.
Qed.

Lemma bytes_app : forall a b, bytes (a ++ b) = bytes a ++ bytes b.
Proof. intros. unfold bytes. apply flat_map_app. Qed.

Lemma bytes_cons : forall c s, bytes (c :: s) = encode_char c ++ bytes s.
Proof. reflexivity. Qed.

Lemma len_app : forall a b, len (a ++ b) = (len a + len b)%nat.
Proof. intros. unfold len. rewrite bytes_app, length_app. reflexivity. Qed.

Lemma len_cons : forall c s, len (c :: s) = (char_len c + len s)%nat.
Proof. intros. unfold len, char_len. rewrite bytes_cons, length_app. reflexivity. Qed.

Lemma len_zero : forall s, len s = 0%nat <-> s = [].
Proof.
  intros [|c s]; split; intros H; try reflexivity; try discriminate.
  rewrite len_cons in H. pose proof (char_len_pos c). lia.
Qed.

Lemma encode_ascii : forall c, 0 <= c < 128 -> encode_char c = [c].
Proof. intros c H. unfold encode_char. destruct (c <? 0x80) eqn:E; [reflexivity|lia]. Qed.

Lemma char_len_ascii : forall c, 0 <= c < 128 -> char_len c = 1%nat.
Proof. intros. unfold char_len. rewrite encode_ascii; auto. Qed.

Lemma In_bytes_ascii : forall s x, 0 <= x < 128 -> In x (bytes s) <-> In x s.
Proof.
  induction s as [|c s IH]; intros x Hx; simpl; [tauto|].
  rewrite in_app_iff, IH by exact Hx. split.
  - intros [H | H]; [left | right; exact H].
    apply encode_char_ascii in H as [-> _]; auto.
  - intros [<- | H]; [left | right; exact H].
    rewrite encode_ascii by exact Hx. now left.
Qed.

(** A byte [x < 128] of [bytes s] is a whole character of [s]. *)
Lemma bytes_split_ascii : forall s x bl bd, 0 <= x < 128 ->
  bytes s = bl ++ x :: bd -> ~ In x bl ->
  exists l d, s = l ++ x :: d /\ bytes l = bl /\ bytes d = bd.
Proof.
  induction s as [|c s IH]; intros x bl bd Hx Hs Hbl.
  - destruct bl; discriminate.
  - rewrite bytes_cons in Hs.
    apply app_eq_app in Hs as [l' [[H1 H2] | [H1 H2]]].
    + destruct l' as [|y l'].
      * rewrite app_nil_r in H1. simpl in H2.
        destruct (IH x [] bd Hx (eq_sym H2) (fun H => H)) as [l0 [d [-> [Hl0 Hd]]]].
        destruct l0 as [|c0 l0].
        -- exists [c], d. rewrite <- H1. repeat split.
           simpl. now rewrite app_nil_r. exact Hd.
        -- rewrite bytes_cons in Hl0. apply app_eq_nil in Hl0 as [Hc0 _].
           exfalso; exact (encode_char_nonempty c0 Hc0).
      * simpl in H2. injection H2 as <- Hbd.
        assert (Hin : In x (encode_char c)) by (rewrite H1; apply in_or_app; right; now left).
        apply encode_char_ascii in Hin as [-> Hc]; [|exact Hx].
        rewrite Hc in H1. destruct bl as [|b bl].
        -- injection H1 as H1. subst l'. exists [], s. repeat split. exact (eq_sym Hbd).
        -- injection H1 as -> H1. exfalso. apply Hbl. now left.
    + destruct (IH x l' bd Hx H2) as [l0 [d [-> [Hl0 Hd]]]].
      { intros H. apply Hbl. rewrite H1. apply in_or_app. now right. }
      exists (c :: l0), d. repeat split. rewrite bytes_cons, Hl0. auto. exact Hd.
Qed.

(** ** Slicing on character boundaries *)

Lemma split_at_byte_zero : forall s, split_at_byte s 0 = Some ([], s).
Proof. intros [|c s]; reflexivity. Qed.

Lemma split_at_byte_app : forall a b, split_at_byte (a ++ b) (len a) = Some (a, b).
Proof.
  induction a as [|c a IH]; intros b.
  - apply split_at_byte_zero.
  - simpl app. rewrite len_cons. pose proof (char_len_pos c). simpl.
    destruct (Nat.eqb (char_len c + len a) 0) eqn:E; [apply Nat.eqb_eq in E; lia|].
    rewrite (proj2 (Nat.leb_le _ _)) by lia.
    replace (char_len c + len a - char_len c)%nat with (len a) by lia.
    rewrite IH. reflexivity.
Qed.

Lemma str_range_prefix : forall a b, str_range (a ++ b) 0 (len a) = Some a.
Proof.
  intros a b. unfold str_range. simpl Nat.leb. cbv iota.
  rewrite split_at_byte_zero, Nat.sub_0_r, split_at_byte_app. reflexivity.
Qed.

Lemma str_range_suffix : forall a x b, char_len x = 1%nat ->
  str_range (a ++ x :: b) (len a + 1) (len (a ++ x :: b)) = Some b.
Proof.
  intros a x b Hx. unfold str_range.
  rewrite len_app, len_cons, Hx.
  rewrite (proj2 (Nat.leb_le _ _)) by lia.
  replace (a ++ x :: b) with ((a ++ [x]) ++ b) by (rewrite <- app_assoc; reflexivity).
  replace (len a + 1)%nat with (len (a ++ [x])) by (rewrite len_app, len_cons, Hx; change (len []) with 0%nat; lia).
  rewrite split_at_byte_app.
  replace (len a + (1 + len b) - len (a ++ [x]))%nat with (len b)
    by (rewrite len_app, len_cons, Hx; change (len []) with 0%nat; lia).
  rewrite <- (app_nil_r b) at 1. rewrite split_at_byte_app. reflexivity.
Qed.

(** ** The [@] loop *)

Lemma at_scan_no_at : forall bs i c p, ~ In 64 bs -> at_scan bs i c p = Ok (c, p).
Proof.
  induction bs as [|b bs IH]; intros i c p H; simpl; [reflexivity|].
  destruct (b =? 64) eqn:E.
  - apply Z.eqb_eq in E. subst. exfalso. apply H. now left.
  - apply IH. intros H'. apply H. now right.
Qed.

Lemma at_scan_second_at : forall bl bd i p,
  at_scan (bl ++ 64 :: bd) i 1 p = Err MultipleAt.
Proof.
  induction bl as [|b bl IH]; intros bd i p; simpl; [reflexivity|].
  destruct (b =? 64); [reflexivity | apply IH].
Qed.

Lemma at_scan_cases : forall bs i,
  (~ In 64 bs /\ at_scan bs i 0 None = Ok (0%nat, None)) \/
  (exists bl bd, bs = bl ++ 64 :: bd /\ ~ In 64 bl /\ ~ In 64 bd /\
     at_scan bs i 0 None = Ok (1%nat, Some (i + length bl)%nat)) \/
  at_scan bs i 0 None = Err MultipleAt.
Proof.
  induction bs as [|b bs IH]; intros i.
  - left. split; [auto | reflexivity].
  - simpl. destruct (b =? 64) eqn:E.
    + apply Z.eqb_eq in E. subst b. simpl.
      destruct (in_dec Z.eq_dec 64 bs) as [Hin | Hnin].
      * right; right. apply in_split in Hin as [bl [bd ->]].
        clear IH. apply at_scan_second_at.
      * right; left. exists [], bs. repeat split; auto.
        rewrite at_scan_no_at by exact Hnin. simpl. f_equal. f_equal. f_equal. lia.
    + apply Z.eqb_neq in E.
      destruct (IH (S i)) as [[H1 H2] | [[bl [bd [-> [H1 [H2 H3]]]]] | H]].
      * left. split; [|exact H2]. intros [H | H]; [congruence | auto].
      * right; left. exists (b :: bl), bd. repeat split; auto.
        -- intros [H | H]; [congruence | auto].
        -- rewrite H3. simpl. repeat f_equal. lia.
      * right; right. exact H.
Qed.

(** ** The shape of [validate] *)

Lemma validate_cases : forall cb allow s,
  let e := str_trim s in
  (e = [] /\ validate cb allow s = Err Empty) \/
  (e <> [] /\ ~ In 64 e /\ validate cb allow s = Err MissingAt) \/
  validate cb allow s = Err MultipleAt \/
  (exists l d, e = l ++ 64 :: d /\ ~ In 64 l /\ ~ In 64 d /\
   validate cb allow s =
     (let* _ := validate_local_part l allow in
      let* ascii_dom := validate_domain cb d in
      let normalized_local := if is_ascii l then l else nfc cb l in
      let* lowered := ascii_to_lower ascii_dom in
      Ok {| original := e; local_part := l; domain := d;
            normalized := normalized_local ++ [64] ++ lowered;
            ascii_domain := ascii_dom; smtputf8 := negb (is_ascii l) |})).
Proof.
  intros cb allow s e. unfold validate. fold e.
  destruct (is_empty e) eqn:He.
  - left. split; [|reflexivity]. apply len_zero. apply Nat.eqb_eq. exact He.
  - destruct (at_scan_cases (bytes e) 0) as [[H1 H2] | [[bl [bd [Hb [H1 [H2 H3]]]]] | H]].
    + right; left. rewrite H2. simpl. repeat split; auto.
      * intros E. rewrite E in He. discriminate.
      * intros H. apply H1. apply In_bytes_ascii; [lia | exact H].
    + right; right; right.
      destruct (bytes_split_ascii e 64 bl bd ltac:(lia) Hb H1) as [l [d [Hs [Hl Hd]]]].
      exists l, d. repeat split; auto.
      * intros H. apply H1. rewrite <- Hl. apply In_bytes_ascii; [lia | exact H].
      * intros H. apply H2. rewrite <- Hd. apply In_bytes_ascii; [lia | exact H].
      * rewrite H3. simpl bind. cbv beta iota. simpl Nat.eqb. cbv iota.
        replace (length bl) with (len l) by (unfold len; rewrite Hl; reflexivity).
        assert (E1 : str_range e 0 (len l) = Some l) by (rewrite Hs; apply str_range_prefix).
        assert (E2 : str_range e (len l + 1) (len e) = Some d)
          by (rewrite Hs; apply str_range_suffix, char_len_ascii; lia).
        rewrite E1, E2. reflexivity.
    + right; right; left. rewrite H. reflexivity.
Qed.

Lemma at_scan_one : forall bl bd i, ~ In 64 bl -> ~ In 64 bd ->
  at_scan (bl ++ 64 :: bd) i 0 None = Ok (1%nat, Some (i + length bl)%nat).
Proof.
  induction bl as [|b bl IH]; intros bd i H1 H2; simpl.
  - rewrite at_scan_no_at by exact H2. repeat f_equal. lia.
  - destruct (b =? 64) eqn:E.
    + apply Z.eqb_eq in E. subst. exfalso. apply H1. now left.
    + rewrite IH; [now rewrite Nat.add_succ_r | |exact H2]. intros H. apply H1. now right.
Qed.

(** The address splits at its only [@]: [validate] is the chain of the part
    checks. *)
Lemma validate_split : forall cb allow s l d,
  str_trim s = l ++ 64 :: d -> ~ In 64 l -> ~ In 64 d ->
  validate cb allow s =
     (let* _ := validate_local_part l allow in
      let* ascii_dom := validate_domain cb d in
      let normalized_local := if is_ascii l then l else nfc cb l in
      let* lowered := ascii_to_lower ascii_dom in
      Ok {| original := str_trim s; local_part := l; domain := d;
            normalized := normalized_local ++ [64] ++ lowered;
            ascii_domain := ascii_dom; smtputf8 := negb (is_ascii l) |}).
Proof.
  intros cb allow s l d Hs H1 H2. unfold validate.
  set (e := str_trim s) in *.
  assert (He : is_empty e = false).
  { unfold is_empty. apply Nat.eqb_neq. intros H. apply len_zero in H.
    rewrite Hs in H. destruct l; discriminate. }
  rewrite He.
  assert (Hb : bytes e = bytes l ++ 64 :: bytes d) by (rewrite Hs, bytes_app; reflexivity).
  rewrite Hb, at_scan_one.
  2: { intros H. apply H1. apply (In_bytes_ascii _ 64); [lia | exact H]. }
  2: { intros H. apply H2. apply (In_bytes_ascii _ 64); [lia | exact H]. }
  simpl bind. cbv beta iota. simpl Nat.eqb. cbv iota.
  change (length (bytes l)) with (len l).
  assert (E1 : str_range e 0 (len l) = Some l) by (rewrite Hs; apply str_range_prefix).
  assert (E2 : str_range e (len l + 1) (len e) = Some d)
    by (rewrite Hs; apply str_range_suffix, char_len_ascii; lia).
  rewrite E1, E2. reflexivity.
Qed.

(** A domain name that is neither empty, bracketed nor above 253 bytes goes
    through the IDNA mapping, and the checks run on its result. *)
Lemma validate_domain_idna : forall cb d a,
  is_empty d = false ->
  starts_with_byte d 91 && ends_with_byte d 93 = false ->
  Nat.ltb 253 (len d) = false ->
  domain_to_ascii cb d = Some a ->
  validate_domain cb d =
    (if negb (existsb (Z.eqb 46) a) then Err InvalidDomain
     else
       let labels := split_on 46 a in
       if forallb (fun label => forallb is_ascii_digit label) labels
       then Err InvalidDomain
       else let* _ := validate_labels labels in Ok a).
Proof. intros cb d a H1 H2 H3 H4. unfold validate_domain. rewrite H1, H2, H3, H4. reflexivity. Qed.

Lemma not_in_of_existsb : forall x l, existsb (Z.eqb x) l = false -> ~ In x l.
Proof.
  intros x l H Hin. assert (existsb (Z.eqb x) l = true) by (apply existsb_exists; exists x; split; [exact Hin | apply Z.eqb_refl]).
  congruence.
Qed.

Lemma in_range_true : forall lo hi b, lo <= b <= hi -> in_range lo hi b = true.
Proof. intros lo hi b H. unfold in_range. apply andb_true_intro. split; apply Z.leb_le; lia. Qed.

Lemma in_range_false : forall lo hi b, b < lo \/ hi < b -> in_range lo hi b = false.
Proof.
  intros lo hi b H. unfold in_range.
  destruct H; [rewrite (proj2 (Z.leb_gt lo b)) by lia | rewrite (proj2 (Z.leb_gt b hi)) by lia];
    auto using andb_false_r.
Qed.

Lemma cont_true : forall b, 0x80 <= b <= 0xBF -> cont b = true.
Proof. intros. apply in_range_true. lia. Qed.

Lemma from_utf8_encode : forall c rest, valid_scalar c = true ->
  from_utf8 (encode_char c ++ rest) = option_map (cons c) (from_utf8 rest).
Proof.
  intros c rest Hc. unfold valid_scalar in Hc.
  apply andb_prop in Hc as [Hc Hs]. apply andb_prop in Hc as [H0 H1].
  apply Z.leb_le in H0, H1. apply negb_true_iff in Hs.
  assert (Hsur : c < 0xD800 \/ 0xDFFF < c).
  { destruct (Z.leb_spec 0xD800 c); [|now left].
    destruct (Z.leb_spec c 0xDFFF); [discriminate | now right]. }
  clear Hs.
  unfold encode_char.
  destruct (Z.ltb_spec c 0x80).
  { cbn [app from_utf8]. rewrite in_range_true by zlia. reflexivity. }
  destruct (Z.ltb_spec c 0x800).
  { cbn [app from_utf8].
    rewrite (in_range_false 0 0x7F), (in_range_true 0xC2 0xDF), cont_true by zlia.
    cbv [andb]. f_equal. f_equal. zlia. }
  destruct (Z.ltb_spec c 0x10000).
  { cbn [app from_utf8].
    rewrite (in_range_false 0 0x7F), (in_range_false 0xC2 0xDF), (in_range_true 0xE0 0xEF) by zlia.
    rewrite (cont_true (0x80 + c mod 64)) by zlia.
    destruct (Z.eqb_spec (0xE0 + c / 4096) 0xE0).
    { rewrite (in_range_true 0xA0 0xBF) by zlia. cbv [andb]. f_equal. f_equal. zlia. }
    destruct (Z.eqb_spec (0xE0 + c / 4096) 0xED).
    { rewrite (in_range_true 0x80 0x9F) by zlia. cbv [andb]. f_equal. f_equal. zlia. }
    rewrite cont_true by zlia. cbv [andb]. f_equal. f_equal. zlia. }
  cbn [app from_utf8].
  rewrite (in_range_false 0 0x7F), (in_range_false 0xC2 0xDF), (in_range_false 0xE0 0xEF),
    (in_range_true 0xF0 0xF4) by zlia.
  rewrite (cont_true (0x80 + (c / 64) mod 64)), (cont_true (0x80 + c mod 64)) by zlia.
  destruct (Z.eqb_spec (0xF0 + c / 262144) 0xF0).
  { rewrite (in_range_true 0x90 0xBF) by zlia. cbv [andb]. f_equal. f_equal. zlia. }
  destruct (Z.eqb_spec (0xF0 + c / 262144) 0xF4).
  { rewrite (in_range_true 0x80 0x8F) by zlia. cbv [andb]. f_equal. f_equal. zlia. }
  rewrite cont_true by zlia. cbv [andb]. f_equal. f_equal. zlia.
Qed.

Lemma from_utf8_bytes : forall s, valid_str s = true -> from_utf8 (bytes s) = Some s.
Proof.
  induction s as [|c s IH]; intros H; [reflexivity|].
  simpl in H. apply andb_prop in H as [Hc Hs].
  rewrite bytes_cons, from_utf8_encode, IH by assumption. reflexivity.
Qed.

Lemma lower_byte_ascii : forall c, c < 0x80 -> lower_byte c < 0x80.
Proof.
  intros c H. unfold lower_byte, is_ascii_uppercase.
  destruct (in_range 65 90 c) eqn:E; [|exact H].
  unfold in_range in E. apply andb_prop in E as [_ E]. apply Z.leb_le in E. lia.
Qed.

Lemma lower_byte_high : forall c, 0x80 <= c -> lower_byte c = c.
Proof.
  intros c H. unfold lower_byte, is_ascii_uppercase. rewrite in_range_false by lia. reflexivity.
Qed.

Lemma map_lower_encode : forall c, map lower_byte (encode_char c) = encode_char (lower_byte c).
Proof.
  intros c. destruct (Z.ltb_spec c 0x80).
  - pose proof (lower_byte_ascii c H).
    unfold encode_char. rewrite (proj2 (Z.ltb_lt _ _) H), (proj2 (Z.ltb_lt _ _) H0). reflexivity.
  - rewrite lower_byte_high by exact H.
    transitivity (map (fun b => b) (encode_char c)); [|apply map_id].
    apply map_ext_in. intros b Hb. apply lower_byte_high, (encode_char_high c b H Hb).
Qed.

Lemma map_lower_bytes : forall s, map lower_byte (bytes s) = bytes (map lower_byte s).
Proof.
  induction s as [|c s IH]; [reflexivity|].
  simpl map. rewrite !bytes_cons, map_app, map_lower_encode, IH. reflexivity.
Qed.

Lemma valid_scalar_lower : forall c, valid_scalar c = true -> valid_scalar (lower_byte c) = true.
Proof.
  intros c H. unfold lower_byte, is_ascii_uppercase.
  destruct (in_range 65 90 c) eqn:E; [|exact H].
  unfold in_range in E. apply andb_prop in E as [E1 E2]. apply Z.leb_le in E1, E2.
  unfold valid_scalar. rewrite (proj2 (Z.leb_le 0 _)), (proj2 (Z.leb_le _ 0x10FFFF)) by lia.
  rewrite (proj2 (Z.leb_gt 0xD800 _)) by lia. reflexivity.
Qed.

Lemma valid_str_lower : forall s, valid_str s = true -> valid_str (map lower_byte s) = true.
Proof.
  induction s as [|c s IH]; intros H; [reflexivity|].
  simpl in *. apply andb_prop in H as [H1 H2]. rewrite valid_scalar_lower, IH; auto.
Qed.

Lemma lower_byte_id : forall c,
  is_ascii_lowercase c || negb (is_ascii_alphabetic c) = true -> lower_byte c = c.
Proof.
  intros c H. unfold lower_byte. destruct (is_ascii_uppercase c) eqn:U; [|reflexivity].
  exfalso. unfold is_ascii_alphabetic in H. rewrite U, orb_false_r in H.
  unfold is_ascii_lowercase, is_ascii_uppercase, in_range in *.
  apply andb_prop in H as [H1 H2]. apply andb_prop in U as [U1 U2].
  apply Z.leb_le in H1, H2, U1, U2. lia.
Qed.

Lemma valid_scalar_nonneg : forall c, valid_scalar c = true -> 0 <= c.
Proof.
  intros c H. unfold valid_scalar in H.
  apply andb_prop in H as [H _]. apply andb_prop in H as [H _]. apply Z.leb_le in H. exact H.
Qed.

(** On a well-formed string, [ascii_to_lower] lowercases the ASCII letters. *)
Lemma ascii_to_lower_valid : forall a, valid_str a = true ->
  ascii_to_lower a = Ok (map lower_byte a).
Proof.
  intros a Ha. unfold ascii_to_lower.
  destruct (forallb _ (bytes a)) eqn:F.
  - f_equal. symmetry. transitivity (map (fun c => c) a); [|apply map_id].
    apply map_ext_in. intros c Hc.
    assert (Hv : valid_scalar c = true) by (unfold valid_str in Ha; rewrite forallb_forall in Ha; auto).
    pose proof (valid_scalar_nonneg c Hv).
    destruct (Z.ltb_spec c 0x80).
    + rewrite forallb_forall in F. apply lower_byte_id, F.
      apply In_bytes_ascii; [lia | exact Hc].
    + apply lower_byte_high. exact H0.
  - rewrite map_lower_bytes, from_utf8_bytes by (apply valid_str_lower; exact Ha). reflexivity.
Qed.

Lemma valid_str_app : forall a b, valid_str (a ++ b) = valid_str a && valid_str b.
Proof. intros. unfold valid_str. apply forallb_app. Qed.

Lemma valid_str_rev : forall a, valid_str (rev a) = valid_str a.
Proof.
  induction a as [|c a IH]; [reflexivity|].
  simpl. rewrite valid_str_app, IH. simpl. rewrite andb_true_r. apply andb_comm.
Qed.

Lemma drop_ws_suffix : forall s, exists p, s = p ++ drop_ws s.
Proof.
  induction s as [|c s IH]; simpl; [now exists []|].
  destruct (is_whitespace c); [|now exists []].
  destruct IH as [p Hp]. exists (c :: p). simpl. congruence.
Qed.

Lemma valid_str_drop_ws : forall s, valid_str s = true -> valid_str (drop_ws s) = true.
Proof.
  intros s H. destruct (drop_ws_suffix s) as [p Hp]. rewrite Hp, valid_str_app in H.
  apply andb_prop in H as [_ H]. exact H.
Qed.

Lemma valid_str_trim : forall s, valid_str s = true -> valid_str (str_trim s) = true.
Proof.
  intros s H. unfold str_trim.
  rewrite valid_str_rev. apply valid_str_drop_ws. rewrite valid_str_rev.
  apply valid_str_drop_ws. exact H.
Qed.

Lemma str_range_mid : forall a m b,
  str_range (a ++ m ++ b) (len a) (len a + len m) = Some m.
Proof.
  intros a m b. unfold str_range.
  rewrite (proj2 (Nat.leb_le _ _)) by lia.
  rewrite split_at_byte_app.
  replace (len a + len m - len a)%nat with (len m) by lia.
  rewrite split_at_byte_app. reflexivity.
Qed.

Lemma starts_with_ascii : forall d x, 0 <= x < 128 ->
  starts_with_byte d x = true -> exists d', d = x :: d'.
Proof.
  intros [|c d'] x Hx H; [discriminate|].
  unfold starts_with_byte in H. rewrite bytes_cons in H.
  destruct (encode_char c) as [|b0 r] eqn:E; [exfalso; exact (encode_char_nonempty c E)|].
  simpl in H. apply Z.eqb_eq in H. subst b0.
  destruct (encode_char_ascii c x Hx) as [-> _]; [rewrite E; now left|].
  now exists d'.
Qed.

Lemma ends_with_ascii : forall d x, 0 <= x < 128 ->
  ends_with_byte d x = true -> exists d', d = d' ++ [x].
Proof.
  intros d x Hx H. unfold ends_with_byte in H.
  destruct (rev d) as [|c r] eqn:E.
  - apply (f_equal (@rev Z)) in E. rewrite rev_involutive in E. subst d. discriminate.
  - apply (f_equal (@rev Z)) in E. rewrite rev_involutive in E. subst d.
    simpl in H. rewrite bytes_app, rev_app_distr in H.
    change (bytes [c]) with (encode_char c ++ []) in H. rewrite app_nil_r in H.
    destruct (rev (encode_char c)) as [|b0 q] eqn:E2.
    + exfalso. apply (encode_char_nonempty c). apply (f_equal (@rev Z)) in E2.
      rewrite rev_involutive in E2. exact E2.
    + simpl in H. apply Z.eqb_eq in H. subst b0.
      destruct (encode_char_ascii c x Hx) as [-> _].
      { apply in_rev. rewrite E2. now left. }
      now exists (rev r).
Qed.

(** A bracketed domain is [[] m []] with its brackets as whole characters. *)
Lemma bracketed_shape : forall d,
  starts_with_byte d 91 && ends_with_byte d 93 = true -> exists m, d = 91 :: m ++ [93].
Proof.
  intros d H. apply andb_prop in H as [H1 H2].
  destruct (starts_with_ascii d 91 ltac:(lia) H1) as [d' ->].
  destruct (ends_with_ascii _ 93 ltac:(lia) H2) as [m Hm].
  destruct m as [|c m]; [discriminate|].
  injection Hm as <- Hm. exists m. rewrite Hm. reflexivity.
Qed.

Lemma validate_ip_literal_bracketed : forall m,
  validate_ip_literal (91 :: m ++ [93]) =
  match m with
  | 73 :: 80 :: 118 :: 54 :: 58 :: ipv6 =>
    if parse_ipv6 ipv6 then Ok (91 :: m ++ [93]) else Err InvalidDomain
  | _ => if parse_ipv4 m then Ok (91 :: m ++ [93]) else Err InvalidDomain
  end.
Proof.
  intros m. unfold validate_ip_literal.
  assert (Hl : len (91 :: m ++ [93]) = (1 + len m + 1)%nat).
  { rewrite len_cons, len_app, len_cons. reflexivity. }
  rewrite Hl. simpl Nat.eqb. cbv iota.
  replace (1 + len m + 1 - 1)%nat with (len [91%Z] + len m)%nat by (simpl; lia).
  change (91 :: m ++ [93]) with ([91] ++ m ++ [93]) at 1.
  change 1%nat with (len [91%Z]) at 1.
  rewrite str_range_mid. reflexivity.
Qed.

Lemma validate_ip_literal_result : forall m,
  validate_ip_literal (91 :: m ++ [93]) = Ok (91 :: m ++ [93]) \/
  validate_ip_literal (91 :: m ++ [93]) = Err InvalidDomain.
Proof.
  intros m. rewrite validate_ip_literal_bracketed.
  repeat match goal with |- context [match ?x with _ => _ end] => destruct x end;
    auto.
Qed.

(** ** Absence of panics *)

Lemma bind_not_panic : forall A B (m : res A) (f : A -> res B),
  m <> Panic -> (forall a, m = Ok a -> f a <> Panic) -> bind m f <> Panic.
Proof. intros A B [a|e|] f H1 H2; simpl; [exact (H2 a eq_refl) | discriminate | now destruct H1]. Qed.

Lemma bind_Ok : forall A B (m : res A) (f : A -> res B) r,
  bind m f = Ok r -> exists a, m = Ok a /\ f a = Ok r.
Proof. intros A B [a|e|] f r H; simpl in H; [now exists a | discriminate | discriminate]. Qed.

Lemma unwrap_Some : forall A (x : option A), x <> None -> unwrap x <> Panic.
Proof. intros A [a|] H; [discriminate | contradiction]. Qed.

Lemma local_scan_not_panic : forall a p bs, local_scan a p bs <> Panic.
Proof.
  intros a p bs. revert p. induction bs as [|b bs IH]; intros p; simpl; [discriminate|].
  destruct (b =? 46); [destruct p; [discriminate | apply IH]|].
  destruct (negb _); [|apply IH]. destruct (_ && _); [apply IH | discriminate].
Qed.

Lemma validate_local_part_not_panic : forall l allow, validate_local_part l allow <> Panic.
Proof.
  intros l allow. unfold validate_local_part.
  destruct (is_empty l) eqn:E; [discriminate|].
  destruct (Nat.ltb 64 (len l)); [discriminate|].
  assert (Hn : bytes l <> []).
  { intros H. unfold is_empty, len in E. rewrite H in E. discriminate. }
  apply bind_not_panic.
  { apply unwrap_Some. destruct (bytes l); [contradiction | discriminate]. }
  intros b0 _. destruct (b0 =? 46); [discriminate|].
  apply bind_not_panic.
  { apply unwrap_Some. intros H. apply nth_error_None in H.
    destruct (bytes l); [contradiction | simpl in H; lia]. }
  intros bl _. destruct (bl =? 46); [discriminate|].
  apply bind_not_panic; [apply local_scan_not_panic|].
  intros [] _. destruct (_ && _); [destruct (existsb _ l)|]; discriminate.
Qed.

Lemma validate_labels_not_panic : forall ls, validate_labels ls <> Panic.
Proof.
  induction ls as [|l ls IH]; simpl; [discriminate|].
  apply bind_not_panic; [|intros; exact IH].
  unfold validate_domain_label.
  destruct (is_empty l); [discriminate|]. destruct (Nat.ltb 63 (len l)); [discriminate|].
  destruct (_ || _); [discriminate|]. destruct (forallb _ l); discriminate.
Qed.

Lemma validate_domain_not_panic : forall cb d, validate_domain cb d <> Panic.
Proof.
  intros cb d. unfold validate_domain.
  destruct (is_empty d); [discriminate|].
  destruct (starts_with_byte d 91 && ends_with_byte d 93) eqn:B.
  { destruct (bracketed_shape d B) as [m ->]. 
    destruct (validate_ip_literal_result m) as [-> | ->]; discriminate. }
  destruct (Nat.ltb 253 (len d)); [discriminate|].
  destruct (domain_to_ascii cb d); [|discriminate].
  destruct (negb _); [discriminate|].
  destruct (forallb _ _); [discriminate|].
  apply bind_not_panic; [apply validate_labels_not_panic | discriminate].
Qed.

(** What [validate_domain] accepts is well-formed: the bracketed literal itself,
    or the mapper's output. *)
Lemma validate_domain_valid : forall cb d a, valid_str d = true ->
  validate_domain cb d = Ok a -> valid_str a = true.
Proof.
  intros cb d a Hd H. unfold validate_domain in H.
  destruct (is_empty d); [discriminate|].
  destruct (starts_with_byte d 91 && ends_with_byte d 93) eqn:B.
  { destruct (bracketed_shape d B) as [m ->]. 
    destruct (validate_ip_literal_result m) as [E | E]; rewrite E in H;
      [injection H as <-; exact Hd | discriminate]. }
  destruct (Nat.ltb 253 (len d)); [discriminate|].
  destruct (domain_to_ascii cb d) as [a'|] eqn:E; [|discriminate].
  destruct (negb _); [discriminate|].
  destruct (forallb _ _); [discriminate|].
  apply bind_Ok in H as [[] [_ H]]. injection H as <-.
  exact (domain_to_ascii_valid cb d a' E).
Qed.

(** ** Successful validations *)

Lemma validate_ok_inv : forall cb allow s r, validate cb allow s = Ok r ->
  exists l d ad lowered,
    str_trim s = l ++ 64 :: d /\ ~ In 64 l /\ ~ In 64 d /\
    validate_local_part l allow = Ok tt /\ validate_domain cb d = Ok ad /\
    ascii_to_lower ad = Ok lowered /\
    r = {| original := str_trim s; local_part := l; domain := d;
           normalized := (if is_ascii l then l else nfc cb l) ++ [64] ++ lowered;
           ascii_domain := ad; smtputf8 := negb (is_ascii l) |}.
Proof.
  intros cb allow s r H.
  destruct (validate_cases cb allow s) as [[_ E] | [[_ [_ E]] | [E | [l [d [Hs [Hl [Hd E]]]]]]]];
    rewrite E in H; try discriminate.
  apply bind_Ok in H as [[] [H1 H]]. apply bind_Ok in H as [ad [H2 H]].
  apply bind_Ok in H as [lo [H3 H]]. injection H as <-.
  exists l, d, ad, lo. rewrite <- Hs. repeat split; assumption.
Qed.

Lemma drop_ws_fixed : forall s,
  (match s with [] => True | c :: _ => is_whitespace c = false end) -> drop_ws s = s.
Proof. intros [|c s] H; simpl; [reflexivity|]. rewrite H. reflexivity. Qed.

Lemma drop_ws_head : forall s,
  match drop_ws s with [] => True | c :: _ => is_whitespace c = false end.
Proof.
  induction s as [|c s IH]; simpl; [exact I|].
  destruct (is_whitespace c) eqn:E; [exact IH | exact E].
Qed.

Lemma str_trim_idem : forall s, str_trim (str_trim s) = str_trim s.
Proof.
  intros s. unfold str_trim at 2 3.
  set (t := drop_ws s). set (u := drop_ws (rev t)).
  assert (Hu : drop_ws (rev u) = rev u).
  { apply drop_ws_fixed.
    destruct (drop_ws_suffix (rev t)) as [p Hp]. fold u in Hp.
    pose proof (drop_ws_head s) as Ht. fold t in Ht.
    apply (f_equal (@rev Z)) in Hp. rewrite rev_involutive, rev_app_distr in Hp.
    destruct (rev u) as [|c r]; [exact I|].
    rewrite Hp in Ht. exact Ht. }
  unfold str_trim. rewrite Hu, rev_involutive.
  rewrite (drop_ws_fixed u); [reflexivity|]. apply drop_ws_head.
Qed.

(** ** What the IPv4 parser consumes *)

Lemma to_digit_10 : forall b d, NetParser.to_digit 10 b = Some d -> 48 <= b <= 57.
Proof.
  intros b d H. unfold NetParser.to_digit in H.
  destruct (in_range 48 57 b) eqn:E1.
  { unfold in_range in E1. apply andb_prop in E1 as [E1 E2]. apply Z.leb_le in E1, E2. lia. }
  exfalso.
  destruct (in_range 97 122 b) eqn:E2;
    [|destruct (in_range 65 90 b) eqn:E3];
    unfold in_range in *;
    repeat match goal with
    | E : _ && _ = true |- _ => apply andb_prop in E as [? ?]
    end;
    rewrite ?Z.leb_le in *;
    destruct (_ <? 10) eqn:E4; try discriminate; apply Z.ltb_lt in E4; lia.
Qed.

Lemma read_digits_prefix : forall bnd md acc cnt s v c rest,
  NetParser.read_digits 10 bnd md acc cnt s = Some (v, c, rest) ->
  exists p, s = p ++ rest /\ forall b, In b p -> digit_or_dot b.
Proof.
  intros bnd md acc cnt s. revert acc cnt.
  induction s as [|b s IH]; intros acc cnt v c rest H; simpl in H.
  - injection H as _ _ <-. exists []. split; [reflexivity | intros _ []].
  - destruct (NetParser.to_digit 10 b) as [d|] eqn:E.
    + destruct (bnd <? _); [discriminate|]. destruct (Nat.ltb md (S cnt)); [discriminate|].
      destruct (IH _ _ _ _ _ H) as [p [-> Hp]].
      exists (b :: p). split; [reflexivity|].
      intros x [<- | Hx]; [left; exact (to_digit_10 b d E) | exact (Hp x Hx)].
    + injection H as _ _ <-. exists []. split; [reflexivity | intros _ []].
Qed.

Lemma read_octet_prefix : forall s v rest,
  NetParser.read_octet s = Some (v, rest) ->
  exists p, s = p ++ rest /\ forall b, In b p -> digit_or_dot b.
Proof.
  intros s v rest H. unfold NetParser.read_octet, NetParser.read_number in H.
  destruct (NetParser.read_digits 10 255 3 0 0 s) as [[[v' c] r]|] eqn:E; [|discriminate].
  destruct (Nat.eqb c 0); [discriminate|]. destruct (_ && _ && _); [discriminate|].
  injection H as _ <-. exact (read_digits_prefix _ _ _ _ _ _ _ _ E).
Qed.

Lemma read_separator_prefix : forall i s v rest,
  NetParser.read_separator 46 i NetParser.read_octet s = Some (v, rest) ->
  exists p, s = p ++ rest /\ forall b, In b p -> digit_or_dot b.
Proof.
  intros i s v rest H. unfold NetParser.read_separator in H.
  destruct (Nat.eqb i 0); [exact (read_octet_prefix _ _ _ H)|].
  destruct s as [|b s]; [discriminate|].
  destruct (Z.eqb_spec b 46); [|discriminate]. subst b.
  destruct (read_octet_prefix _ _ _ H) as [p [-> Hp]].
  exists (46 :: p). split; [reflexivity|].
  intros x [<- | Hx]; [right; reflexivity | exact (Hp x Hx)].
Qed.

Lemma read_ipv4_addr_prefix : forall s v rest,
  NetParser.read_ipv4_addr s = Some (v, rest) ->
  exists p, s = p ++ rest /\ forall b, In b p -> digit_or_dot b.
Proof.
  intros s v rest H. unfold NetParser.read_ipv4_addr in H.
  destruct (NetParser.read_separator 46 0 _ s) as [[a s1]|] eqn:E1; [|discriminate].
  destruct (NetParser.read_separator 46 1 _ s1) as [[b s2]|] eqn:E2; [|discriminate].
  destruct (NetParser.read_separator 46 2 _ s2) as [[c s3]|] eqn:E3; [|discriminate].
  destruct (NetParser.read_separator 46 3 _ s3) as [[d s4]|] eqn:E4; [|discriminate].
  injection H as _ <-.
  destruct (read_separator_prefix _ _ _ _ E1) as [p1 [-> H1]].
  destruct (read_separator_prefix _ _ _ _ E2) as [p2 [-> H2]].
  destruct (read_separator_prefix _ _ _ _ E3) as [p3 [-> H3]].
  destruct (read_separator_prefix _ _ _ _ E4) as [p4 [-> H4]].
  exists (p1 ++ p2 ++ p3 ++ p4). split; [now rewrite !app_assoc|].
  intros x Hx. repeat rewrite in_app_iff in Hx. intuition.
Qed.

(** The characters of a string whose bytes are all ASCII are those bytes. *)
Lemma chars_of_ascii_bytes : forall (P : Z -> Prop) s,
  (forall b, In b (bytes s) -> P b /\ b < 0x80) -> forall c, In c s -> P c.
Proof.
  intros P s H c Hc. apply in_split in Hc as [x [y ->]].
  assert (Hin : forall b, In b (encode_char c) -> P b /\ b < 0x80).
  { intros b Hb. apply H. rewrite bytes_app, bytes_cons. apply in_or_app. right. apply in_or_app. now left. }
  destruct (Z.ltb_spec c 0x80).
  - unfold encode_char in Hin. rewrite (proj2 (Z.ltb_lt _ _) H0) in Hin.
    apply (Hin c). now left.
  - destruct (encode_char c) as [|b r] eqn:E; [exfalso; exact (encode_char_nonempty c E)|].
    pose proof (encode_char_high c b H0 ltac:(rewrite E; now left)).
    destruct (Hin b ltac:(now left)). lia.
Qed.

Lemma parse_ipv4_chars : forall m, parse_ipv4 m = true -> forall c, In c m -> digit_or_dot c.
Proof.
  intros m H. unfold parse_ipv4 in H.
  destruct (Nat.ltb 15 _); [discriminate|].
  destruct (NetParser.read_ipv4_addr (bytes m)) as [[v [|x r]]|] eqn:E; try discriminate.
  destruct (read_ipv4_addr_prefix _ _ _ E) as [p [Hp Hd]].
  rewrite app_nil_r in Hp.
  apply chars_of_ascii_bytes. intros b Hb. rewrite Hp in Hb.
  split; [exact (Hd b Hb)|]. destruct (Hd b Hb); lia.
Qed.

(** ** Lowercasing *)

Lemma lower_byte_fixed : forall c x, ~ (65 <= x <= 90) -> ~ (97 <= x <= 122) ->
  (lower_byte c =? x) = (c =? x).
Proof.
  intros c x H1 H2. unfold lower_byte, is_ascii_uppercase.
  destruct (in_range 65 90 c) eqn:E; [|reflexivity].
  unfold in_range in E. apply andb_prop in E as [E1 E2]. apply Z.leb_le in E1, E2.
  destruct (Z.eqb_spec (c + 32) x); destruct (Z.eqb_spec c x); lia.
Qed.

Lemma lower_byte_idem : forall c, lower_byte (lower_byte c) = lower_byte c.
Proof.
  intros c. unfold lower_byte, is_ascii_uppercase.
  destruct (in_range 65 90 c) eqn:E; [|rewrite E; reflexivity].
  unfold in_range in E. apply andb_prop in E as [E1 E2]. apply Z.leb_le in E1, E2.
  rewrite (in_range_false 65 90 (c + 32)) by lia. reflexivity.
Qed.

Lemma map_lower_idem : forall s, map lower_byte (map lower_byte s) = map lower_byte s.
Proof. intros s. rewrite map_map. apply map_ext. apply lower_byte_idem. Qed.

Lemma len_lower : forall s, len (map lower_byte s) = len s.
Proof. intros s. unfold len. rewrite <- map_lower_bytes, length_map. reflexivity. Qed.

Lemma is_empty_lower : forall s, is_empty (map lower_byte s) = is_empty s.
Proof. intros s. unfold is_empty. rewrite len_lower. reflexivity. Qed.

Lemma digit_lower : forall c, is_ascii_digit (lower_byte c) = is_ascii_digit c.
Proof.
  intros c. unfold lower_byte, is_ascii_uppercase.
  destruct (in_range 65 90 c) eqn:E; [|reflexivity].
  unfold in_range in E. apply andb_prop in E as [E1 E2]. apply Z.leb_le in E1, E2.
  unfold is_ascii_digit. rewrite !in_range_false by lia. reflexivity.
Qed.

Lemma alnum_dash_lower : forall c,
  is_ascii_alphanumeric (lower_byte c) || (lower_byte c =? 45) =
  is_ascii_alphanumeric c || (c =? 45).
Proof.
  intros c. rewrite lower_byte_fixed by lia. f_equal.
  unfold lower_byte, is_ascii_uppercase.
  destruct (in_range 65 90 c) eqn:E; [|reflexivity].
  unfold in_range in E. apply andb_prop in E as [E1 E2]. apply Z.leb_le in E1, E2.
  unfold is_ascii_alphanumeric.
  rewrite (in_range_false 48 57 (c + 32)), (in_range_false 65 90 (c + 32)),
    (in_range_true 97 122 (c + 32)), (in_range_false 48 57 c), (in_range_true 65 90 c) by lia.
  reflexivity.
Qed.

Lemma split_on_lower : forall s,
  split_on 46 (map lower_byte s) = map (map lower_byte) (split_on 46 s).
Proof.
  induction s as [|c s IH]; [reflexivity|].
  simpl map. simpl split_on. rewrite lower_byte_fixed by lia.
  destruct (c =? 46); [simpl; rewrite IH; reflexivity|].
  rewrite IH. destruct (split_on 46 s); reflexivity.
Qed.

Lemma starts_with_lower : forall s x, ~ (65 <= x <= 90) -> ~ (97 <= x <= 122) ->
  starts_with_byte (map lower_byte s) x = starts_with_byte s x.
Proof.
  intros s x H1 H2. unfold starts_with_byte. rewrite <- map_lower_bytes.
  destruct (bytes s); [reflexivity|]. apply lower_byte_fixed; assumption.
Qed.

Lemma ends_with_lower : forall s x, ~ (65 <= x <= 90) -> ~ (97 <= x <= 122) ->
  ends_with_byte (map lower_byte s) x = ends_with_byte s x.
Proof.
  intros s x H1 H2. unfold ends_with_byte. rewrite <- map_lower_bytes, <- map_rev.
  destruct (rev (bytes s)); [reflexivity|]. apply lower_byte_fixed; assumption.
Qed.

Lemma forallb_map' : forall (f : Z -> bool) (g : Z -> Z) l,
  forallb f (map g l) = forallb (fun x => f (g x)) l.
Proof. intros f g l. induction l as [|x l IH]; simpl; [reflexivity | now rewrite IH]. Qed.

Lemma forallb_ext' : forall (f g : Z -> bool) l,
  (forall x, f x = g x) -> forallb f l = forallb g l.
Proof. intros f g l H. induction l as [|x l IH]; simpl; [reflexivity | now rewrite H, IH]. Qed.

Lemma validate_domain_label_lower : forall l,
  validate_domain_label (map lower_byte l) = validate_domain_label l.
Proof.
  intros l. unfold validate_domain_label.
  rewrite is_empty_lower, len_lower, starts_with_lower, ends_with_lower by lia.
  rewrite forallb_map'.
  rewrite (forallb_ext' _ (fun c => is_ascii_alphanumeric c || (c =? 45)))
    by (intros; apply alnum_dash_lower).
  reflexivity.
Qed.

Lemma validate_labels_lower : forall ls,
  validate_labels (map (map lower_byte) ls) = validate_labels ls.
Proof.
  induction ls as [|l ls IH]; simpl; [reflexivity|].
  rewrite validate_domain_label_lower, IH. reflexivity.
Qed.

Lemma validate_labels_all : forall ls, validate_labels ls = Ok tt ->
  forall lab, In lab ls -> validate_domain_label lab = Ok tt.
Proof.
  induction ls as [|l ls IH]; intros H lab Hin; [destruct Hin|].
  simpl in H. apply bind_Ok in H as [[] [H1 H2]].
  destruct Hin as [<- | Hin]; [exact H1 | exact (IH H2 lab Hin)].
Qed.

Lemma validate_domain_label_chars : forall lab, validate_domain_label lab = Ok tt ->
  forall c, In c lab -> is_ascii_alphanumeric c || (c =? 45) = true.
Proof.
  intros lab H c Hc. unfold validate_domain_label in H.
  destruct (is_empty lab); [discriminate|]. destruct (Nat.ltb 63 _); [discriminate|].
  destruct (_ || _); [discriminate|].
  destruct (forallb _ lab) eqn:F; [|discriminate].
  rewrite forallb_forall in F. exact (F c Hc).
Qed.

Lemma split_on_In : forall a c, In c a -> c <> 46 ->
  exists lab, In lab (split_on 46 a) /\ In c lab.
Proof.
  induction a as [|x a IH]; intros c Hc Hne; [destruct Hc|]. simpl.
  destruct (Z.eqb_spec x 46).
  - destruct Hc as [-> | Hc]; [contradiction|].
    destruct (IH c Hc Hne) as [lab [H1 H2]]. exists lab. split; [now right | exact H2].
  - destruct Hc as [-> | Hc].
    + destruct (split_on 46 a) as [|l ls]; [exists [c] | exists (c :: l)]; split; now left.
    + destruct (IH c Hc Hne) as [lab [H1 H2]].
      destruct (split_on 46 a) as [|l ls]; [destruct H1|].
      destruct H1 as [<- | H1].
      * exists (x :: l). split; [now left | now right].
      * exists lab. split; [now right | exact H2].
Qed.

(** A letter, digit, hyphen or dot. *)
Lemma ldh_not_special : forall c,
  c = 46 \/ is_ascii_alphanumeric c || (c =? 45) = true ->
  c <> 64 /\ c <> 91 /\ is_whitespace c = false.
Proof.
  intros c H.
  assert (Hr : 45 <= c <= 57 \/ 65 <= c <= 90 \/ 97 <= c <= 122).
  { destruct H as [-> | H]; [lia|].
    unfold is_ascii_alphanumeric, in_range in H.
    repeat rewrite orb_true_iff in H. repeat rewrite andb_true_iff in H.
    rewrite !Z.leb_le, Z.eqb_eq in H. lia. }
  split; [lia | split; [lia|]].
  unfold is_whitespace. rewrite !in_range_false by lia.
  repeat match goal with |- context [?x =? ?k] => rewrite (proj2 (Z.eqb_neq x k)) by lia end.
  reflexivity.
Qed.

(** The result of the IDNA branch of [validate_domain]: letters, digits,
    hyphens and dots. *)
Lemma validate_domain_idna_chars : forall cb d a,
  starts_with_byte d 91 && ends_with_byte d 93 = false ->
  validate_domain cb d = Ok a ->
  forall c, In c a -> c = 46 \/ is_ascii_alphanumeric c || (c =? 45) = true.
Proof.
  intros cb d a B H c Hc. unfold validate_domain in H. rewrite B in H.
  destruct (is_empty d); [discriminate|]. destruct (Nat.ltb 253 _); [discriminate|].
  destruct (domain_to_ascii cb d) as [a'|]; [|discriminate].
  destruct (negb _); [discriminate|]. destruct (forallb _ _); [discriminate|].
  apply bind_Ok in H as [[] [HL H]]. injection H as <-.
  destruct (Z.eq_dec c 46) as [-> | Hne]; [now left|]. right.
  destruct (split_on_In a' c Hc Hne) as [lab [H1 H2]].
  exact (validate_domain_label_chars lab (validate_labels_all _ HL lab H1) c H2).
Qed.

Lemma existsb_dot_lower : forall a,
  existsb (Z.eqb 46) (map lower_byte a) = existsb (Z.eqb 46) a.
Proof.
  induction a as [|c a IH]; cbn [map existsb]; [reflexivity|].
  rewrite IH, (Z.eqb_sym 46 (lower_byte c)), (Z.eqb_sym 46 c), lower_byte_fixed by lia.
  reflexivity.
Qed.

Lemma numeric_lower : forall ls,
  forallb (fun label => forallb is_ascii_digit label) (map (map lower_byte) ls) =
  forallb (fun label => forallb is_ascii_digit label) ls.
Proof.
  induction ls as [|l ls IH]; cbn [map forallb]; [reflexivity|].
  rewrite IH, forallb_map', (forallb_ext' _ is_ascii_digit) by apply digit_lower.
  reflexivity.
Qed.

(** Lowercasing the IDNA result of a valid name gives a name that validates to
    itself, provided the mapper leaves its own lowercased output alone and the
    result fits in 253 bytes. *)
Lemma validate_domain_relower : forall cb d a,
  (forall d0 a0, domain_to_ascii cb d0 = Some a0 ->
     domain_to_ascii cb (map lower_byte a0) = Some (map lower_byte a0)) ->
  starts_with_byte d 91 && ends_with_byte d 93 = false ->
  validate_domain cb d = Ok a -> (len a <= 253)%nat ->
  validate_domain cb (map lower_byte a) = Ok (map lower_byte a).
Proof.
  intros cb d a Hidna B H Hlen.
  pose proof (validate_domain_idna_chars cb d a B H) as Hch.
  unfold validate_domain in H. rewrite B in H.
  destruct (is_empty d); [discriminate|]. destruct (Nat.ltb 253 _); [discriminate|].
  destruct (domain_to_ascii cb d) as [a'|] eqn:E; [|discriminate].
  destruct (existsb (Z.eqb 46) a') eqn:Dot; [|discriminate]. simpl negb in H. cbv iota in H.
  destruct (forallb _ _) eqn:Num; [discriminate|].
  apply bind_Ok in H as [[] [HL H]]. injection H as <-.
  unfold validate_domain.
  rewrite is_empty_lower.
  replace (is_empty a') with false
    by (symmetry; unfold is_empty; apply Nat.eqb_neq; intros Z0; apply len_zero in Z0;
        subst a'; discriminate).
  rewrite starts_with_lower by lia.
  replace (starts_with_byte a' 91) with false.
  2: { symmetry. destruct (starts_with_byte a' 91) eqn:S; [|reflexivity].
       destruct (starts_with_ascii a' 91 ltac:(lia) S) as [r ->].
       destruct (ldh_not_special 91 (Hch 91 ltac:(now left))) as [_ [C _]]. contradiction. }
  simpl andb. cbv iota.
  rewrite len_lower, (proj2 (Nat.ltb_ge _ _) Hlen), (Hidna d a' E).
  rewrite existsb_dot_lower, Dot. simpl negb. cbv iota.
  rewrite split_on_lower, numeric_lower, Num, validate_labels_lower, HL.
  reflexivity.
Qed.

Lemma ip_literal_ok_cases : forall m x,
  validate_ip_literal (91 :: m ++ [93]) = Ok x ->
  (exists y, m = 73 :: 80 :: 118 :: 54 :: 58 :: y) \/ parse_ipv4 m = true.
Proof.
  intros m x. rewrite validate_ip_literal_bracketed.
  repeat match goal with |- context [match ?x with _ => _ end] => destruct x eqn:? end;
    intros H; try discriminate; eauto.
Qed.

(** ** Trimming a rebuilt address *)

Lemma drop_ws_length : forall x, (length (drop_ws x) <= length x)%nat.
Proof.
  induction x as [|c x IH]; simpl; [lia|]. destruct (is_whitespace c); simpl; lia.
Qed.

Lemma drop_ws_cons_fixed : forall c x, drop_ws (c :: x) = c :: x -> is_whitespace c = false.
Proof.
  intros c x H. simpl in H. destruct (is_whitespace c); [|reflexivity].
  pose proof (drop_ws_length x). rewrite H in H0. simpl in H0. lia.
Qed.

Lemma drop_ws_trim : forall s, drop_ws (str_trim s) = str_trim s.
Proof.
  intros s. unfold str_trim.
  set (t := drop_ws s). set (u := drop_ws (rev t)).
  apply drop_ws_fixed.
  destruct (drop_ws_suffix (rev t)) as [p Hp]. fold u in Hp.
  pose proof (drop_ws_head s) as Ht. fold t in Ht.
  apply (f_equal (@rev Z)) in Hp. rewrite rev_involutive, rev_app_distr in Hp.
  destruct (rev u) as [|c r]; [exact I|].
  rewrite Hp in Ht. exact Ht.
Qed.

Lemma drop_ws_prefix : forall a b, a <> [] -> drop_ws (a ++ b) = a ++ b -> drop_ws a = a.
Proof.
  intros [|c a] b Hne H; [contradiction|].
  apply drop_ws_fixed. exact (drop_ws_cons_fixed c (a ++ b) H).
Qed.

Lemma str_trim_rebuilt : forall a b, a <> [] -> drop_ws a = a ->
  (match rev b with [] => False | c :: _ => is_whitespace c = false end) ->
  str_trim (a ++ 64 :: b) = a ++ 64 :: b.
Proof.
  intros a b Hne Ha Hb. unfold str_trim.
  destruct a as [|c a]; [contradiction|].
  pose proof (drop_ws_cons_fixed c a Ha) as Hc.
  rewrite (drop_ws_fixed ((c :: a) ++ 64 :: b)) by exact Hc.
  rewrite (drop_ws_fixed (rev ((c :: a) ++ 64 :: b))), rev_involutive; [reflexivity|].
  rewrite rev_app_distr. simpl rev at 1.
  destruct (rev b) as [|c' r]; [contradiction | exact Hb].
Qed.

Lemma validate_domain_bracketed : forall cb m,
  validate_domain cb (91 :: m ++ [93]) = validate_ip_literal (91 :: m ++ [93]).
Proof.
  intros cb m. unfold validate_domain.
  replace (is_empty (91 :: m ++ [93])) with false
    by (unfold is_empty; rewrite len_cons; reflexivity).
  replace (starts_with_byte (91 :: m ++ [93]) 91 && ends_with_byte (91 :: m ++ [93]) 93)
    with true; [reflexivity|].
  unfold starts_with_byte, ends_with_byte.
  rewrite bytes_cons, bytes_app, !rev_app_distr. reflexivity.
Qed.

Lemma ldh_lower : forall c, c = 46 \/ is_ascii_alphanumeric c || (c =? 45) = true ->
  lower_byte c = 46 \/ is_ascii_alphanumeric (lower_byte c) || (lower_byte c =? 45) = true.
Proof.
  intros c [-> | H]; [left; reflexivity | right; rewrite alnum_dash_lower; exact H].
Qed.

Lemma validate_domain_nonempty : forall cb d a, validate_domain cb d = Ok a -> d <> [].
Proof. intros cb d a H ->. discriminate. Qed.

(** The address rebuilt from a normalized local part and a lowercased domain,
    each of which revalidates to itself, validates to the same normalized
    form. *)
Lemma validate_rebuilt : forall cb allow nl lo ad2,
  validate_local_part nl allow = Ok tt -> ~ In 64 nl -> drop_ws nl = nl -> nl <> [] ->
  (if is_ascii nl then nl else nfc cb nl) = nl ->
  validate_domain cb lo = Ok ad2 -> ascii_to_lower ad2 = Ok lo -> ~ In 64 lo ->
  (match rev lo with [] => False | c :: _ => is_whitespace c = false end) ->
  exists r', validate cb allow (nl ++ [64] ++ lo) = Ok r' /\
             normalized r' = nl ++ [64] ++ lo.
Proof.
  intros cb allow nl lo ad2 H1 H2 H3 H4 H5 H6 H7 H8 H9.
  rewrite (validate_split cb allow _ nl lo) by (try apply str_trim_rebuilt; assumption).
  rewrite H1. cbn [bind]. rewrite H6. cbn [bind]. rewrite H7. cbn [bind].
  eexists. split; [reflexivity|]. cbn [normalized]. f_equal. exact H5.
Qed.

Lemma lower_byte_digit_or_dot : forall c, digit_or_dot c -> lower_byte c = c.
Proof.
  intros c H. unfold lower_byte, is_ascii_uppercase.
  rewrite in_range_false by (destruct H; lia). reflexivity.
Qed.

(** ** C1: tier agreement of [is_valid] and [validate] *)

(** C1 (code_bug). [is_valid] (that is, [is_valid_fast]) disagrees with
    [validate(..).is_ok()] in both directions and for both flag values: the
    SWAR tier accepts a 40-byte address with two consecutive dots that
    [validate] rejects with [ConsecutiveDots], and the detailed tier rejects the
    bracketed IPv4 literal [user@[192.168.1.1]] that [validate] accepts. *)
Theorem is_valid_disagrees_with_validate : forall (cb : Collab) (allow : bool),
  Tiers.is_valid_fast cb long_dotted allow = Ok true /\
  validate cb allow long_dotted = Err ConsecutiveDots /\
  Tiers.is_valid_fast cb ip4_literal allow = Ok false /\
  is_ok (validate cb allow ip4_literal) = true.
Proof. intros cb [|]; vm_compute; repeat split. Qed.

(** ** C6: the scanner's start states *)

(** The [@] half of C6 holds: a leading [@] always ends in rejection (the
    scanner moves to [Local] with [at_count = 1] and can then never pass a
    second [@]). *)
Lemma run_local_after_at : forall bs st dc,
  (st = ZeroCopy.Local \/ st = ZeroCopy.LocalDot) ->
  match ZeroCopy.run st 1 dc bs with
  | Some (ZeroCopy.Domain, _, _) => False
  | _ => True
  end.
Proof.
  induction bs as [|b bs IH]; intros st dc Hst; simpl.
  - destruct Hst as [-> | ->]; exact I.
  - destruct Hst as [-> | ->]; simpl.
    + destruct (b =? 64); [exact I|].
      destruct (b =? 46); [apply IH; auto|].
      destruct (ZeroCopy.is_local_char b); [apply IH; auto | exact I].
    + destruct ((b =? 46) || (b =? 64)) eqn:E; [exact I|].
      apply orb_false_iff in E as [_ E]. rewrite E. apply IH; auto.
Qed.

Lemma validate_no_alloc_leading_at : forall rest,
  ZeroCopy.validate_no_alloc (64 :: rest) = false.
Proof.
  intros rest. unfold ZeroCopy.validate_no_alloc.
  destruct (negb _); [reflexivity|].
  cbn [bytes flat_map encode_char]. simpl ZeroCopy.run.
  pose proof (run_local_after_at (bytes rest) ZeroCopy.Local 0 (or_introl eq_refl)) as H.
  unfold bytes in H.
  destruct (ZeroCopy.run ZeroCopy.Local 1 0 (flat_map encode_char rest))
    as [[[[] ?] ?]|]; try reflexivity; contradiction.
Qed.

(** C6 (code_bug). Against the transition table: in [LocalStart] a byte
    outside the local-legal class ['('] moves to [Local], and in [DomainStart]
    a byte outside the domain-legal class ['_'] moves to [Domain]; whole
    strings using them, [(a@b.com] and [a@_b.com], are accepted. *)
Theorem start_states_accept_illegal_bytes :
  ZeroCopy.step ZeroCopy.LocalStart 0 0 40 = Some (ZeroCopy.Local, 0%nat, 0%nat) /\
  ZeroCopy.is_local_char 40 = false /\
  ZeroCopy.step ZeroCopy.DomainStart 1 0 95 = Some (ZeroCopy.Domain, 1%nat, 0%nat) /\
  ZeroCopy.is_domain_char 95 = false /\
  ZeroCopy.validate_no_alloc (lit "(a@b.com") = true /\
  ZeroCopy.validate_no_alloc (lit "a@_b.com") = true.
Proof. vm_compute. repeat split. Qed.

(** ** C3: the canonical example *)

(** C3 (corrected, counterexample). With idna's mapping, which lowercases ASCII
    capitals, the returned [ascii_domain] is not [Example.COM]. *)
Lemma canonical_ascii_domain_not_preserved :
  ~ (exists r, validate cb_model true canonical_in = Ok r /\
               ascii_domain r = lit "Example.COM").
Proof.
  intros [r [H1 H2]]. vm_compute in H1. injection H1 as <-.
  vm_compute in H2. discriminate.
Qed.

(** C3 (corrected). Whenever the IDNA mapper sends [Example.COM] to
    [example.com] (as UTS #46 does), [validate("User.Name+tag@Example.COM", true)]
    returns local part [User.Name+tag], domain [Example.COM], ascii_domain
    [example.com], normalized [User.Name+tag@example.com] and smtputf8 false. *)
Theorem canonical_example : forall cb : Collab,
  domain_to_ascii cb (lit "Example.COM") = Some (lit "example.com") ->
  validate cb true canonical_in =
  Ok {| original := canonical_in;
        local_part := lit "User.Name+tag";
        domain := lit "Example.COM";
        normalized := lit "User.Name+tag@example.com";
        ascii_domain := lit "example.com";
        smtputf8 := false |}.
Proof.
  intros cb H.
  rewrite (validate_split cb true canonical_in (lit "User.Name+tag") (lit "Example.COM"))
    by (reflexivity || (apply not_in_of_existsb; reflexivity)).
  rewrite (validate_domain_idna cb (lit "Example.COM") (lit "example.com"))
    by (reflexivity || exact H).
  vm_compute. reflexivity.
Qed.

Lemma canonical_example_witness :
  validate cb_model true canonical_in =
  Ok {| original := canonical_in;
        local_part := lit "User.Name+tag";
        domain := lit "Example.COM";
        normalized := lit "User.Name+tag@example.com";
        ascii_domain := lit "example.com";
        smtputf8 := false |}.
Proof. apply (canonical_example cb_model). vm_compute. reflexivity. Defined.

(** ** C5: where the 253-byte bound applies *)

(** C5 (corrected, counterexample). A domain whose IDNA form is exactly 253
    bytes, and legal (the address built on it validates), is refused with
    [DomainTooLong] because its raw form is 255 bytes. *)
Lemma domain_limit_on_raw_form :
  exists a, domain_to_ascii cb_model shy_domain = Some a /\ len a = 253%nat /\
  validate cb_model true (lit "a" ++ [64] ++ shy_domain) = Err DomainTooLong /\
  is_ok (validate cb_model true (lit "a" ++ [64] ++ a)) = true.
Proof. eexists. split; [vm_compute; reflexivity|]. vm_compute. repeat split. Qed.

(** ** C9: batch validation *)

(** C9 (code_bug). Seventeen copies of [üser@example.com] with
    [allow_smtputf8 = false]: the pipelined path (taken above 16 items) answers
    [true] for each, while [is_valid] answers [false]; sixteen copies take the
    element-wise path and agree with [is_valid]. *)
Theorem batch_ignores_flag_above_16 : forall cb : Collab,
  Tiers.batch_is_valid cb (repeat uuser 17) false = Ok (repeat true 17) /\
  Tiers.is_valid_fast cb uuser false = Ok false /\
  Tiers.batch_is_valid cb (repeat uuser 16) false = Ok (repeat false 16).
Proof. intros cb. vm_compute. repeat split. Qed.

(** ** C7: the SMTPUTF8 flag *)

Lemma forallb_false_exists : forall (f : Z -> bool) l,
  forallb f l = false <-> exists x, In x l /\ f x = false.
Proof.
  intros f. induction l as [|x l IH]; simpl.
  - split; [discriminate | intros [? [[] _]]].
  - rewrite andb_false_iff, IH. split.
    + intros [H | [y [Hy Hf]]]; [exists x | exists y]; auto.
    + intros [y [[<- | Hy] Hf]]; [left | right; exists y]; auto.
Qed.

(** C7. Whenever [validate] succeeds, the address it split is the trimmed input
    cut at its [@], and [smtputf8] is true exactly when the local part has a
    byte of 128 or more; so an ASCII local part gives [false] whatever the
    domain. *)
Theorem smtputf8_iff_non_ascii_local : forall cb allow s r,
  validate cb allow s = Ok r ->
  str_trim s = local_part r ++ 64 :: domain r /\
  (smtputf8 r = true <-> exists b, In b (bytes (local_part r)) /\ 128 <= b).
Proof.
  intros cb allow s r H.
  destruct (validate_ok_inv cb allow s r H) as [l [d [ad [lo [Hs [_ [_ [_ [_ [_ ->]]]]]]]]]].
  simpl. split; [exact Hs|].
  unfold is_ascii. rewrite negb_true_iff, forallb_false_exists.
  split; intros [b [Hb Hf]]; exists b; split; auto.
  - apply Z.ltb_ge. exact Hf.
  - apply Z.ltb_ge. exact Hf.
Qed.

Lemma smtputf8_iff_non_ascii_local_witness :
  validate cb_model true uuser = Ok uuser_validated /\
  (smtputf8 uuser_validated = true <->
   exists b, In b (bytes (local_part uuser_validated)) /\ 128 <= b).
Proof.
  assert (H : validate cb_model true uuser = Ok uuser_validated) by (vm_compute; reflexivity).
  split; [exact H|].
  exact (proj2 (smtputf8_iff_non_ascii_local cb_model true uuser uuser_validated H)).
Defined.

(** ** C8: no panic *)

(** C8. On every well-formed string (every Rust [&str] is one) and for both
    flag values, [validate] returns [Ok] or a typed error: the slices at the
    [@], the indexing of the local part, the bracket stripping and the
    lowercasing never panic. *)
Theorem validate_never_panics : forall cb allow s,
  valid_str s = true -> validate cb allow s <> Panic.
Proof.
  intros cb allow s Hv.
  destruct (validate_cases cb allow s) as [[_ E] | [[_ [_ E]] | [E | [l [d [Hs [Hl [Hd E]]]]]]]];
    rewrite E; try discriminate.
  assert (Hd' : valid_str d = true).
  { pose proof (valid_str_trim s Hv) as Ht. rewrite Hs, valid_str_app in Ht.
    apply andb_prop in Ht as [_ Ht]. simpl in Ht. exact Ht. }
  apply bind_not_panic; [apply validate_local_part_not_panic|]. intros [] _.
  apply bind_not_panic; [apply validate_domain_not_panic|]. intros ad Had.
  rewrite (ascii_to_lower_valid ad (validate_domain_valid cb d ad Hd' Had)).
  discriminate.
Qed.

Lemma validate_never_panics_witness :
  valid_str (lit "user@[IPv6:::1]") = true /\
  validate cb_model false (lit "user@[IPv6:::1]") <> Panic.
Proof.
  assert (H : valid_str (lit "user@[IPv6:::1]") = true) by reflexivity.
  split; [exact H | exact (validate_never_panics cb_model false _ H)].
Defined.

(** ** C10: surrounding whitespace *)

(** C10. When the trimmed form of an input that carries surrounding
    whitespace validates, the input itself validates to the same record, whose
    [original] is the trimmed string and so differs from the argument. *)
Theorem validate_trims_input : forall cb allow s r,
  str_trim s <> s -> validate cb allow (str_trim s) = Ok r ->
  validate cb allow s = Ok r /\ original r = str_trim s /\ original r <> s.
Proof.
  intros cb allow s r Hne H.
  assert (E : validate cb allow s = validate cb allow (str_trim s))
    by (unfold validate; rewrite str_trim_idem; reflexivity).
  rewrite E. split; [exact H|].
  destruct (validate_ok_inv cb allow _ r H) as [l [d [ad [lo [_ [_ [_ [_ [_ [_ ->]]]]]]]]]].
  simpl. rewrite str_trim_idem. split; [reflexivity | exact Hne].
Qed.

Lemma validate_trims_input_witness :
  str_trim padded <> padded /\
  validate cb_model false padded = Ok padded_validated /\
  original padded_validated = str_trim padded /\ original padded_validated <> padded.
Proof.
  assert (H1 : str_trim padded <> padded) by (vm_compute; discriminate).
  assert (H2 : validate cb_model false (str_trim padded) = Ok padded_validated)
    by (vm_compute; reflexivity).
  split; [exact H1 | exact (validate_trims_input cb_model false padded padded_validated H1 H2)].
Defined.

(** ** C4: idempotence of normalization *)

(** C4 (corrected, counterexample). A bracketed IPv6 literal is accepted, but
    its normalized form carries the lowercased tag [ipv6:], which the literal
    parser does not recognise: revalidating it fails. *)
Lemma ipv6_literal_not_idempotent :
  exists r, validate cb_model true (lit "user@[IPv6:::1]") = Ok r /\
    normalized r = lit "user@[ipv6:::1]" /\
    validate cb_model true (normalized r) = Err InvalidDomain.
Proof. eexists. split; [vm_compute; reflexivity|]. split; vm_compute; reflexivity. Qed.

(** C4 (corrected). Let [validate s] succeed on a well-formed [s] with result
    [r]. Suppose the IDNA mapper returns its own lowercased output unchanged,
    NFC is idempotent, the ASCII form of the domain is at most 253 bytes and the
    domain is not an [[IPv6:...]] literal. Suppose also that the local part is
    ASCII, or that its NFC form is itself a valid local part with no [@] and no
    leading whitespace. Then validating [r.normalized] succeeds and returns the
    same normalized string. IPv4 literals are included. *)
Theorem normalized_idempotent : forall cb allow s r,
  valid_str s = true ->
  (forall d0 a0, domain_to_ascii cb d0 = Some a0 ->
     domain_to_ascii cb (map lower_byte a0) = Some (map lower_byte a0)) ->
  (forall x, nfc cb (nfc cb x) = nfc cb x) ->
  (is_ascii (local_part r) = true \/
   (validate_local_part (nfc cb (local_part r)) allow = Ok tt /\
    ~ In 64 (nfc cb (local_part r)) /\
    drop_ws (nfc cb (local_part r)) = nfc cb (local_part r))) ->
  (len (ascii_domain r) <= 253)%nat ->
  (forall x, domain r <> lit "[IPv6:" ++ x) ->
  validate cb allow s = Ok r ->
  exists r', validate cb allow (normalized r) = Ok r' /\ normalized r' = normalized r.
Proof.
  intros cb allow s r Hv Hidna Hnfc Hloc Hlen Hip H.
  destruct (validate_ok_inv cb allow s r H) as [l [d [ad [lo [Hs [Hl [Hd [HL [HD [HA ->]]]]]]]]]].
  cbn [local_part ascii_domain domain normalized] in *.
  assert (Hvd : valid_str d = true).
  { pose proof (valid_str_trim s Hv) as Ht. rewrite Hs, valid_str_app in Ht.
    apply andb_prop in Ht as [_ Ht]. simpl in Ht. exact Ht. }
  pose proof (validate_domain_valid cb d ad Hvd HD) as Had.
  rewrite (ascii_to_lower_valid ad Had) in HA. injection HA as <-.
  assert (Hln : l <> []) by (intros ->; discriminate).
  (* the normalized local part revalidates to itself *)
  set (nl := if is_ascii l then l else nfc cb l).
  assert (NL : validate_local_part nl allow = Ok tt /\ ~ In 64 nl /\ drop_ws nl = nl /\
               nl <> [] /\ (if is_ascii nl then nl else nfc cb nl) = nl).
  { unfold nl. destruct (is_ascii l) eqn:A.
    - rewrite A. repeat split; try assumption.
      apply (drop_ws_prefix l (64 :: d) Hln). rewrite <- Hs. apply drop_ws_trim.
    - destruct Hloc as [C | [V [N64 DW]]]; [congruence|].
      repeat split; try assumption.
      + intros E. rewrite E in V. discriminate.
      + destruct (is_ascii (nfc cb l)); [reflexivity | apply Hnfc]. }
  destruct NL as [N1 [N2 [N3 [N4 N5]]]].
  destruct (starts_with_byte d 91 && ends_with_byte d 93) eqn:B.
  - (* an IPv4 literal: lowercasing leaves it alone *)
    destruct (bracketed_shape d B) as [m ->].
    rewrite validate_domain_bracketed in HD.
    assert (Had' : ad = 91 :: m ++ [93]).
    { destruct (validate_ip_literal_result m) as [E | E]; rewrite E in HD;
        [injection HD as <-; reflexivity | discriminate]. }
    subst ad.
    destruct (ip_literal_ok_cases m _ HD) as [[y ->] | P4].
    { exfalso. apply (Hip (y ++ [93])). reflexivity. }
    assert (Hm : map lower_byte m = m).
    { transitivity (map (fun c => c) m); [|apply map_id].
      apply map_ext_in. intros c Hc. exact (lower_byte_digit_or_dot c (parse_ipv4_chars m P4 c Hc)). }
    assert (Hlo : map lower_byte (91 :: m ++ [93]) = 91 :: m ++ [93])
      by (cbn [map]; rewrite map_app, Hm; reflexivity).
    rewrite Hlo.
    apply (validate_rebuilt cb allow nl _ (91 :: m ++ [93])); try assumption.
    + rewrite validate_domain_bracketed. exact HD.
    + rewrite (ascii_to_lower_valid _ Had), Hlo. reflexivity.
    + cbn [rev]. rewrite rev_app_distr. reflexivity.
  - (* a domain name: its lowercased IDNA form revalidates to itself *)
    pose proof (validate_domain_relower cb d ad Hidna B HD Hlen) as RD.
    pose proof (validate_domain_idna_chars cb d ad B HD) as Ch.
    apply (validate_rebuilt cb allow nl _ (map lower_byte ad)); try assumption.
    + rewrite (ascii_to_lower_valid _ (valid_str_lower ad Had)), map_lower_idem. reflexivity.
    + intros Hin. apply in_map_iff in Hin as [c [Hc Hin]].
      destruct (ldh_not_special c (Ch c Hin)) as [C _]. apply C.
      apply Z.eqb_eq. rewrite <- (lower_byte_fixed c 64) by lia. apply Z.eqb_eq. exact Hc.
    + destruct (rev (map lower_byte ad)) as [|c r] eqn:E.
      * apply (validate_domain_nonempty cb _ _ RD).
        apply (f_equal (@rev Z)) in E. rewrite rev_involutive in E. exact E.
      * assert (Hc : In c (map lower_byte ad)) by (apply in_rev; rewrite E; now left).
        apply in_map_iff in Hc as [c0 [<- Hc0]].
        exact (proj2 (proj2 (ldh_not_special _ (ldh_lower c0 (Ch c0 Hc0))))).
Qed.

Lemma idna_model_stable : forall d0 a0, idna_model d0 = Some a0 ->
  idna_model (map lower_byte a0) = Some (map lower_byte a0).
Proof.
  intros d0 a0 H. unfold idna_model in *.
  destruct (forallb (in_range 0 127) (flat_map idna_map_char d0)) eqn:F; [|discriminate].
  injection H as E0. subst a0. set (a0 := flat_map idna_map_char d0) in *. clearbody a0.
  assert (E : flat_map idna_map_char (map lower_byte a0) = map lower_byte a0).
  { rewrite forallb_forall in F. induction a0 as [|x a IH]; [reflexivity|].
    cbn [map flat_map]. rewrite IH by (intros y Hy; apply F; now right).
    specialize (F x (or_introl eq_refl)). unfold in_range in F.
    apply andb_prop in F as [F1 F2]. apply Z.leb_le in F1, F2.
    unfold idna_map_char, lower_byte, is_ascii_uppercase.
    destruct (in_range 65 90 x) eqn:U.
    - unfold in_range in U. apply andb_prop in U as [U1 U2]. apply Z.leb_le in U1, U2.
      rewrite (proj2 (Z.eqb_neq _ _)), in_range_false by lia. reflexivity.
    - rewrite (proj2 (Z.eqb_neq _ _)), U by lia. reflexivity. }
  rewrite E. replace (forallb (in_range 0 127) (map lower_byte a0)) with true; [reflexivity|].
  symmetry. rewrite forallb_forall in *. intros y Hy.
  apply in_map_iff in Hy as [x [<- Hx]]. specialize (F x Hx).
  unfold in_range in *. apply andb_prop in F as [F1 F2]. apply Z.leb_le in F1, F2.
  unfold lower_byte, is_ascii_uppercase, in_range.
  destruct ((65 <=? x) && (x <=? 90)) eqn:U.
  - apply andb_prop in U as [U1 U2]. apply Z.leb_le in U1, U2.
    apply andb_true_intro. split; apply Z.leb_le; lia.
  - apply andb_true_intro. split; apply Z.leb_le; lia.
Qed.

Lemma normalized_idempotent_witness :
  valid_str canonical_in = true /\
  validate cb_model true canonical_in = Ok canonical_validated /\
  exists r', validate cb_model true (normalized canonical_validated) = Ok r' /\
             normalized r' = normalized canonical_validated.
Proof.
  assert (Hv : valid_str canonical_in = true) by reflexivity.
  assert (H : validate cb_model true canonical_in = Ok canonical_validated)
    by (vm_compute; reflexivity).
  split; [exact Hv | split; [exact H|]].
  apply (normalized_idempotent cb_model true canonical_in canonical_validated Hv).
  - exact idna_model_stable.
  - intros x. reflexivity.
  - left. reflexivity.
  - apply Nat.leb_le. reflexivity.
  - intros x. discriminate.
  - exact H.
Defined.

(** ** C5 (amended) *)

Lemma validate_labels_not_too_long : forall ls, validate_labels ls <> Err DomainTooLong.
Proof.
  induction ls as [|l ls IH]; simpl; [discriminate|].
  unfold validate_domain_label.
  destruct (is_empty l); [discriminate|]. destruct (Nat.ltb 63 (len l)); [discriminate|].
  destruct (_ || _); [discriminate|]. destruct (forallb _ l); [exact IH | discriminate].
Qed.

(** C5 (corrected). [validate_domain] fails with [DomainTooLong] exactly when
    the raw domain, as written, is non-empty, not a bracketed literal and longer
    than 253 bytes; the length of the IDNA result is not checked. *)
Theorem domain_too_long_iff_raw : forall cb d,
  validate_domain cb d = Err DomainTooLong <->
  is_empty d = false /\ starts_with_byte d 91 && ends_with_byte d 93 = false /\
  (253 < len d)%nat.
Proof.
  intros cb d. unfold validate_domain.
  destruct (is_empty d); [split; [discriminate | intros [C _]; discriminate]|].
  destruct (starts_with_byte d 91 && ends_with_byte d 93) eqn:B.
  { split; [|intros [_ [C _]]; discriminate]. intros H.
    destruct (bracketed_shape d B) as [m ->].
    destruct (validate_ip_literal_result m) as [E | E]; rewrite E in H; discriminate. }
  destruct (Nat.ltb_spec 253 (len d)) as [Hl|Hl].
  { split; [intros _; auto | reflexivity]. }
  split; [|intros [_ [_ C]]; lia]. intros H. exfalso.
  destruct (domain_to_ascii cb d); [|discriminate].
  destruct (negb _); [discriminate|]. destruct (forallb _ _); [discriminate|].
  destruct (validate_labels _) eqn:E; simpl in H; try discriminate.
  injection H as ->. exact (validate_labels_not_too_long _ E).
Qed.

(** ** Helper lemmas on the zero-copy scanner *)

Lemma atext_range : forall b, is_atext b = true -> 0 <= b < 128 /\ b <> 46 /\ b <> 64.
Proof.
  intros b H. unfold is_atext, in_range in H. cbn [existsb] in H.
  rewrite !Bool.orb_false_r in H.
  rewrite !Bool.orb_true_iff, !Bool.andb_true_iff, !Z.leb_le, !Z.eqb_eq in H. lia.
Qed.

Lemma domain_char_range : forall b, ZeroCopy.is_domain_char b = true ->
  0 <= b < 128 /\ b <> 46 /\ b <> 64 /\ b <> 91 /\ (b = 45 \/ 48 <= b).
Proof.
  intros b H. unfold ZeroCopy.is_domain_char, in_range in H.
  rewrite !Bool.orb_true_iff, !Bool.andb_true_iff, !Z.leb_le, !Z.eqb_eq in H. lia.
Qed.

Lemma ascii_not_whitespace : forall b, 0 <= b < 128 -> b <> 32 -> ~ (9 <= b <= 13) ->
  is_whitespace b = false.
Proof.
  intros b H1 H2 H3. destruct (is_whitespace b) eqn:W; [exfalso|reflexivity].
  unfold is_whitespace, in_range in W.
  rewrite !Bool.orb_true_iff, !Bool.andb_true_iff, !Z.leb_le, !Z.eqb_eq in W. lia.
Qed.

Lemma atext_not_whitespace : forall b, is_atext b = true -> is_whitespace b = false.
Proof.
  intros b H. pose proof (atext_range b H) as R. apply ascii_not_whitespace; [lia| |].
  - intros ->. discriminate H.
  - intros R2. unfold is_atext, in_range in H. cbn [existsb] in H.
    rewrite !Bool.orb_false_r in H.
    rewrite !Bool.orb_true_iff, !Bool.andb_true_iff, !Z.leb_le, !Z.eqb_eq in H. lia.
Qed.

Lemma domain_char_alnum : forall c, ZeroCopy.is_domain_char c = true ->
  is_ascii_alphanumeric c || (c =? 45) = true.
Proof.
  intros c H. unfold ZeroCopy.is_domain_char, is_ascii_alphanumeric in *.
  destruct (in_range 97 122 c), (in_range 65 90 c), (in_range 48 57 c), (c =? 45);
    auto.
Qed.

Lemma bytes_ascii_id : forall s, (forall c, In c s -> 0 <= c < 128) -> bytes s = s.
Proof.
  induction s as [|c s IH]; intros H; [reflexivity|].
  rewrite bytes_cons, encode_ascii by (apply H; now left).
  rewrite IH by (intros x Hx; apply H; now right). reflexivity.
Qed.

Lemma nth_error_last : forall (l : list Z),
  nth_error l (length l - 1) = match rev l with [] => None | x :: _ => Some x end.
Proof.
  induction l as [|x l _] using rev_ind; [reflexivity|].
  rewrite rev_app_distr, length_app. simpl.
  rewrite Nat.add_sub, nth_error_app2, Nat.sub_diag by lia. reflexivity.
Qed.

Lemma run_app : forall bs1 bs2 st a c,
  ZeroCopy.run st a c (bs1 ++ bs2) =
  match ZeroCopy.run st a c bs1 with
  | Some (st', a', c') => ZeroCopy.run st' a' c' bs2
  | None => None
  end.
Proof.
  induction bs1 as [|b bs1 IH]; intros bs2 st a c; [reflexivity|].
  simpl. destruct (ZeroCopy.step st a c b) as [[[s1 a1] c1]|]; [apply IH | reflexivity].
Qed.

(** The local states over atext and dots, up to the [@]: the walk is the one
    of [local_scan], it ends on a non-dot, and it hands over to [DomainStart]. *)
Lemma run_local_part : forall (allow : bool) (bl rest : list Z) (prev : bool),
  forallb (fun b => is_atext b || (b =? 46)) bl = true ->
  ZeroCopy.run (if prev then ZeroCopy.LocalDot else ZeroCopy.Local) 0 0 (bl ++ 64 :: rest)
    <> None ->
  local_scan allow prev bl = Ok tt /\
  match rev bl with [] => prev = false | b :: _ => b <> 46 end /\
  ZeroCopy.run (if prev then ZeroCopy.LocalDot else ZeroCopy.Local) 0 0 (bl ++ 64 :: rest)
    = ZeroCopy.run ZeroCopy.DomainStart 1 0 rest.
Proof.
  intros allow. induction bl as [|b bl IH]; intros rest prev Hf Hr.
  - destruct prev; [exfalso; apply Hr; reflexivity|]. split; [reflexivity|]. split; reflexivity.
  - simpl in Hf. apply andb_prop in Hf as [Hb Hf].
    apply orb_prop in Hb as [Ha | Hd].
    + pose proof (atext_range b Ha) as [R1 [R2 R3]].
      assert (E46 : (b =? 46) = false) by (apply Z.eqb_neq; exact R2).
      assert (E64 : (b =? 64) = false) by (apply Z.eqb_neq; exact R3).
      assert (Hstep : ZeroCopy.run (if prev then ZeroCopy.LocalDot else ZeroCopy.Local) 0 0
                        ((b :: bl) ++ 64 :: rest)
                      = ZeroCopy.run ZeroCopy.Local 0 0 (bl ++ 64 :: rest)).
      { destruct prev; simpl; unfold ZeroCopy.is_local_char; rewrite E46, E64; simpl;
          [reflexivity | rewrite Ha; reflexivity]. }
      rewrite Hstep in Hr |- *.
      destruct (IH rest false Hf Hr) as [S1 [S2 S3]].
      split; [|split; [|exact S3]].
      * simpl. rewrite E46. unfold is_valid_local_byte. rewrite Ha. simpl. exact S1.
      * simpl. destruct (rev bl) as [|x r]; simpl; [exact R2 | exact S2].
    + apply Z.eqb_eq in Hd. subst b.
      destruct prev; [exfalso; apply Hr; reflexivity|].
      change (ZeroCopy.run ZeroCopy.Local 0 0 ((46 :: bl) ++ 64 :: rest))
        with (ZeroCopy.run ZeroCopy.LocalDot 0 0 (bl ++ 64 :: rest)) in Hr |- *.
      destruct (IH rest true Hf Hr) as [S1 [S2 S3]].
      split; [exact S1 | split; [|exact S3]].
      simpl. destruct (rev bl) as [|x r]; [discriminate S2 | exact S2].
Qed.

Lemma split_on_cons_label : forall b bd, b <> 46 ->
  exists l ls, split_on 46 (b :: bd) = (b :: l) :: ls /\ tl (split_on 46 bd) = ls.
Proof.
  intros b bd H. simpl. rewrite (proj2 (Z.eqb_neq b 46) H).
  destruct (split_on 46 bd) as [|l ls]; [exists [], [] | exists l, ls]; split; reflexivity.
Qed.

(** The domain states: every label the scanner has opened is non-empty and
    does not start with a hyphen. *)
Lemma run_domain_labels : forall bd st k k',
  ZeroCopy.run st 1 k bd = Some (ZeroCopy.Domain, 1%nat, k') ->
  match st with
  | ZeroCopy.DomainStart | ZeroCopy.DomainDot =>
    forall lab, In lab (split_on 46 bd) -> lab <> [] /\ hd 0 lab <> 45
  | ZeroCopy.Domain =>
    forall lab, In lab (tl (split_on 46 bd)) -> lab <> [] /\ hd 0 lab <> 45
  | _ => True
  end.
Proof.
  induction bd as [|b bd IH]; intros st k k' H.
  - simpl in H. injection H as -> _. intros lab [].
  - assert (Start : forall k1,
      ZeroCopy.run ZeroCopy.Domain 1 k1 bd = Some (ZeroCopy.Domain, 1%nat, k') ->
      b <> 46 -> b <> 45 ->
      forall lab, In lab (split_on 46 (b :: bd)) -> lab <> [] /\ hd 0 lab <> 45).
    { intros k1 H1 N1 N2 lab Hlab.
      pose proof (IH _ _ _ H1) as IH1. simpl in IH1.
      destruct (split_on_cons_label b bd N1) as [l [ls [E1 E2]]].
      rewrite E1 in Hlab. destruct Hlab as [<- | Hlab].
      - split; [discriminate | exact N2].
      - apply IH1. rewrite E2. exact Hlab. }
    destruct st; try exact I; simpl in H.
    + destruct (Z.eqb_spec b 46); [discriminate|]. destruct (Z.eqb_spec b 45); [discriminate|].
      destruct (Z.eqb_spec b 64); [discriminate|]. simpl in H. eapply Start; eauto.
    + destruct (Z.eqb_spec b 64); [discriminate|].
      destruct (Z.eqb_spec b 46) as [->|N46].
      * pose proof (IH _ _ _ H) as IH1. simpl in IH1. simpl. exact IH1.
      * destruct (ZeroCopy.is_domain_char b); [|discriminate].
        pose proof (IH _ _ _ H) as IH1. simpl in IH1.
        destruct (split_on_cons_label b bd N46) as [l [ls [E1 E2]]].
        rewrite E1. simpl. rewrite <- E2. exact IH1.
    + destruct (Z.eqb_spec b 46); [discriminate|]. destruct (Z.eqb_spec b 45); [discriminate|].
      destruct (Z.eqb_spec b 64); [discriminate|]. simpl in H. eapply Start; eauto.
Qed.

Lemma step_dot_count : forall st a c b st' a' c',
  ZeroCopy.step st a c b = Some (st', a', c') ->
  c' = c \/ c' = 0%nat \/ (c' = S c /\ b = 46).
Proof.
  intros st a c b st' a' c' H.
  destruct st; simpl in H;
    repeat (match type of H with context [if ?x then _ else _] => destruct x eqn:? end);
    try discriminate; injection H as <- <- <-;
    destruct (Z.eqb_spec b 46); subst; simpl; lia.
Qed.

Lemma run_dot_count : forall bs st a c st' a' c',
  ZeroCopy.run st a c bs = Some (st', a', c') -> (c < c')%nat -> In 46 bs.
Proof.
  induction bs as [|b bs IH]; intros st a c st' a' c' H Hlt.
  - simpl in H. injection H as _ _ ->. lia.
  - simpl in H. destruct (ZeroCopy.step st a c b) as [[[s1 a1] c1]|] eqn:E; [|discriminate].
    destruct (step_dot_count _ _ _ _ _ _ _ E) as [-> | [-> | [-> ->]]]; [| |now left];
      right; refine (IH _ _ _ _ _ _ H _); lia.
Qed.

Lemma split_on_chars : forall d lab c, In lab (split_on 46 d) -> In c lab -> In c d /\ c <> 46.
Proof.
  induction d as [|x d IH]; intros lab c Hlab Hc.
  - destruct Hlab as [<- | []]. destruct Hc.
  - simpl in Hlab. destruct (Z.eqb_spec x 46) as [->|N].
    + destruct Hlab as [<- | Hlab]; [destruct Hc|].
      destruct (IH _ _ Hlab Hc). split; [now right | assumption].
    + destruct (split_on 46 d) as [|l ls] eqn:E.
      * destruct Hlab as [<- | []]. destruct Hc as [<- | []]. split; [now left | exact N].
      * destruct Hlab as [<- | Hlab].
        -- destruct Hc as [<- | Hc]; [split; [now left | exact N]|].
           destruct (IH l c (or_introl eq_refl) Hc). split; [now right | assumption].
        -- destruct (IH lab c (or_intror Hlab) Hc). split; [now right | assumption].
Qed.

Lemma validate_labels_of_all : forall ls,
  (forall lab, In lab ls -> validate_domain_label lab = Ok tt) -> validate_labels ls = Ok tt.
Proof.
  induction ls as [|l ls IH]; intros H; [reflexivity|]. simpl.
  rewrite (H l (or_introl eq_refl)). simpl. apply IH. intros lab Hl. apply H. now right.
Qed.

Lemma existsb_high_ascii : forall s, (forall c, In c s -> 0 <= c < 128) ->
  existsb (fun b => 128 <=? b) s = false.
Proof.
  induction s as [|c s IH]; intros H; [reflexivity|]. simpl.
  rewrite (proj2 (Z.leb_gt 128 c)) by (specialize (H c (or_introl eq_refl)); lia).
  apply IH. intros x Hx. apply H. now right.
Qed.

Lemma valid_str_ascii : forall s, (forall c, In c s -> 0 <= c < 128) -> valid_str s = true.
Proof.
  intros s H. unfold valid_str. apply forallb_forall. intros c Hc.
  specialize (H c Hc). unfold valid_scalar.
  rewrite (proj2 (Z.leb_le 0 c)), (proj2 (Z.leb_le c 0x10FFFF)), (proj2 (Z.leb_gt 0xD800 c))
    by lia. reflexivity.
Qed.

(** ** C2: the zero-copy scanner against [validate] *)

(** C2 (corrected, counterexample). The scanner accepts a 65-byte local part,
    which [validate] refuses with [LocalPartTooLong] under any IDNA mapper and
    either flag. *)
Lemma no_alloc_accepts_long_local :
  ZeroCopy.validate_no_alloc long_local = true /\
  (forall cb allow, validate cb allow long_local = Err LocalPartTooLong).
Proof.
  split; [vm_compute; reflexivity|]. intros cb allow.
  rewrite (validate_split cb allow long_local (repeat 97 65) (lit "b.com"))
    by (reflexivity || (apply not_in_of_existsb; reflexivity)).
  assert (E : validate_local_part (repeat 97 65) allow = Err LocalPartTooLong)
    by (destruct allow; vm_compute; reflexivity).
  rewrite E. reflexivity.
Qed.

(** C2 (corrected). Let [s = l ++ "@" ++ d], where every byte of [l] is atext or
    a dot, every byte of [d] is an ASCII letter, digit, hyphen or dot, [l] has
    at most 64 bytes, every label of [d] has at most 63 bytes and does not end
    with a hyphen, not every label of [d] is all digits, and the IDNA mapper
    sends [d] to its ASCII-lowercase form.  If [validate_no_alloc s] is true,
    then [validate s] returns [Ok] for either value of the flag. *)
Theorem no_alloc_sound_on_checked_bytes : forall cb allow l d,
  forallb (fun b => is_atext b || (b =? 46)) l = true ->
  forallb (fun b => ZeroCopy.is_domain_char b || (b =? 46)) d = true ->
  (len l <= 64)%nat ->
  forallb (fun lab => Nat.leb (len lab) 63 && negb (ends_with_byte lab 45))
    (split_on 46 d) = true ->
  forallb (fun lab => forallb is_ascii_digit lab) (split_on 46 d) = false ->
  domain_to_ascii cb d = Some (map lower_byte d) ->
  ZeroCopy.validate_no_alloc (l ++ 64 :: d) = true ->
  exists r, validate cb allow (l ++ 64 :: d) = Ok r.
Proof.
  intros cb allow l d Hl Hd Hlen Hlab Hnum Hidna Hz.
  assert (Lc : forall c, In c l -> 0 <= c < 128 /\ c <> 64).
  { intros c Hc. pose proof (proj1 (forallb_forall _ l) Hl c Hc) as Hb.
    apply orb_prop in Hb as [Ha | Hdot].
    - pose proof (atext_range c Ha). lia.
    - apply Z.eqb_eq in Hdot. lia. }
  assert (Dc : forall c, In c d -> 0 <= c < 128 /\ c <> 64 /\ c <> 91 /\
                                    is_whitespace c = false).
  { intros c Hc. pose proof (proj1 (forallb_forall _ d) Hd c Hc) as Hb.
    apply orb_prop in Hb as [Ha | Hdot].
    - pose proof (domain_char_range c Ha) as R.
      repeat split; try lia. apply ascii_not_whitespace; lia.
    - apply Z.eqb_eq in Hdot. subst c. repeat split; try lia. }
  assert (Hbytes : bytes (l ++ 64 :: d) = l ++ 64 :: d).
  { apply bytes_ascii_id. intros c Hc. apply in_app_iff in Hc as [Hc | [<- | Hc]].
    - apply Lc, Hc.
    - lia.
    - apply Dc, Hc. }
  destruct l as [|b l'].
  { cbn [app] in Hz. rewrite validate_no_alloc_leading_at in Hz. discriminate. }
  simpl in Hl. apply andb_prop in Hl as [Hb Hl'].
  unfold ZeroCopy.validate_no_alloc in Hz. rewrite Hbytes in Hz.
  destruct (negb _) eqn:Hlen2; [discriminate|].
  apply negb_false_iff, andb_prop in Hlen2 as [_ Hlen2]. apply Nat.leb_le in Hlen2.
  apply orb_prop in Hb as [Ha | Hdot]; cycle 1.
  { apply Z.eqb_eq in Hdot. subst b. discriminate Hz. }
  pose proof (atext_range b Ha) as [R1 [R2 R3]].
  assert (E46 : (b =? 46) = false) by (apply Z.eqb_neq; exact R2).
  assert (E64 : (b =? 64) = false) by (apply Z.eqb_neq; exact R3).
  assert (Hs1 : ZeroCopy.run ZeroCopy.LocalStart 0 0 ((b :: l') ++ 64 :: d) =
                ZeroCopy.run ZeroCopy.Local 0 0 (l' ++ 64 :: d))
    by (simpl; rewrite E46, E64; reflexivity).
  rewrite Hs1 in Hz.
  assert (Hr : ZeroCopy.run ZeroCopy.Local 0 0 (l' ++ 64 :: d) <> None)
    by (intros E; rewrite E in Hz; discriminate).
  destruct (run_local_part allow l' d false Hl' Hr) as [S1 [S2 S3]].
  rewrite S3 in Hz.
  destruct (ZeroCopy.run ZeroCopy.DomainStart 1 0 d) as [[[st a] k]|] eqn:Er;
    [|discriminate].
  destruct st; try discriminate. destruct a as [|[|a]]; try discriminate.
  apply Nat.leb_le in Hz.
  pose proof (run_domain_labels d ZeroCopy.DomainStart 0 k Er) as Hlabs. simpl in Hlabs.
  assert (Hdot : In 46 d) by (refine (run_dot_count d _ _ _ _ _ _ Er _); lia).
  assert (Hdne : d <> []) by (intros ->; destruct Hdot).
  assert (Htrim : str_trim ((b :: l') ++ 64 :: d) = (b :: l') ++ 64 :: d).
  { apply str_trim_rebuilt; [discriminate | |].
    - apply drop_ws_fixed. apply atext_not_whitespace, Ha.
    - destruct (rev d) as [|c r] eqn:Ed.
      + apply Hdne. rewrite <- (rev_involutive d), Ed. reflexivity.
      + apply Dc. apply in_rev. rewrite Ed. now left. }
  rewrite (validate_split cb allow _ (b :: l') d Htrim);
    [| intros H; apply Lc in H; lia | intros H; apply Dc in H; lia].
  assert (HL : validate_local_part (b :: l') allow = Ok tt).
  { unfold validate_local_part.
    assert (Ne : is_empty (b :: l') = false).
    { unfold is_empty. apply Nat.eqb_neq. intros H. apply len_zero in H. discriminate. }
    rewrite Ne, (proj2 (Nat.ltb_ge 64 _) Hlen).
    rewrite (bytes_ascii_id (b :: l')) by (intros c Hc; apply Lc, Hc).
    rewrite nth_error_last. cbn [nth_error unwrap bind]. rewrite E46.
    cbn [rev]. destruct (rev l') as [|x r] eqn:Er'.
    - cbn [app unwrap bind]. rewrite E46.
      cbn [local_scan]. rewrite E46. unfold is_valid_local_byte. rewrite Ha.
      cbn [orb negb]. rewrite S1. cbn [bind].
      rewrite existsb_high_ascii by (intros c Hc; apply Lc, Hc).
      destruct allow; reflexivity.
    - cbn [app unwrap bind]. rewrite (proj2 (Z.eqb_neq x 46) S2).
      cbn [local_scan]. rewrite E46. unfold is_valid_local_byte. rewrite Ha.
      cbn [orb negb]. rewrite S1. cbn [bind].
      rewrite existsb_high_ascii by (intros c Hc; apply Lc, Hc).
      destruct allow; reflexivity. }
  assert (Dlen : (len d <= 253)%nat).
  { unfold len. rewrite (bytes_ascii_id d) by (intros c Hc; apply Dc, Hc).
    rewrite length_app in Hlen2. simpl in Hlen2. lia. }
  assert (HD : validate_domain cb d = Ok (map lower_byte d)).
  { rewrite (validate_domain_idna cb d (map lower_byte d)).
    2: { unfold is_empty. apply Nat.eqb_neq. intros H. apply len_zero in H. contradiction. }
    2: { unfold starts_with_byte. rewrite (bytes_ascii_id d) by (intros c Hc; apply Dc, Hc).
         destruct d as [|c d']; [contradiction|].
         rewrite (proj2 (Z.eqb_neq c 91)) by (apply Dc; now left). reflexivity. }
    2: { apply Nat.ltb_ge. exact Dlen. }
    2: { exact Hidna. }
    rewrite existsb_dot_lower.
    rewrite (proj2 (existsb_exists _ d)) by (exists 46; split; [exact Hdot | reflexivity]).
    cbn [negb]. rewrite split_on_lower, numeric_lower, Hnum, validate_labels_lower.
    rewrite validate_labels_of_all; [reflexivity|].
    intros lab Hin.
    destruct (Hlabs lab Hin) as [Lne Lhd].
    pose proof (proj1 (forallb_forall _ _) Hlab lab Hin) as Hl2.
    apply andb_prop in Hl2 as [Hl63 Hend]. apply negb_true_iff in Hend.
    assert (Lch : forall c, In c lab -> In c d /\ c <> 46)
      by (intros c Hc; exact (split_on_chars d lab c Hin Hc)).
    unfold validate_domain_label.
    assert (Ne : is_empty lab = false).
    { unfold is_empty. apply Nat.eqb_neq. intros H. apply len_zero in H. contradiction. }
    rewrite Ne. apply Nat.leb_le, Nat.ltb_ge in Hl63. rewrite Hl63, Hend.
    assert (St : starts_with_byte lab 45 = false).
    { unfold starts_with_byte.
      rewrite (bytes_ascii_id lab) by (intros c Hc; apply Dc, Lch, Hc).
      destruct lab as [|x lab']; [contradiction|]. simpl in Lhd.
      apply Z.eqb_neq, Lhd. }
    rewrite St. cbn [orb].
    replace (forallb _ lab) with true; [reflexivity|]. symmetry.
    apply forallb_forall. intros c Hc. destruct (Lch c Hc) as [Hcd Hc46].
    pose proof (proj1 (forallb_forall _ d) Hd c Hcd) as Hcc.
    apply orb_prop in Hcc as [Hcc | Hcc].
    - apply domain_char_alnum, Hcc.
    - apply Z.eqb_eq in Hcc. contradiction. }
  assert (HA : ascii_to_lower (map lower_byte d) = Ok (map lower_byte (map lower_byte d))).
  { apply ascii_to_lower_valid, valid_str_lower, valid_str_ascii.
    intros c Hc. apply Dc, Hc. }
  rewrite HL. cbn [bind]. rewrite HD. cbn [bind]. rewrite HA. eexists. reflexivity.
Qed.

Lemma no_alloc_sound_on_checked_bytes_witness :
  exists r, validate cb_model true (simple_email_local ++ 64 :: simple_email_domain) = Ok r.
Proof.
  apply (no_alloc_sound_on_checked_bytes cb_model true simple_email_local simple_email_domain);
    first [apply Nat.leb_le; vm_compute; reflexivity | vm_compute; reflexivity].
Defined.

(** * Properties of the other functions of the crates *)

Lemma byte_bits_high : forall a n, 0 <= a < 256 -> 8 <= n -> Z.testbit a n = false.
Proof.
  intros a n Ha Hn. rewrite Z.testbit_eqb by lia.
  assert (256 <= 2 ^ n).
  { change 256 with (2 ^ 8). apply Z.pow_le_mono_r; lia. }
  rewrite Z.div_small by lia. reflexivity.
Qed.

Lemma testbit_byte_split : forall a x n, 0 <= a < 256 -> 0 <= n ->
  Z.testbit (a + 256 * x) n = if n <? 8 then Z.testbit a n else Z.testbit x (n - 8).
Proof.
  intros a x n Ha Hn. destruct (Z.ltb_spec n 8).
  - rewrite <- (Z.mod_pow2_bits_low (a + 256 * x) 8 n) by lia.
    f_equal. change (2 ^ 8) with 256. zlia.
  - replace n with ((n - 8) + 8) at 1 by lia.
    rewrite <- Z.shiftr_spec by lia. f_equal.
    rewrite Z.shiftr_div_pow2 by lia. change (2 ^ 8) with 256. zlia.
Qed.

Lemma byte_of_bits : forall z, 0 <= z -> (forall n, 8 <= n -> Z.testbit z n = false) ->
  0 <= z < 256.
Proof.
  intros z Hz H. split; [lia|].
  destruct (Z.ltb_spec z 256) as [|Hge]; [lia|].
  assert (Hl : 8 <= Z.log2 z).
  { change 8 with (Z.log2 256). apply Z.log2_le_mono; lia. }
  specialize (H (Z.log2 z) Hl). rewrite Z.bit_log2 in H by lia. discriminate.
Qed.

Lemma land_byte : forall a c, 0 <= a < 256 -> 0 <= c < 256 -> 0 <= Z.land a c < 256.
Proof.
  intros. apply byte_of_bits; [apply Z.land_nonneg; lia|].
  intros n Hn. rewrite Z.land_spec, byte_bits_high by lia. reflexivity.
Qed.

Lemma lxor_byte : forall a c, 0 <= a < 256 -> 0 <= c < 256 -> 0 <= Z.lxor a c < 256.
Proof.
  intros. apply byte_of_bits; [apply Z.lxor_nonneg; lia|].
  intros n Hn. rewrite Z.lxor_spec, !byte_bits_high by lia. reflexivity.
Qed.

Lemma land_byte_split : forall a x c y, 0 <= a < 256 -> 0 <= c < 256 ->
  Z.land (a + 256 * x) (c + 256 * y) = Z.land a c + 256 * Z.land x y.
Proof.
  intros a x c y Ha Hc. apply Z.bits_inj'. intros n Hn.
  pose proof (land_byte a c Ha Hc).
  rewrite Z.land_spec, !testbit_byte_split by lia.
  destruct (n <? 8); [rewrite Z.land_spec|rewrite Z.land_spec]; reflexivity.
Qed.

Lemma lxor_byte_split : forall a x c y, 0 <= a < 256 -> 0 <= c < 256 ->
  Z.lxor (a + 256 * x) (c + 256 * y) = Z.lxor a c + 256 * Z.lxor x y.
Proof.
  intros a x c y Ha Hc. apply Z.bits_inj'. intros n Hn.
  pose proof (lxor_byte a c Ha Hc).
  rewrite Z.lxor_spec, !testbit_byte_split by lia.
  destruct (n <? 8); rewrite Z.lxor_spec; reflexivity.
Qed.

Lemma sub_byte_split : forall a y K bw M, 0 <= a < 256 -> 0 <= bw <= 1 -> 0 < M ->
  (a + 256 * y - (1 + 256 * K) - bw) mod (256 * M)
  = (a - 1 - bw) mod 256 + 256 * ((y - K - (if a - 1 - bw <? 0 then 1 else 0)) mod M).
Proof.
  intros a y K bw M Ha Hb HM.
  set (br := if a - 1 - bw <? 0 then 1 else 0).
  assert (Hq : a - 1 - bw = 256 * (- br) + (a - 1 - bw + 256 * br)).
  { lia. }
  assert (Hr : 0 <= a - 1 - bw + 256 * br < 256).
  { unfold br. destruct (Z.ltb_spec (a - 1 - bw) 0); lia. }
  assert (E0 : (a - 1 - bw) mod 256 = a - 1 - bw + 256 * br).
  { symmetry. apply (Z.mod_unique _ _ (- br)); [left; lia | lia]. }
  rewrite E0.
  pose proof (Z.mod_pos_bound (y - K - br) M HM) as Hb2.
  pose proof (Z.div_mod (y - K - br) M ltac:(lia)) as Hd.
  symmetry. apply (Z.mod_unique _ _ ((y - K - br) / M)).
  - left. nia.
  - nia.
Qed.

Lemma all_bytes_cons : forall a r, all_bytes (a :: r) -> 0 <= a < 256 /\ all_bytes r.
Proof. unfold all_bytes; simpl; intros a r H; split; auto. Qed.

Lemma pow_8_S : forall m : nat, 2 ^ (8 * Z.of_nat (S m)) = 256 * 2 ^ (8 * Z.of_nat m).
Proof.
  intros m. rewrite Nat2Z.inj_succ, Z.mul_succ_r, Z.pow_add_r by lia. lia.
Qed.

Lemma pow_8_pos : forall m : nat, 0 < 2 ^ (8 * Z.of_nat m).
Proof. intros. apply Z.pow_pos_nonneg; lia. Qed.

Lemma le_u64_repeat_S : forall v m, Simd.le_u64 (repeat v (S m)) = v + 256 * Simd.le_u64 (repeat v m).
Proof. reflexivity. Qed.

Lemma swar_expr_bytes : forall bs bw, all_bytes bs -> 0 <= bw <= 1 ->
  let n := length bs in
  Z.land (Z.land ((Simd.le_u64 bs - Simd.le_u64 (repeat 1 n) - bw) mod 2 ^ (8 * Z.of_nat n))
                 (Z.lxor (Simd.le_u64 bs) (2 ^ (8 * Z.of_nat n) - 1)))
         (Simd.le_u64 (repeat 128 n))
  = swar_bytes bs bw.
Proof.
  induction bs as [|a r IH]; intros bw Hb Hbw n; subst n.
  - cbn [length Simd.le_u64 repeat swar_bytes]. rewrite Z.mul_0_r, Z.pow_0_r, Z.mod_1_r.
    reflexivity.
  - apply all_bytes_cons in Hb as [Ha Hr].
    cbn [length]. rewrite pow_8_S, !le_u64_repeat_S. cbn [Simd.le_u64 swar_bytes].
    pose proof (pow_8_pos (length r)) as HM.
    set (M := 2 ^ (8 * Z.of_nat (length r))) in *.
    rewrite sub_byte_split by lia.
    replace (256 * M - 1) with (255 + 256 * (M - 1)) by lia.
    rewrite lxor_byte_split by lia.
    assert (H1 : 0 <= (a - 1 - bw) mod 256 < 256) by (apply Z.mod_pos_bound; lia).
    pose proof (lxor_byte a 255 Ha ltac:(lia)) as H2.
    rewrite land_byte_split by lia.
    pose proof (land_byte _ _ H1 H2) as H3.
    rewrite land_byte_split by lia.
    f_equal. f_equal. apply IH; [exact Hr|].
    destruct (_ <? 0); lia.
Qed.

Lemma byte_term_nonzero_free : forall a, 1 <= a < 256 ->
  Z.land (Z.land ((a - 1 - 0) mod 256) (Z.lxor a 255)) 128 = 0.
Proof.
  intros a Ha.
  assert (H : forallb (fun a => Z.land (Z.land ((a - 1 - 0) mod 256) (Z.lxor a 255)) 128 =? 0)
                (map Z.of_nat (seq 1 255)) = true) by (vm_compute; reflexivity).
  rewrite forallb_forall in H. apply Z.eqb_eq, H, in_map_iff.
  exists (Z.to_nat a). split; [lia | apply in_seq; lia].
Qed.

Lemma byte_term_zero : forall bw, 0 <= bw <= 1 ->
  Z.land (Z.land ((0 - 1 - bw) mod 256) (Z.lxor 0 255)) 128 = 128.
Proof. intros bw Hbw. assert (bw = 0 \/ bw = 1) as [-> | ->] by lia; reflexivity. Qed.

Lemma swar_bytes_nonneg : forall bs bw, 0 <= swar_bytes bs bw.
Proof.
  induction bs as [|a r IH]; intros bw; cbn [swar_bytes]; [lia|].
  specialize (IH (if a - 1 - bw <? 0 then 1 else 0)).
  assert (0 <= Z.land (Z.land ((a - 1 - bw) mod 256) (Z.lxor a 255)) 128).
  { apply Z.land_nonneg; lia. }
  lia.
Qed.

Lemma swar_bytes_in_zero : forall bs bw, all_bytes bs -> 0 <= bw <= 1 -> In 0 bs ->
  swar_bytes bs bw <> 0.
Proof.
  induction bs as [|a r IH]; intros bw Hb Hbw Hin; [destruct Hin|].
  apply all_bytes_cons in Hb as [Ha Hr]. cbn [swar_bytes].
  pose proof (swar_bytes_nonneg r (if a - 1 - bw <? 0 then 1 else 0)).
  assert (0 <= Z.land (Z.land ((a - 1 - bw) mod 256) (Z.lxor a 255)) 128)
    by (apply Z.land_nonneg; lia).
  destruct Hin as [-> | Hin].
  - rewrite byte_term_zero by lia. lia.
  - assert (swar_bytes r (if a - 1 - bw <? 0 then 1 else 0) <> 0).
    { apply IH; auto. destruct (_ <? 0); lia. }
    lia.
Qed.

Lemma swar_bytes_no_zero : forall bs, all_bytes bs -> ~ In 0 bs -> swar_bytes bs 0 = 0.
Proof.
  induction bs as [|a r IH]; intros Hb Hin; [reflexivity|].
  apply all_bytes_cons in Hb as [Ha Hr]. cbn [swar_bytes].
  assert (a <> 0) by (intro; apply Hin; left; auto).
  rewrite byte_term_nonzero_free by lia.
  replace (a - 1 - 0 <? 0) with false by (symmetry; apply Z.ltb_ge; lia).
  rewrite IH; auto. intro; apply Hin; right; auto.
Qed.

Lemma le_u64_lxor : forall bs v, all_bytes bs -> 0 <= v < 256 ->
  Z.lxor (Simd.le_u64 bs) (Simd.le_u64 (repeat v (length bs)))
  = Simd.le_u64 (map (fun b => Z.lxor b v) bs).
Proof.
  induction bs as [|a r IH]; intros v Hb Hv; [reflexivity|].
  apply all_bytes_cons in Hb as [Ha Hr].
  cbn [length map]. rewrite le_u64_repeat_S. cbn [Simd.le_u64].
  rewrite lxor_byte_split by lia. rewrite IH; auto.
Qed.

Lemma all_bytes_lxor : forall bs v, all_bytes bs -> 0 <= v < 256 ->
  all_bytes (map (fun b => Z.lxor b v) bs).
Proof.
  intros bs v Hb Hv b Hin. apply in_map_iff in Hin as [x [<- Hx]].
  apply lxor_byte; auto.
Qed.

Lemma in_zero_lxor : forall bs v, In 0 (map (fun b => Z.lxor b v) bs) <-> In v bs.
Proof.
  intros bs v. rewrite in_map_iff. split.
  - intros [x [Hx Hin]]. assert (x = v) by (apply Z.lxor_eq_0_iff; exact Hx). subst x. exact Hin.
  - intros Hin. exists v. rewrite Z.lxor_nilpotent. auto.
Qed.

Lemma has_at_exact : forall c, all_bytes c -> length c = 8%nat ->
  Simd.has_at (Simd.le_u64 c) = existsb (Z.eqb 64) c.
Proof.
  intros c Hb Hl. unfold Simd.has_at.
  change 0x4040404040404040 with (Simd.le_u64 (repeat 64 8)).
  set (x := map (fun b => Z.lxor b 64) c).
  assert (Ex : Z.lxor (Simd.le_u64 c) (Simd.le_u64 (repeat 64 8)) = Simd.le_u64 x).
  { rewrite <- Hl. apply le_u64_lxor; auto; lia. }
  rewrite Ex.
  assert (Hx : all_bytes x) by (apply all_bytes_lxor; auto; lia).
  assert (Hlx : length x = 8%nat) by (unfold x; rewrite length_map; auto).
  change 0x0101010101010101 with (Simd.le_u64 (repeat 1 8) + 0).
  change 0x8080808080808080 with (Simd.le_u64 (repeat 128 8)).
  change Simd.two64 with (2 ^ (8 * Z.of_nat 8)).
  rewrite <- Hlx. rewrite Z.sub_add_distr.
  rewrite (swar_expr_bytes x 0 Hx ltac:(lia)).
  destruct (existsb (Z.eqb 64) c) eqn:E.
  - apply existsb_exists in E as [y [Hy Hy']]. apply Z.eqb_eq in Hy'. subst y.
    assert (In 0 x) by (apply in_zero_lxor; auto).
    pose proof (swar_bytes_in_zero x 0 Hx ltac:(lia) H).
    destruct (Z.eqb_spec (swar_bytes x 0) 0); [contradiction | reflexivity].
  - apply not_in_of_existsb in E.
    rewrite swar_bytes_no_zero; auto.
    intro Hin0. apply E. apply (proj1 (in_zero_lxor c 64)). exact Hin0.
Qed.

Lemma encode_char_bytes : forall c, valid_scalar c = true -> all_bytes (encode_char c).
Proof.
  intros c Hc b Hb. unfold valid_scalar in Hc.
  rewrite !Bool.andb_true_iff, Bool.negb_true_iff, !Z.leb_le in Hc. destruct Hc as [[H0 H1] _].
  unfold encode_char in Hb.
  destruct (Z.ltb_spec c 0x80); [destruct Hb as [<-|[]]; lia|].
  destruct (Z.ltb_spec c 0x800);
    [destruct Hb as [<-|[<-|[]]]; zlia|].
  destruct (Z.ltb_spec c 0x10000);
    [destruct Hb as [<-|[<-|[<-|[]]]]; zlia|].
  destruct Hb as [<-|[<-|[<-|[<-|[]]]]]; zlia.
Qed.

Lemma bytes_all_bytes : forall s, valid_str s = true -> all_bytes (bytes s).
Proof.
  intros s Hs b Hb. unfold bytes in Hb. apply in_flat_map in Hb as [c [Hc Hb]].
  unfold valid_str in Hs. rewrite forallb_forall in Hs.
  exact (encode_char_bytes c (Hs c Hc) b Hb).
Qed.

Lemma all_bytes_firstn : forall n l, all_bytes l -> all_bytes (firstn n l).
Proof.
  intros n l H b Hb. apply H. rewrite <- (firstn_skipn n l). apply in_or_app. left; exact Hb.
Qed.

Lemma all_bytes_skipn : forall n l, all_bytes l -> all_bytes (skipn n l).
Proof.
  intros n l H b Hb. apply H. rewrite <- (firstn_skipn n l). apply in_or_app. right; exact Hb.
Qed.

Lemma firstn_add : forall {A} n m (l : list A),
  firstn (n + m) l = firstn n l ++ firstn m (skipn n l).
Proof.
  induction n as [|n IH]; intros m l; [reflexivity|].
  destruct l as [|a l]; [destruct m; reflexivity|]. cbn. f_equal. apply IH.
Qed.

Lemma position_app : forall p l1 l2, Simd.position p (l1 ++ l2) =
  match Simd.position p l1 with
  | Some j => Some j
  | None => option_map (fun k => length l1 + k)%nat (Simd.position p l2)
  end.
Proof.
  intros p l1 l2. induction l1 as [|a l1 IH]; cbn.
  - destruct (Simd.position p l2); reflexivity.
  - destruct (p a); [reflexivity|]. rewrite IH.
    destruct (Simd.position p l1); [reflexivity|].
    destruct (Simd.position p l2); reflexivity.
Qed.

Lemma position_none_iff : forall p l, Simd.position p l = None <-> existsb p l = false.
Proof.
  intros p l. induction l as [|a l IH]; cbn; [tauto|].
  destruct (p a); cbn; [split; discriminate|].
  destruct (Simd.position p l); cbn; rewrite <- IH; split; congruence.
Qed.

Lemma length_firstn_8 : forall i (bs : list Z), (i + 8 <= length bs)%nat ->
  length (firstn 8 (skipn i bs)) = 8%nat.
Proof. intros. rewrite length_firstn, length_skipn. lia. Qed.

Lemma skipn_chunk : forall i (bs : list Z),
  skipn i bs = firstn 8 (skipn i bs) ++ skipn (i + 8) bs.
Proof.
  intros. rewrite <- (firstn_skipn 8 (skipn i bs)) at 1. f_equal.
  rewrite skipn_skipn. f_equal. lia.
Qed.

Lemma find_at_loop_position : forall fuel i bs, all_bytes bs ->
  (length bs <= i + 8 * fuel)%nat ->
  Simd.find_at_loop fuel i bs
  = option_map (fun p => i + p)%nat (Simd.position (Z.eqb 64) (skipn i bs)).
Proof.
  induction fuel as [|f IH]; intros i bs Hb Hl; cbn [Simd.find_at_loop].
  - rewrite skipn_all2 by lia. reflexivity.
  - destruct (Nat.leb_spec (i + 8) (length bs)) as [Hi|Hi]; [|reflexivity].
    pose proof (length_firstn_8 i bs Hi) as H8.
    assert (Hc : all_bytes (firstn 8 (skipn i bs)))
      by (apply all_bytes_firstn, all_bytes_skipn, Hb).
    rewrite has_at_exact by auto.
    pose proof (skipn_chunk i bs) as Es.
    set (ch := firstn 8 (skipn i bs)) in *. rewrite Es, position_app, H8.
    destruct (existsb (Z.eqb 64) ch) eqn:E.
    + destruct (Simd.position (Z.eqb 64) ch) eqn:P.
      * reflexivity.
      * apply position_none_iff in P. congruence.
    + apply position_none_iff in E. rewrite E.
      rewrite IH by (auto; lia).
      destruct (Simd.position (Z.eqb 64) (skipn (i + 8) bs)); cbn; [f_equal; lia | reflexivity].
Qed.

Lemma count_in_app : forall l1 l2, Simd.count_in (l1 ++ l2) = (Simd.count_in l1 + Simd.count_in l2)%nat.
Proof. intros. unfold Simd.count_in. rewrite filter_app, length_app. reflexivity. Qed.

Lemma count_at_loop_count : forall fuel i bs, (length bs < i + 8 * fuel)%nat ->
  Simd.count_at_loop fuel i bs = Simd.count_in (skipn i bs).
Proof.
  induction fuel as [|f IH]; intros i bs Hl; cbn [Simd.count_at_loop].
  - rewrite skipn_all2 by lia. reflexivity.
  - destruct (Nat.leb_spec (i + 8) (length bs)) as [Hi|Hi]; [|reflexivity].
    rewrite IH by lia. pose proof (skipn_chunk i bs) as Es.
    set (ch := firstn 8 (skipn i bs)) in *. rewrite Es, count_in_app. reflexivity.
Qed.

Lemma land_128_le_u64 : forall bs, all_bytes bs ->
  Z.land (Simd.le_u64 bs) (Simd.le_u64 (repeat 128 (length bs)))
  = Simd.le_u64 (map (fun b => Z.land b 128) bs).
Proof.
  induction bs as [|a r IH]; intros Hb; [reflexivity|].
  apply all_bytes_cons in Hb as [Ha Hr].
  cbn [length map]. rewrite le_u64_repeat_S. cbn [Simd.le_u64].
  rewrite land_byte_split by lia. rewrite IH; auto.
Qed.

Lemma le_u64_zero_iff : forall bs, all_bytes bs -> (Simd.le_u64 bs = 0 <-> forall b, In b bs -> b = 0).
Proof.
  induction bs as [|a r IH]; intros Hb; cbn [Simd.le_u64]; [split; [intros _ b []|reflexivity]|].
  apply all_bytes_cons in Hb as [Ha Hr].
  assert (Hn : 0 <= Simd.le_u64 r).
  { clear IH Ha. induction r as [|x r IHr]; cbn [Simd.le_u64]; [lia|].
    apply all_bytes_cons in Hr as [Hx Hr]. specialize (IHr Hr). lia. }
  split.
  - intros H b [<-|Hin]; [lia|]. apply (proj1 (IH Hr)); auto; lia.
  - intros H. rewrite (H a (or_introl eq_refl)).
    rewrite (proj2 (IH Hr)); [reflexivity|]. intros b Hin; apply H; right; auto.
Qed.

Lemma land_128_byte : forall b, 0 <= b < 256 -> (Z.land b 128 = 0 <-> b < 128).
Proof.
  intros b Hb.
  assert (H : forallb (fun b => Bool.eqb (Z.land b 128 =? 0) (b <? 128))
                (map Z.of_nat (seq 0 256)) = true) by (vm_compute; reflexivity).
  rewrite forallb_forall in H.
  specialize (H b ltac:(apply in_map_iff; exists (Z.to_nat b); split; [lia|apply in_seq; lia])).
  apply Bool.eqb_prop in H. rewrite <- Z.eqb_eq, <- Z.ltb_lt, H. reflexivity.
Qed.

Lemma high_bits_clear : forall c, all_bytes c -> length c = 8%nat ->
  (Z.land (Simd.le_u64 c) 0x8080808080808080 =? 0) = forallb (fun b => b <? 128) c.
Proof.
  intros c Hb Hl.
  change 0x8080808080808080 with (Simd.le_u64 (repeat 128 8)). rewrite <- Hl.
  rewrite land_128_le_u64 by auto.
  apply Bool.eq_true_iff_eq. rewrite Z.eqb_eq, forallb_forall, le_u64_zero_iff.
  - split.
    + intros H b Hin. apply Z.ltb_lt, land_128_byte; [apply Hb; auto|].
      apply H, in_map_iff. exists b; auto.
    + intros H z Hz. apply in_map_iff in Hz as [b [<- Hin]].
      apply land_128_byte; [apply Hb; auto|]. apply Z.ltb_lt, H, Hin.
  - intros z Hz. apply in_map_iff in Hz as [b [<- Hin]].
    apply land_byte; [apply Hb; auto|lia].
Qed.

Lemma is_valid_ascii_loop_eq : forall fuel i bs, all_bytes bs ->
  (i <= length bs)%nat -> (length bs < i + 8 * fuel)%nat ->
  let k := ((length bs - i) / 8)%nat in
  Simd.is_valid_ascii_loop fuel i bs
  = forallb (fun b => b <? 128) (firstn (8 * k) (skipn i bs))
    && forallb (in_range 0x20 0x7F) (skipn (i + 8 * k) bs).
Proof.
  induction fuel as [|f IH]; intros i bs Hb Hi Hl k; subst k; cbn [Simd.is_valid_ascii_loop].
  - lia.
  - destruct (Nat.leb_spec (i + 8) (length bs)) as [H8|H8].
    + assert (Ek : ((length bs - i) / 8 = S ((length bs - (i + 8)) / 8))%nat).
      { replace (length bs - i)%nat with (1 * 8 + (length bs - (i + 8)))%nat by lia.
        rewrite Nat.div_add_l by lia. reflexivity. }
      rewrite Ek. rewrite high_bits_clear
        by (auto using all_bytes_firstn, all_bytes_skipn, length_firstn_8).
      replace (8 * S ((length bs - (i + 8)) / 8))%nat
        with (8 + 8 * ((length bs - (i + 8)) / 8))%nat by lia.
      rewrite firstn_add, forallb_app, skipn_skipn.
      replace (8 + i)%nat with (i + 8)%nat by lia.
      destruct (forallb (fun b => b <? 128) (firstn 8 (skipn i bs))); cbn [negb andb].
      * rewrite IH by (auto; lia). do 3 f_equal. lia.

      * reflexivity.
    + replace ((length bs - i) / 8)%nat with 0%nat by (symmetry; apply Nat.div_small; lia).
      rewrite Nat.mul_0_r, Nat.add_0_r. reflexivity.
Qed.

(** ** ASCII strings: bytes are characters, slicing is [firstn]/[skipn] *)

Lemma split_at_byte_ascii : forall s i, (forall c, In c s -> 0 <= c < 128) ->
  (i <= length s)%nat -> split_at_byte s i = Some (firstn i s, skipn i s).
Proof.
  induction s as [|c s IH]; intros i Ha Hi.
  - destruct i; [reflexivity|cbn in Hi; lia].
  - destruct i as [|i]; [reflexivity|].
    cbn [split_at_byte]. rewrite char_len_ascii by (apply Ha; now left).
    cbn [Nat.eqb Nat.leb]. replace (S i - 1)%nat with i by lia.
    rewrite IH by (auto with datatypes; cbn in Hi; lia). reflexivity.
Qed.

Lemma ascii_skipn : forall n (s : list Z), (forall c, In c s -> 0 <= c < 128) ->
  forall c, In c (skipn n s) -> 0 <= c < 128.
Proof.
  intros n s H c Hc. apply H. rewrite <- (firstn_skipn n s). apply in_or_app. right; exact Hc.
Qed.

Lemma str_range_ascii : forall s i j, (forall c, In c s -> 0 <= c < 128) ->
  (i <= j)%nat -> (j <= length s)%nat ->
  str_range s i j = Some (firstn (j - i) (skipn i s)).
Proof.
  intros s i j Ha Hij Hj. unfold str_range.
  replace (Nat.leb i j) with true by (symmetry; apply Nat.leb_le; lia).
  rewrite split_at_byte_ascii by (auto; lia).
  rewrite split_at_byte_ascii; [reflexivity| apply ascii_skipn; auto |].
  rewrite length_skipn. lia.
Qed.

Lemma valid_ascii_chars : forall s, valid_str s = true ->
  (forall b, In b (bytes s) -> b < 128) -> forall c, In c s -> 0 <= c < 128.
Proof.
  intros s Hv Hb c Hc. unfold valid_str in Hv. rewrite forallb_forall in Hv.
  pose proof (valid_scalar_nonneg c (Hv c Hc)).
  destruct (Z.ltb_spec c 128); [lia|].
  destruct (encode_char c) as [|b r] eqn:E; [exfalso; exact (encode_char_nonempty c E)|].
  assert (Hin : In b (encode_char c)) by (rewrite E; now left).
  pose proof (encode_char_high c b ltac:(lia) Hin).
  assert (b < 128).
  { apply Hb. unfold bytes. apply in_flat_map. exists c; auto. }
  lia.
Qed.

Lemma position_some : forall p l j, Simd.position p l = Some j ->
  l = firstn j l ++ skipn j l /\ (j < length l)%nat /\ existsb p (firstn j l) = false /\
  exists x, nth_error l j = Some x /\ p x = true.
Proof.
  intros p l. induction l as [|a l IH]; intros j H; cbn in H; [discriminate|].
  destruct (p a) eqn:Pa.
  - injection H as <-. cbn. repeat split; [lia|]. exists a; auto.
  - destruct (Simd.position p l) as [k|] eqn:Pk; cbn in H; [|discriminate].
    injection H as <-. destruct (IH k eq_refl) as [_ [Hk [He [x [Hx Px]]]]].
    cbn. rewrite firstn_skipn. repeat split; [lia| |exists x; auto].
    cbn. rewrite Pa, He. reflexivity.
Qed.

Lemma nth_error_split : forall (l : list Z) j x, nth_error l j = Some x ->
  l = firstn j l ++ x :: skipn (S j) l.
Proof.
  induction l as [|a l IH]; intros [|j] x H; cbn in H; try discriminate.
  - injection H as <-. reflexivity.
  - cbn. f_equal. apply IH. exact H.
Qed.

Lemma count_in_cons : forall x l, Simd.count_in (x :: l) =
  ((if Z.eqb 64 x then 1 else 0) + Simd.count_in l)%nat.
Proof. intros. unfold Simd.count_in. cbn [filter]. destruct (64 =? x); reflexivity. Qed.

Lemma count_in_zero : forall l, Simd.count_in l = 0%nat <-> ~ In 64 l.
Proof.
  induction l as [|x l IH]; [cbn; tauto|].
  rewrite count_in_cons. destruct (Z.eqb_spec 64 x); cbn.
  - split; [lia|]. intros H; exfalso; apply H; left; auto.
  - rewrite IH. split; intros H Hin; apply H; [destruct Hin; [congruence|auto]|right; auto].
Qed.

Lemma simd_ascii_bytes : forall email, valid_str email = true ->
  Simd.is_valid_ascii email = true -> forall b, In b (bytes email) -> b < 128.
Proof.
  intros email Hv H b Hb. unfold Simd.is_valid_ascii in H.
  rewrite is_valid_ascii_loop_eq in H by (try apply bytes_all_bytes; auto; unfold len; lia).
  cbn [skipn] in H. rewrite Bool.andb_true_iff, !forallb_forall in H. destruct H as [H1 H2].
  set (n := (8 * ((length (bytes email) - 0) / 8))%nat) in *.
  rewrite <- (firstn_skipn n (bytes email)) in Hb. apply in_app_or in Hb as [Hb|Hb].
  - apply Z.ltb_lt, H1, Hb.
  - specialize (H2 b Hb). unfold in_range in H2. rewrite Bool.andb_true_iff, !Z.leb_le in H2. lia.
Qed.

Lemma simd_ascii_chars : forall email, valid_str email = true ->
  Simd.is_valid_ascii email = true -> forall c, In c email -> 0 <= c < 128.
Proof. intros email Hv H. apply valid_ascii_chars; auto. apply simd_ascii_bytes; auto. Qed.

Lemma len_ascii : forall s, (forall c, In c s -> 0 <= c < 128) -> len s = length s.
Proof. intros s H. unfold len. rewrite bytes_ascii_id by exact H. reflexivity. Qed.

Lemma at_split_unique : forall (s : list Z) j, Simd.position (Z.eqb 64) s = Some j ->
  Simd.count_in s = 1%nat ->
  s = firstn j s ++ 64 :: skipn (S j) s /\ ~ In 64 (firstn j s) /\ ~ In 64 (skipn (S j) s)
  /\ (j < length s)%nat.
Proof.
  intros s j P C. destruct (position_some _ _ _ P) as [_ [Hj [He [x [Hx Px]]]]].
  apply Z.eqb_eq in Px. subst x.
  pose proof (nth_error_split s j 64 Hx) as Es.
  assert (Hl : ~ In 64 (firstn j s)) by (apply not_in_of_existsb, He).
  split; [exact Es|]. split; [exact Hl|]. split; [|exact Hj].
  apply count_in_zero. rewrite Es in C. rewrite count_in_app, count_in_cons in C.
  apply count_in_zero in Hl. rewrite Hl, Z.eqb_refl in C. lia.
Qed.

Lemma find_count_at_bytes : forall email, valid_str email = true ->
  Simd.find_at email = Simd.position (Z.eqb 64) (bytes email) /\
  Simd.count_at email = Simd.count_in (bytes email).
Proof.
  intros email Hv. split.
  - unfold Simd.find_at. rewrite find_at_loop_position.
    + cbn [skipn]. destruct (Simd.position _ _); reflexivity.
    + apply bytes_all_bytes, Hv.
    + unfold len. lia.
  - unfold Simd.count_at. rewrite count_at_loop_count; [reflexivity|]. unfold len. lia.
Qed.

(** ** lookup.rs *)

Lemma scan_at_spec : forall bs i c fp,
  Lookup.scan_at bs i c fp =
  ((c + Simd.count_in bs)%nat,
   match fp with
   | Some p => Some p
   | None => option_map (fun k => i + k)%nat (Simd.position (Z.eqb 64) bs)
   end).
Proof.
  induction bs as [|b bs IH]; intros i c fp; cbn [Lookup.scan_at].
  - unfold Simd.count_in. cbn. rewrite Nat.add_0_r. destruct fp; reflexivity.
  - rewrite count_in_cons. cbn [Simd.position].
    destruct (Z.eqb_spec b 64) as [->|Hb].
    + rewrite !Z.eqb_refl, IH. apply f_equal2; [lia|]. destruct fp; cbn; [reflexivity|]. f_equal; lia.
    + replace (64 =? b) with false by (symmetry; apply Z.eqb_neq; lia).
      replace (b =? 64) with false by (symmetry; apply Z.eqb_neq; lia).
      rewrite IH. apply f_equal2; [lia|]. destruct fp; [reflexivity|].
      destruct (Simd.position (Z.eqb 64) bs); cbn; [f_equal; lia|reflexivity].
Qed.

Lemma count_at_swar_loop_spec : forall fuel i bs c fp, all_bytes bs ->
  (length bs <= i + 8 * fuel)%nat ->
  Lookup.count_at_swar_loop fuel i bs c fp = Lookup.scan_at (skipn i bs) i c fp.
Proof.
  induction fuel as [|f IH]; intros i bs c fp Hb Hl; cbn [Lookup.count_at_swar_loop].
  - rewrite skipn_all2 by lia. reflexivity.
  - destruct (Nat.leb_spec (i + 8) (length bs)) as [Hi|Hi]; [|reflexivity].
    pose proof (length_firstn_8 i bs Hi) as H8.
    assert (Hc : all_bytes (firstn 8 (skipn i bs)))
      by (apply all_bytes_firstn, all_bytes_skipn, Hb).
    rewrite has_at_exact by auto.
    pose proof (skipn_chunk i bs) as Es.
    set (ch := firstn 8 (skipn i bs)) in *.
    assert (Eif : (if existsb (Z.eqb 64) ch then Lookup.scan_at ch i c fp else (c, fp))
                  = Lookup.scan_at ch i c fp).
    { destruct (existsb (Z.eqb 64) ch) eqn:E; [reflexivity|].
      rewrite scan_at_spec. rewrite (proj2 (position_none_iff _ _) E).
      apply not_in_of_existsb, count_in_zero in E. rewrite E, Nat.add_0_r.
      destruct fp; reflexivity. }
    rewrite Eif. destruct (Lookup.scan_at ch i c fp) as [c' fp'] eqn:Esc.
    rewrite IH by (auto; lia). rewrite Es.
    rewrite !scan_at_spec in *. injection Esc as <- <-.
    rewrite count_in_app, position_app, H8. apply f_equal2; [lia|].
    destruct fp; [reflexivity|].
    destruct (Simd.position (Z.eqb 64) ch); [reflexivity|].
    cbn. destruct (Simd.position (Z.eqb 64) (skipn (i + 8) bs)); cbn; [f_equal; lia|reflexivity].
Qed.

Lemma nth_split2 : forall (l : list Z) i, (S i < length l)%nat ->
  l = firstn i l ++ nth i l 0 :: nth (S i) l 0 :: skipn (S (S i)) l.
Proof.
  induction l as [|a l IH]; intros i Hi; cbn in Hi; [lia|].
  destruct i as [|i].
  - destruct l as [|b l]; cbn in Hi; [lia|]. reflexivity.
  - cbn [firstn nth skipn app]. f_equal. apply IH. lia.
Qed.

(** ** fastpath.rs *)

Lemma const_loop_spec : forall bs af,
  Fastpath.const_loop af bs = true <->
  (if af then Simd.count_in bs = 0%nat else Simd.count_in bs = 1%nat).
Proof.
  induction bs as [|c bs IH]; intros af; cbn [Fastpath.const_loop].
  - unfold Simd.count_in; cbn. destruct af; split; congruence.
  - rewrite count_in_cons. destruct (Z.eqb_spec c 64) as [->|Hc].
    + rewrite Z.eqb_refl. destruct af; [split; [discriminate|lia]|].
      rewrite IH. lia.
    + replace (64 =? c) with false by (symmetry; apply Z.eqb_neq; lia).
      rewrite IH. destruct af; lia.
Qed.

Lemma fast_domain_not_at : forall c, Tiers.is_fast_domain_char c = true -> c <> 64.
Proof.
  intros c H ->. discriminate.
Qed.

Lemma ultra_loop_domain : forall bs len i,
  Fastpath.ultra_loop len i true bs = forallb Tiers.is_fast_domain_char bs.
Proof.
  induction bs as [|c bs IH]; intros len i; [reflexivity|]. cbn [Fastpath.ultra_loop forallb].
  destruct (Z.eqb_spec c 64) as [->|Hc]; [reflexivity|].
  destruct (Tiers.is_fast_domain_char c); cbn; [apply IH|reflexivity].
Qed.

Lemma ultra_loop_local : forall bs len i, (i + length bs = len)%nat ->
  Fastpath.ultra_loop len i false bs = true <->
  exists l d, bs = l ++ 64 :: d /\ (i + length l <> 0)%nat /\ d <> [] /\
    forallb (fun c => Tiers.is_fast_local_char c && negb (c =? 64)) l = true /\
    forallb Tiers.is_fast_domain_char d = true.
Proof.
  induction bs as [|c bs IH]; intros len i Hl; cbn [Fastpath.ultra_loop].
  - split; [discriminate|]. intros [l [d [E _]]]. destruct l; discriminate.
  - destruct (Z.eqb_spec c 64) as [->|Hc].
    + cbn [orb]. destruct (Nat.eqb_spec i 0) as [Hi|Hi].
      * split; [discriminate|]. intros [l [d [E [Hn [Hd [Fl Fd]]]]]].
        destruct l as [|x l]; [cbn in Hn; lia|].
        cbn [app] in E; injection E as <- _. cbn in Fl. discriminate.
      * destruct (Nat.eqb_spec i (len - 1)) as [Hi'|Hi'].
        -- split; [discriminate|]. intros [l [d [E [Hn [Hd [Fl Fd]]]]]].
           destruct l as [|x l].
           ++ cbn [app] in E; injection E as ->. cbn in Hl. destruct d; [congruence|cbn in Hl; lia].
           ++ cbn [app] in E; injection E as <- _. cbn in Fl. discriminate.
        -- rewrite ultra_loop_domain. split.
           ++ intros F. exists [], bs. repeat split; auto; cbn; [lia|].
              intros ->. cbn in Hl. lia.
           ++ intros [l [d [E [Hn [Hd [Fl Fd]]]]]].
              destruct l as [|x l].
              ** cbn [app] in E; injection E as ->. exact Fd.
              ** cbn [app] in E; injection E as <- _. cbn in Fl. discriminate.
    + destruct (Tiers.is_fast_local_char c) eqn:Lc; cbn [negb].
      * rewrite (IH len (S i)) by (cbn in Hl; lia). split.
        -- intros [l [d [E [Hn [Hd [Fl Fd]]]]]].
           exists (c :: l), d. rewrite E. repeat split; auto; [cbn; lia|].
           cbn. rewrite Lc, Fl. replace (c =? 64) with false by (symmetry; apply Z.eqb_neq; auto).
           reflexivity.
        -- intros [l [d [E [Hn [Hd [Fl Fd]]]]]].
           destruct l as [|x l]; [cbn [app] in E; injection E as ->; congruence|].
           cbn [app] in E; injection E as -> E. cbn in Fl. rewrite Bool.andb_true_iff in Fl.
           exists l, d. repeat split; auto; [cbn in Hn; lia|apply Fl].
      * split; [discriminate|]. intros [l [d [E [Hn [Hd [Fl Fd]]]]]].
        destruct l as [|x l]; [cbn [app] in E; injection E as ->; congruence|].
        cbn [app] in E; injection E as -> _. cbn in Fl. rewrite Lc in Fl. discriminate.
Qed.

Lemma fast_local_ascii : forall c, Tiers.is_fast_local_char c = true -> 0 <= c < 128.
Proof.
  intros c H. unfold Tiers.is_fast_local_char, is_ascii_alphanumeric, in_range in H.
  cbn [existsb] in H. rewrite Bool.orb_false_r in H.
  rewrite !Bool.orb_true_iff, !Bool.andb_true_iff, !Z.leb_le, !Z.eqb_eq in H. lia.
Qed.

Lemma common_domains_ok :
  forallb (fun s => common_domain_ok (lit s)) Tiers.common_domains = true.
Proof. vm_compute. reflexivity. Qed.

Lemma fast_check_common_domain : forall l d, common_domain_ok d = true ->
  (1 <= length l <= 64)%nat -> forallb Tiers.is_fast_local_char l = true -> ~ In 64 l ->
  Tiers.fast_ascii_email_check (l ++ 64 :: d) = Some true.
Proof.
  intros l d Hd Hl Fl Nl. unfold common_domain_ok in Hd.
  rewrite !Bool.andb_true_iff, !Bool.negb_true_iff, !Nat.leb_le in Hd.
  destruct Hd as [[[[[[Ad Nd] H3] H189] Dp] Fd] Cd].
  assert (Ha : forall c, In c (l ++ 64 :: d) -> 0 <= c < 128).
  { intros c Hc. apply in_app_or in Hc as [Hc|[<-|Hc]].
    - rewrite forallb_forall in Fl. apply fast_local_ascii, Fl, Hc.
    - lia.
    - rewrite forallb_forall in Ad. specialize (Ad c Hc).
      rewrite Bool.andb_true_iff, Z.leb_le, Z.ltb_lt in Ad. lia. }
  unfold Tiers.fast_ascii_email_check. rewrite bytes_ascii_id by exact Ha.
  rewrite length_app. cbn [length].
  replace (Nat.ltb 254 (length l + S (length d)) || Nat.ltb (length l + S (length d)) 3)
    with false by (symmetry; apply Bool.orb_false_iff; split; apply Nat.ltb_ge; lia).
  rewrite position_app.
  replace (Simd.position (Z.eqb 64) l) with (@None nat)
    by (symmetry; apply position_none_iff;
        destruct (existsb (Z.eqb 64) l) eqn:E; [|reflexivity];
        apply existsb_exists in E as [y [Hy Hy']]; apply Z.eqb_eq in Hy'; subst; contradiction).
  cbn [Simd.position Z.eqb Pos.eqb option_map]. rewrite Nat.add_0_r.
  rewrite firstn_app, Nat.sub_diag, firstn_all, app_nil_r.
  rewrite skipn_app, skipn_all2 by lia.
  replace (S (length l) - length l)%nat with 1%nat by lia. cbn [skipn app].
  rewrite Nd. cbn [orb].
  replace (Nat.eqb (length l) 0 || Nat.ltb 64 (length l)) with false
    by (symmetry; apply Bool.orb_false_iff; split; [apply Nat.eqb_neq|apply Nat.ltb_ge]; lia).
  replace (Nat.ltb (length d) 3 || Nat.ltb 253 (length d)) with false
    by (symmetry; apply Bool.orb_false_iff; split; apply Nat.ltb_ge; lia).
  destruct (Simd.position (Z.eqb 46) d) as [k|]; [|discriminate].
  rewrite Bool.andb_true_iff, !Bool.negb_true_iff in Dp. destruct Dp as [-> ->]. cbn [orb].
  rewrite Fl, Fd, Cd. reflexivity.
Qed.

Lemma validate_email_fast_sound_h : forall email, valid_str email = true ->
  Simd.validate_email_fast email <> Panic /\
  (Simd.validate_email_fast email = Ok (Some true) ->
   (16 <= len email)%nat /\ (forall c, In c email -> 0 <= c < 128) /\
   exists l d, email = l ++ 64 :: d /\ l <> [] /\ ~ In 64 l /\ ~ In 64 d /\ In 46 d).
Proof.
  intros email Hv. unfold Simd.validate_email_fast.
  destruct (Nat.ltb_spec (len email) 16) as [Hl|Hl]; [split; discriminate|].
  destruct (Simd.is_valid_ascii email) eqn:A; cbn [negb]; [|split; discriminate].
  pose proof (simd_ascii_chars email Hv A) as Hasc.
  destruct (find_count_at_bytes email Hv) as [Ef Ec].
  rewrite Ef, Ec. rewrite bytes_ascii_id by exact Hasc. rewrite len_ascii in * by exact Hasc.
  destruct (Nat.eqb_spec (Simd.count_in email) 1) as [C|C]; cbn [negb]; [|split; discriminate].
  destruct (Simd.position (Z.eqb 64) email) as [j|] eqn:P; [|split; discriminate].
  destruct (at_split_unique email j P C) as [Es [Hnl [Hnd Hj]]].
  destruct (Nat.eqb_spec j 0), (Nat.eqb_spec j (length email - 1)); cbn [orb];
    try (split; discriminate).
  rewrite str_range_ascii by (auto; lia). cbn [unwrap bind].
  rewrite firstn_all2 by (rewrite length_skipn; lia).
  replace (j + 1)%nat with (S j) by lia.
  split; [destruct (negb _); discriminate|].
  destruct (existsb (Z.eqb 46) (skipn (S j) email)) eqn:D; cbn [negb]; [|discriminate].
  intros _. split; [lia|]. split; [exact Hasc|].
  exists (firstn j email), (skipn (S j) email).
  split; [exact Es|]. split.
  - intros E. apply (f_equal (@length Z)) in E. rewrite length_firstn in E. cbn in E. lia.
  - split; [exact Hnl|]. split; [exact Hnd|].
    apply existsb_exists in D as [y [Hy Hy']]. apply Z.eqb_eq in Hy'. subst y. exact Hy.
Qed.

(** ** src/lib.rs: the boolean entry point never raises *)

Ltac split_all :=
  repeat match goal with
  | |- context [if ?b then _ else _] => destruct b
  | |- context [match ?o with Some _ => _ | None => _ end] => destruct o
  | |- context [unwrap ?o] => destruct o; cbn [unwrap bind]
  end.

Lemma validate_email_fast_not_err : forall e x, Simd.validate_email_fast e <> Err x.
Proof. intros e x. unfold Simd.validate_email_fast. split_all; cbn; discriminate. Qed.

Lemma detailed_at_scan_some : forall bs i q r,
  Tiers.detailed_at_scan bs i (Some q) = Some r -> r = Some q /\ ~ In 64 bs.
Proof.
  induction bs as [|b bs IH]; intros i q r H; cbn in H.
  - injection H as <-. split; auto.
  - destruct (Z.eqb_spec b 64); [discriminate|].
    destruct (IH _ _ _ H) as [-> Hn]. split; auto. intros [->|Hin]; auto.
Qed.

Lemma detailed_at_scan_found : forall bs i p,
  Tiers.detailed_at_scan bs i None = Some (Some p) ->
  exists bl bd, bs = bl ++ 64 :: bd /\ p = (i + length bl)%nat /\ ~ In 64 bl /\ ~ In 64 bd.
Proof.
  induction bs as [|b bs IH]; intros i p H; cbn in H; [discriminate|].
  destruct (Z.eqb_spec b 64) as [->|Hb].
  - destruct (detailed_at_scan_some _ _ _ _ H) as [E Hn]. injection E as ->.
    exists [], bs. repeat split; auto; cbn; lia.
  - destruct (IH _ _ H) as [bl [bd [-> [-> [Hl Hd]]]]].
    exists (b :: bl), bd. repeat split; auto; try (cbn; lia). intros [->|Hin]; auto.
Qed.

Lemma is_valid_detailed_not_err : forall cb e a x, Tiers.is_valid_detailed cb e a <> Err x.
Proof.
  intros cb e a x. unfold Tiers.is_valid_detailed.
  destruct (is_empty (str_trim e)); [discriminate|].
  destruct (Tiers.detailed_at_scan _ 0 None) as [[p|]|]; try discriminate.
  destruct (str_range (str_trim e) 0 p) as [l|]; cbn; [|discriminate].
  destruct (str_range (str_trim e) (p + 1) (len (str_trim e))) as [d|]; cbn; [|discriminate].
  split_all; try discriminate.
  destruct (validate_domain cb d); discriminate.
Qed.

Lemma is_valid_detailed_not_panic : forall cb e a, valid_str e = true ->
  Tiers.is_valid_detailed cb e a <> Panic.
Proof.
  intros cb e a Hv. unfold Tiers.is_valid_detailed.
  pose proof (valid_str_trim e Hv) as Ht. set (email := str_trim e) in *.
  destruct (is_empty email); [discriminate|].
  destruct (Tiers.detailed_at_scan (bytes email) 0 None) as [[p|]|] eqn:D; try discriminate.
  destruct (detailed_at_scan_found _ _ _ D) as [bl [bd [Eb [-> [Hl Hd]]]]].
  destruct (bytes_split_ascii email 64 bl bd ltac:(lia) Eb Hl) as [l [d [Ee [Bl Bd]]]].
  assert (Ll : len l = length bl) by (unfold len; rewrite Bl; reflexivity).
  cbn [Nat.add]. rewrite <- Ll.
  assert (R1 : str_range email 0 (len l) = Some l) by (rewrite Ee; apply str_range_prefix).
  assert (R2 : str_range email (len l + 1) (len email) = Some d)
    by (rewrite Ee; apply str_range_suffix; reflexivity).
  rewrite R1, R2. cbn [unwrap bind].
  split_all; try discriminate.
  destruct (validate_domain cb d) eqn:V; try discriminate.
  exfalso. exact (validate_domain_not_panic cb d V).
Qed.

Lemma is_valid_fast_not_err : forall cb e a x, Tiers.is_valid_fast cb e a <> Err x.
Proof.
  intros cb e a x. unfold Tiers.is_valid_fast.
  destruct (Nat.leb 32 (len e)).
  - destruct (Simd.validate_email_fast e) as [o|y|] eqn:V; cbn.
    + destruct o; [discriminate|].
      destruct (Tiers.fast_ascii_email_check e); [discriminate|apply is_valid_detailed_not_err].
    + exfalso. exact (validate_email_fast_not_err e y V).
    + discriminate.
  - cbn. destruct (Tiers.fast_ascii_email_check e); [discriminate|apply is_valid_detailed_not_err].
Qed.

Lemma is_valid_fast_not_panic : forall cb e a, valid_str e = true ->
  Tiers.is_valid_fast cb e a <> Panic.
Proof.
  intros cb e a Hv. unfold Tiers.is_valid_fast.
  destruct (Nat.leb 32 (len e)).
  - destruct (Simd.validate_email_fast e) as [o|y|] eqn:V; cbn.
    + destruct o; [discriminate|].
      destruct (Tiers.fast_ascii_email_check e); [discriminate|].
      apply is_valid_detailed_not_panic, Hv.
    + exfalso. exact (validate_email_fast_not_err e y V).
    + exfalso. exact (proj1 (validate_email_fast_sound_h e Hv) V).
  - cbn. destruct (Tiers.fast_ascii_email_check e); [discriminate|].
    apply is_valid_detailed_not_panic, Hv.
Qed.

(** ** Batch loops of src/prefetch.rs *)

Lemma skipn_nth_error : forall {A} (l : list A) i e, nth_error l i = Some e ->
  skipn i l = e :: skipn (S i) l.
Proof.
  intros A l. induction l as [|x l IH]; intros [|i] e H; cbn in *; try discriminate.
  - injection H as ->. reflexivity.
  - apply IH, H.
Qed.

Lemma set_nth_ok : forall l i v, (i < length l)%nat ->
  Tiers.set_nth l i v = Ok (firstn i l ++ v :: skipn (S i) l).
Proof.
  intros l i v H. unfold Tiers.set_nth.
  destruct (Nat.ltb_spec i (length l)); [reflexivity|lia].
Qed.

Lemma set_nth_short : forall l i v, (length l <= i)%nat -> Tiers.set_nth l i v = Panic.
Proof.
  intros l i v H. unfold Tiers.set_nth.
  destruct (Nat.ltb_spec i (length l)); [lia|reflexivity].
Qed.

Lemma upd_length : forall {A} (l : list A) i v, (i < length l)%nat ->
  length (firstn i l ++ v :: skipn (S i) l) = length l.
Proof.
  intros A l i v H. rewrite length_app, length_firstn. cbn [length].
  rewrite length_skipn. lia.
Qed.

Lemma upd_firstn : forall {A} (l : list A) i v, (i < length l)%nat ->
  firstn (S i) (firstn i l ++ v :: skipn (S i) l) = firstn i l ++ [v].
Proof.
  intros A l i v H. rewrite firstn_app, length_firstn.
  replace (Nat.min i (length l)) with i by lia.
  rewrite firstn_firstn. replace (Nat.min (S i) i) with i by lia.
  replace (S i - i)%nat with 1%nat by lia. reflexivity.
Qed.

Lemma upd_skipn : forall {A} (l : list A) i v m, (i < length l)%nat -> (S i <= m)%nat ->
  skipn m (firstn i l ++ v :: skipn (S i) l) = skipn m l.
Proof.
  intros A l i v m H Hm. rewrite skipn_app, length_firstn.
  rewrite (skipn_all2 (firstn i l)) by (rewrite length_firstn; lia).
  replace (m - Nat.min i (length l))%nat with (S (m - S i)) by lia.
  rewrite app_nil_l, skipn_cons, skipn_skipn. f_equal. lia.
Qed.

Lemma map_res_length : forall f l rs, Tiers.map_res f l = Ok rs -> length rs = length l.
Proof.
  intros f l. induction l as [|x l IH]; intros rs H; cbn in H.
  - injection H as <-. reflexivity.
  - destruct (f x); try discriminate. cbn in H.
    destruct (Tiers.map_res f l) as [ys| |] eqn:E; try discriminate.
    cbn in H. injection H as <-. cbn. f_equal. apply IH. reflexivity.
Qed.

Lemma map_res_app : forall f a b,
  Tiers.map_res f (a ++ b) =
  let* x := Tiers.map_res f a in let* y := Tiers.map_res f b in Ok (x ++ y).
Proof.
  intros f a b. induction a as [|x a IH]; cbn.
  - destruct (Tiers.map_res f b); reflexivity.
  - destruct (f x); cbn; try reflexivity. rewrite IH.
    destruct (Tiers.map_res f a); cbn; try reflexivity.
    destruct (Tiers.map_res f b); reflexivity.
Qed.

Lemma map_res_not_err : forall f, (forall e x, f e <> Err x) ->
  forall l x, Tiers.map_res f l <> Err x.
Proof.
  intros f Hf l. induction l as [|e l IH]; intros x; cbn; [discriminate|].
  destruct (f e) eqn:E; cbn.
  - destruct (Tiers.map_res f l) eqn:M; cbn; [discriminate| |discriminate].
    intros _. exact (IH _ eq_refl).
  - exfalso. exact (Hf _ _ E).
  - discriminate.
Qed.

Lemma map_res_ok : forall f l,
  (forall e, In e l -> exists r, f e = Ok r) ->
  exists rs, Tiers.map_res f l = Ok rs /\ length rs = length l.
Proof.
  intros f l. induction l as [|e l IH]; intros H; cbn.
  - exists []. split; reflexivity.
  - destruct (H e (or_introl eq_refl)) as [r Er]. rewrite Er. cbn.
    destruct IH as [rs [E L]]; [intros e' Hi; apply H; right; exact Hi|].
    rewrite E. cbn. exists (r :: rs). split; [reflexivity|cbn; lia].
Qed.

Lemma small_loop_spec : forall f emails k i res,
  (i + k <= length emails)%nat -> (i + k <= length res)%nat ->
  Tiers.small_loop f emails k i res =
  let* rs := Tiers.map_res f (firstn k (skipn i emails)) in
  Ok (firstn i res ++ rs ++ skipn (i + k) res).
Proof.
  intros f emails k. induction k as [|k IH]; intros i res H1 H2.
  - cbn. rewrite Nat.add_0_r, firstn_skipn. reflexivity.
  - destruct (nth_error emails i) as [e|] eqn:E;
      [|apply nth_error_None in E; lia].
    cbn [Tiers.small_loop]. unfold Tiers.get. rewrite E. cbn [unwrap bind].
    rewrite (skipn_nth_error _ _ _ E). cbn [firstn Tiers.map_res].
    destruct (f e) as [r|x|]; cbn [bind]; try reflexivity.
    rewrite set_nth_ok by lia. cbn [bind].
    rewrite IH by (try rewrite upd_length; lia).
    destruct (Tiers.map_res f (firstn k (skipn (S i) emails))) as [rs|x|];
      cbn [bind]; try reflexivity.
    rewrite upd_firstn by lia. rewrite upd_skipn by lia.
    rewrite <- app_assoc. cbn [app]. replace (S i + k)%nat with (i + S k)%nat by lia. reflexivity.
Qed.

Lemma small_loop_short : forall f, (forall e x, f e <> Err x) ->
  forall emails k i res,
  (i + k <= length emails)%nat -> (i <= length res)%nat -> (length res < i + k)%nat ->
  Tiers.small_loop f emails k i res = Panic.
Proof.
  intros f Hf emails k. induction k as [|k IH]; intros i res H1 H2 H3; [lia|].
  destruct (nth_error emails i) as [e|] eqn:E;
    [|apply nth_error_None in E; lia].
  cbn [Tiers.small_loop]. unfold Tiers.get. rewrite E. cbn [unwrap bind].
  destruct (f e) as [r|x|] eqn:F; cbn [bind].
  - destruct (Nat.ltb_spec i (length res)).
    + rewrite set_nth_ok by lia. cbn [bind]. apply IH; try rewrite upd_length; lia.
    + rewrite set_nth_short by lia. reflexivity.
  - exfalso. exact (Hf _ _ F).
  - reflexivity.
Qed.

Lemma pipe_loop_spec : forall f emails k i res r1 r2,
  (2 <= i)%nat -> (i + k <= length emails)%nat -> (i - 2 + k <= length res)%nat ->
  Tiers.pipe_loop f emails k i res r1 r2 =
  let* rs := Tiers.map_res f (firstn k (skipn i emails)) in
  Ok (firstn (i - 2) res ++ firstn k (r1 :: r2 :: rs) ++ skipn (i - 2 + k) res,
      nth k (r1 :: r2 :: rs) false, nth (S k) (r1 :: r2 :: rs) false).
Proof.
  intros f emails k. induction k as [|k IH]; intros i res r1 r2 H0 H1 H2.
  - cbn. rewrite Nat.add_0_r, firstn_skipn. reflexivity.
  - destruct (nth_error emails i) as [e|] eqn:E;
      [|apply nth_error_None in E; lia].
    cbn [Tiers.pipe_loop]. unfold Tiers.get. rewrite E. cbn [unwrap bind].
    rewrite (skipn_nth_error _ _ _ E). cbn [firstn Tiers.map_res].
    destruct (f e) as [r3|x|]; cbn [bind]; try reflexivity.
    rewrite set_nth_ok by lia. cbn [bind].
    rewrite IH by (try rewrite upd_length; lia).
    destruct (Tiers.map_res f (firstn k (skipn (S i) emails))) as [rs|x|];
      cbn [bind]; try reflexivity.
    replace (S i - 2)%nat with (S (i - 2)) by lia.
    rewrite upd_firstn by lia. rewrite upd_skipn by lia.
    rewrite <- app_assoc. cbn [app firstn nth].
    replace (S (i - 2) + k)%nat with (i - 2 + S k)%nat by lia. reflexivity.
Qed.

Lemma firstn_last2 : forall {A} (l : list A) m d, length l = S (S m) ->
  firstn m l ++ [nth m l d; nth (S m) l d] = l.
Proof.
  intros A l m d. revert l. induction m as [|m IH]; intros l H.
  - destruct l as [|a [|b [|c l]]]; cbn in H; try lia. reflexivity.
  - destruct l as [|a l]; cbn in H; [lia|]. cbn [firstn app nth].
    f_equal. apply IH. lia.
Qed.

Lemma firstn_exact : forall {A} (a b : list A), firstn (length a) (a ++ b) = a.
Proof.
  intros A a b. rewrite firstn_app, Nat.sub_diag, firstn_all. cbn. apply app_nil_r.
Qed.

Lemma set_nth_cons : forall a l i v,
  Tiers.set_nth (a :: l) (S i) v = let* r := Tiers.set_nth l i v in Ok (a :: r).
Proof.
  intros a l i v. unfold Tiers.set_nth. cbn [length].
  destruct (Nat.ltb_spec (S i) (S (length l))), (Nat.ltb_spec i (length l));
    try lia; reflexivity.
Qed.

Lemma set_last2 : forall (A : list bool) p q x y,
  (let* r := Tiers.set_nth (A ++ [p; q]) (length A) x in
   Tiers.set_nth r (S (length A)) y) = Ok (A ++ [x; y]).
Proof.
  induction A as [|a A IH]; intros p q x y; [reflexivity|].
  cbn [app length]. rewrite set_nth_cons.
  specialize (IH p q x y).
  destruct (Tiers.set_nth (A ++ [p; q]) (length A) x) as [r| |];
    cbn [bind] in *; try discriminate IH.
  rewrite set_nth_cons, IH. reflexivity.
Qed.

Lemma skipn_repeat2 : forall (b : bool) m, skipn m (repeat b (S (S m))) = [b; b].
Proof. intros b m. induction m as [|m IH]; [reflexivity|]. exact IH. Qed.

Lemma pipelined_validation_map_res : forall cb emails,
  Tiers.pipelined_validation cb emails =
  Tiers.map_res (fun e => Tiers.is_valid_fast cb e true) emails.
Proof.
  intros cb emails. unfold Tiers.pipelined_validation.
  assert (Hf : forall e x, Tiers.is_valid_fast cb e true <> Err x)
    by (intros; apply is_valid_fast_not_err).
  destruct (Nat.ltb_spec (length emails) 4).
  - rewrite small_loop_spec by (rewrite ?repeat_length; lia).
    cbn [skipn firstn]. rewrite firstn_all.
    rewrite skipn_all2 by (rewrite repeat_length; lia).
    destruct (Tiers.map_res _ emails); cbn [bind]; try reflexivity.
    rewrite app_nil_r. reflexivity.
  - destruct emails as [|e0 [|e1 [|e2 rest]]]; cbn [length] in *; try lia.
    set (m := length rest).
    unfold Tiers.get. cbn [nth_error unwrap bind Tiers.map_res].
    destruct (Tiers.is_valid_fast cb e0 true) as [v0|x|] eqn:F0;
      [|exfalso; exact (Hf _ _ F0)|];
    destruct (Tiers.is_valid_fast cb e1 true) as [r1|x|] eqn:F1;
      try (exfalso; exact (Hf _ _ F1));
    destruct (Tiers.is_valid_fast cb e2 true) as [r2|x|] eqn:F2;
      try (exfalso; exact (Hf _ _ F2));
    cbn [bind]; try reflexivity.
    replace (S (S (S m)) - 3)%nat with m by lia.
    rewrite set_nth_ok by (rewrite repeat_length; lia). cbn [bind].
    replace (firstn 0 (repeat false (S (S (S m)))) ++ v0 :: skipn 1 (repeat false (S (S (S m)))))
      with (v0 :: repeat false (S (S m))) by reflexivity.
    rewrite pipe_loop_spec by (cbn [length]; rewrite ?repeat_length; lia).
    rewrite skipn_cons, skipn_cons, skipn_cons, skipn_O. rewrite firstn_all2 by lia.
    destruct (Tiers.map_res _ rest) as [rs|x|] eqn:M; cbn [bind]; try reflexivity.
    assert (Lr : length rs = m) by (apply (map_res_length _ _ _ M)).
    replace (3 - 2)%nat with 1%nat by lia. replace (1 + m)%nat with (S m) by lia.
    rewrite skipn_cons, skipn_repeat2. cbn [firstn app].
    replace (S (S (S m)) - 2)%nat with (S m) by lia.
    replace (S (S (S m)) - 1)%nat with (S (S m)) by lia.
    pose proof (set_last2 (v0 :: firstn m (r1 :: r2 :: rs)) false false
                  (nth m (r1 :: r2 :: rs) false) (nth (S m) (r1 :: r2 :: rs) false)) as SL.
    cbn [length] in SL. rewrite length_firstn in SL. cbn [length] in SL.
    replace (Nat.min m (S (S (length rs)))) with m in SL by lia.
    cbn [app] in SL. rewrite SL. f_equal. f_equal.
    apply firstn_last2. cbn. lia.
Qed.

(** ** [validate_chunked] *)

Lemma push_chunk_spec : forall f c res,
  Prefetch.push_chunk f c res = let* rs := Tiers.map_res f c in Ok (res ++ rs).
Proof.
  intros f c. induction c as [|e c IH]; intros res; cbn.
  - rewrite app_nil_r. reflexivity.
  - destruct (f e); cbn; try reflexivity. rewrite IH.
    destruct (Tiers.map_res f c); cbn; try reflexivity.
    rewrite <- app_assoc. reflexivity.
Qed.

Lemma push_chunks_spec : forall f cs res,
  Prefetch.push_chunks f cs res = let* rs := Tiers.map_res f (concat cs) in Ok (res ++ rs).
Proof.
  intros f cs. induction cs as [|c cs IH]; intros res; cbn [Prefetch.push_chunks concat].
  - cbn. rewrite app_nil_r. reflexivity.
  - rewrite push_chunk_spec, map_res_app.
    destruct (Tiers.map_res f c); cbn [bind]; try reflexivity. rewrite IH.
    destruct (Tiers.map_res f (concat cs)); cbn [bind]; try reflexivity.
    rewrite app_assoc. reflexivity.
Qed.

Lemma concat_chunks_loop : forall fuel k l, (0 < k)%nat -> (length l <= fuel)%nat ->
  concat (Prefetch.chunks_loop fuel k l) = l.
Proof.
  induction fuel as [|fuel IH]; intros k l Hk Hl.
  - destruct l; cbn in *; [reflexivity|lia].
  - destruct l as [|x l]; [reflexivity|].
    change (Prefetch.chunks_loop (S fuel) k (x :: l))
      with (firstn k (x :: l) :: Prefetch.chunks_loop fuel k (skipn k (x :: l))).
    rewrite concat_cons, IH by (try rewrite length_skipn; cbn [length] in *; lia).
    apply firstn_skipn.
Qed.

(** ** [StringPool] *)

Lemma pool_add_all_spec : forall ss p,
  Prefetch.buffer (Prefetch.pool_add_all p ss) = Prefetch.buffer p ++ flat_map bytes ss /\
  Prefetch.offsets (Prefetch.pool_add_all p ss) =
    Prefetch.offsets p ++
    map (fun j => length (Prefetch.buffer p) + length (flat_map bytes (firstn j ss)))%nat
        (seq 0 (length ss)).
Proof.
  induction ss as [|s ss IH]; intros p.
  - cbn. rewrite !app_nil_r. split; reflexivity.
  - unfold Prefetch.pool_add_all. cbn [fold_left].
    fold (Prefetch.pool_add_all (fst (Prefetch.pool_add p s)) ss).
    destruct (IH (fst (Prefetch.pool_add p s))) as [B O]. rewrite B, O.
    cbn [fst Prefetch.pool_add Prefetch.buffer Prefetch.offsets]. split.
    + rewrite <- app_assoc. reflexivity.
    + rewrite <- app_assoc. f_equal. cbn [length seq map app].
      cbn [firstn flat_map length]. f_equal; [lia|].
      rewrite <- seq_shift, map_map. apply map_ext. intros j.
      cbn [firstn flat_map]. rewrite !length_app. lia.
Qed.

Lemma nth_replace : forall (l : list Z) i v, (i < length l)%nat ->
  nth i (Prefetch.replace_nth l i v) 0 = v.
Proof.
  intros l i v H. unfold Prefetch.replace_nth.
  rewrite app_nth2 by (rewrite length_firstn; lia).
  rewrite length_firstn. replace (i - Nat.min i (length l))%nat with 0%nat by lia.
  reflexivity.
Qed.

Lemma length_replace : forall (l : list Z) i v, (i < length l)%nat ->
  length (Prefetch.replace_nth l i v) = length l.
Proof. intros. unfold Prefetch.replace_nth. apply upd_length. assumption. Qed.

(** ** [ValidationCache] *)

Lemma nth_u64 : forall l n, forallb u64_ok l = true -> 0 <= nth n l 0 < Simd.two64.
Proof.
  induction l as [|x l IH]; intros n H.
  - destruct n; cbn [nth]; unfold Simd.two64; lia.
  - cbn [forallb] in H. apply andb_true_iff in H as [H1 H2].
    destruct n as [|n]; cbn [nth]; [|apply IH, H2].
    unfold u64_ok in H1. apply andb_true_iff in H1 as [A C].
    apply Z.leb_le in A. apply Z.ltb_lt in C. lia.
Qed.

Lemma check_loop_high : forall fuel buckets h mask idx,
  forallb u64_ok buckets = true -> 2 ^ 63 <= h ->
  Prefetch.check_loop fuel buckets h mask idx = None.
Proof.
  induction fuel as [|fuel IH]; intros buckets h mask idx Hb Hh; [reflexivity|].
  cbn [Prefetch.check_loop].
  pose proof (nth_u64 buckets (Z.to_nat idx) Hb) as R.
  set (b := nth (Z.to_nat idx) buckets 0) in *.
  destruct (b =? 0); [reflexivity|].
  replace (Z.shiftr b 1 =? h) with false.
  - apply IH; assumption.
  - symmetry. apply Z.eqb_neq. rewrite Z.shiftr_div_pow2 by lia.
    unfold Simd.two64 in R. change (2 ^ 1) with 2. intro E.
    assert (b / 2 < 2 ^ 63) by (apply Z.div_lt_upper_bound; lia). lia.
Qed.

Lemma next_power_of_two_pow : forall n, exists k, Prefetch.next_power_of_two n = (2 ^ k)%nat.
Proof.
  intros n. unfold Prefetch.next_power_of_two.
  destruct (Nat.leb n 1); [exists 0%nat; reflexivity|eexists; reflexivity].
Qed.

Lemma cache_value : forall h (r : bool), 0 <= h < 2 ^ 63 ->
  Z.lor ((Z.shiftl h 1) mod Simd.two64) (Z.b2z r) = 2 * h + Z.b2z r.
Proof.
  intros h r Hh. rewrite Z.shiftl_mul_pow2 by lia. change (2 ^ 1) with 2.
  rewrite Z.mul_comm.
  unfold Simd.two64. rewrite Z.mod_small by lia.
  rewrite <- Z.add_lor_land.
  replace (Z.land (2 * h) (Z.b2z r)) with 0; [lia|].
  destruct r; cbn [Z.b2z].
  - change 1 with (Z.ones 1). rewrite Z.land_ones by lia.
    change (2 ^ 1) with 2. rewrite Z.mul_comm, Z.mod_mul by lia. reflexivity.
  - rewrite Z.land_0_r. reflexivity.
Qed.

(** ** Byte-list helpers *)

Lemma existsb_eqb_iff : forall x l, existsb (Z.eqb x) l = true <-> In x l.
Proof.
  intros x l. rewrite existsb_exists. split.
  - intros [y [Hy E]]. apply Z.eqb_eq in E. subst y. exact Hy.
  - intros H. exists x. split; [exact H|apply Z.eqb_refl].
Qed.

Lemma position_at_iff : forall bs j,
  Simd.position (Z.eqb 64) bs = Some j <->
  exists l d, bs = l ++ 64 :: d /\ ~ In 64 l /\ length l = j.
Proof.
  intros bs. induction bs as [|b bs IH]; intros j; cbn [Simd.position].
  - split; [discriminate|]. intros [l [d [E _]]]. destruct l; discriminate.
  - destruct (Z.eqb_spec 64 b) as [<-|Hb].
    + split.
      * intros H. injection H as <-. exists [], bs. repeat split; auto.
      * intros [l [d [E [Hl Lj]]]]. destruct l as [|x l]; cbn in E.
        -- cbn in Lj. subst j. reflexivity.
        -- injection E as <- _. exfalso. apply Hl. left. reflexivity.
    + split.
      * intros H. destruct (Simd.position (Z.eqb 64) bs) as [k|] eqn:P; [|discriminate].
        cbn in H. injection H as <-.
        destruct (proj1 (IH k) eq_refl) as [l [d [E [Hl Lk]]]].
        exists (b :: l), d. repeat split.
        -- rewrite E. reflexivity.
        -- intros [->|Hin]; [apply Hb; reflexivity|exact (Hl Hin)].
        -- cbn. lia.
      * intros [l [d [E [Hl Lj]]]]. destruct l as [|x l]; cbn in E.
        -- injection E as -> _. exfalso. apply Hb. reflexivity.
        -- injection E as -> E. destruct j as [|j]; [cbn in Lj; discriminate|].
           rewrite (proj2 (IH j)); [reflexivity|].
           exists l, d. repeat split; auto.
           intro Hin. apply Hl. right. exact Hin.
Qed.

Lemma position_at_none : forall bs, Simd.position (Z.eqb 64) bs = None <-> ~ In 64 bs.
Proof.
  intros bs. rewrite position_none_iff. split.
  - apply not_in_of_existsb.
  - intros H. destruct (existsb (Z.eqb 64) bs) eqn:E; [|reflexivity].
    apply existsb_eqb_iff in E. contradiction.
Qed.

Lemma first_at_split : forall bs, In 64 bs ->
  exists l d, bs = l ++ 64 :: d /\ ~ In 64 l.
Proof.
  intros bs H. destruct (Simd.position (Z.eqb 64) bs) as [j|] eqn:P.
  - destruct (proj1 (position_at_iff bs j) P) as [l [d [E [Hl _]]]]. eauto.
  - apply position_at_none in P. contradiction.
Qed.

Lemma at_split_first : forall l d l' d',
  l ++ 64 :: d = l' ++ 64 :: d' -> ~ In 64 l -> ~ In 64 l' -> l = l' /\ d = d'.
Proof.
  induction l as [|x l IH]; intros d l' d' E Hl Hl'; destruct l' as [|y l']; cbn in E.
  - injection E as ->. split; reflexivity.
  - injection E as <- _. exfalso. apply Hl'. left. reflexivity.
  - injection E as -> _. exfalso. apply Hl. left. reflexivity.
  - injection E as -> E.
    destruct (IH d l' d' E) as [-> ->]; [intro; apply Hl; right; auto
                                        |intro; apply Hl'; right; auto|].
    split; reflexivity.
Qed.

Lemma nth_last : forall (l : list Z) d, l <> [] -> nth (length l - 1) l d = last l d.
Proof.
  induction l as [|x l IH]; intros d H; [contradiction|].
  destruct l as [|y l]; [reflexivity|].
  change (last (x :: y :: l) d) with (last (y :: l) d). rewrite <- (IH d) by discriminate.
  replace (length (x :: y :: l) - 1)%nat with (S (length (y :: l) - 1)) by (cbn; lia).
  reflexivity.
Qed.

Lemma nth_0_hd : forall (l : list Z) d, nth 0 l d = hd d l.
Proof. intros [|x l] d; reflexivity. Qed.

Lemma skipn_exact_S : forall {A} (l d : list A) x, skipn (length l + 1) (l ++ x :: d) = d.
Proof.
  intros A l d x. rewrite skipn_app. rewrite skipn_all2 by lia.
  replace (length l + 1 - length l)%nat with 1%nat by lia. reflexivity.
Qed.

Lemma dots_scan_iff : forall l,
  existsb (fun i => (nth i l 0 =? 46) && (nth (i + 1) l 0 =? 46)) (seq 0 (length l - 1)) = true
  <-> exists p q, l = p ++ 46 :: 46 :: q.
Proof.
  intros l. rewrite existsb_exists. split.
  - intros [i [Hi Hd]]. apply in_seq in Hi.
    rewrite Bool.andb_true_iff, !Z.eqb_eq in Hd. destruct Hd as [H1 H2].
    rewrite Nat.add_1_r in H2.
    exists (firstn i l), (skipn (S (S i)) l).
    transitivity (firstn i l ++ nth i l 0 :: nth (S i) l 0 :: skipn (S (S i)) l);
      [apply nth_split2; lia | rewrite H1, H2; reflexivity].
  - intros [p [q E]]. exists (length p). rewrite E. split.
    + apply in_seq. rewrite length_app. cbn. lia.
    + rewrite Nat.add_1_r.
      rewrite app_nth2 by lia. rewrite Nat.sub_diag.
      rewrite app_nth2 by lia. replace (S (length p) - length p)%nat with 1%nat by lia.
      reflexivity.
Qed.

Lemma no_dots_scan : forall l,
  existsb (fun i => (nth i l 0 =? 46) && (nth (i + 1) l 0 =? 46)) (seq 0 (length l - 1)) = false
  <-> ~ exists p q, l = p ++ 46 :: 46 :: q.
Proof.
  intros l. rewrite <- dots_scan_iff. destruct (existsb _ _); split; congruence.
Qed.

(** ** [vectorized::validate_single_fast] on a split at the first ['@'] *)

Lemma vsf_split : forall email l d, bytes email = l ++ 64 :: d -> ~ In 64 l ->
  Vectorized.validate_single_fast email =
  negb (Nat.ltb (len email) 5 || Nat.ltb 254 (len email))
  && negb (Nat.eqb (length l) 0 || Nat.eqb (length l) (len email - 1))
  && negb (Nat.eqb (length l) 0 || Nat.ltb 64 (length l))
  && negb ((nth 0 l 0 =? 46) || (nth (length l - 1) l 0 =? 46))
  && negb (existsb (fun i => (nth i l 0 =? 46) && (nth (i + 1) l 0 =? 46))
                   (seq 0 (length l - 1)))
  && negb (Nat.ltb (length d) 3 || Nat.ltb 253 (length d))
  && negb ((nth 0 d 0 =? 46) || (nth (length d - 1) d 0 =? 46))
  && existsb (Z.eqb 46) d.
Proof.
  intros email l d E Hl. unfold Vectorized.validate_single_fast, len. rewrite E.
  rewrite (proj2 (position_at_iff _ (length l))) by (exists l, d; auto).
  rewrite firstn_exact, skipn_exact_S.
  repeat match goal with |- context [if ?b then _ else _] => destruct b end;
    reflexivity.
Qed.

(** ** [RleValidator::pattern_match] *)

Lemma has_adjacent_dots_iff : forall s,
  Tiers.has_adjacent_dots s = true <-> exists p q, s = p ++ 46 :: 46 :: q.
Proof.
  induction s as [|a s IH]; [cbn; split; [discriminate|intros [p [q E]]; destruct p; discriminate]|].
  destruct s as [|b s].
  - cbn. split; [discriminate|]. intros [p [q E]].
    destruct p as [|x [|y p]]; discriminate.
  - change (Tiers.has_adjacent_dots (a :: b :: s))
      with (((a =? 46) && (b =? 46)) || Tiers.has_adjacent_dots (b :: s)).
    rewrite orb_true_iff, andb_true_iff, !Z.eqb_eq, IH. split.
    + intros [[-> ->]|[p [q E]]].
      * exists [], s. reflexivity.
      * exists (a :: p), q. rewrite E. reflexivity.
    + intros [p [q E]]. destruct p as [|x p].
      * injection E as -> -> _. left. split; reflexivity.
      * injection E as -> E. right. exists p, q. exact E.
Qed.

Lemma rle_local_loop_spec : forall bs i k,
  Approx.rle_local_loop bs i = Some (Some k) <->
  exists l d, bs = l ++ 64 :: d /\ forallb Approx.rle_is_local_char l = true /\
              (0 < i + length l)%nat /\ k = S (i + length l).
Proof.
  induction bs as [|b bs IH]; intros i k; cbn [Approx.rle_local_loop].
  - split; [discriminate|]. intros [l [d [E _]]]. destruct l; discriminate.
  - destruct (Z.eqb_spec b 64) as [->|Hb].
    + split.
      * destruct (Nat.eqb_spec i 0); [discriminate|].
        intros H. injection H as <-. exists [], bs. repeat split; cbn; lia.
      * intros [l [d [E [Hl [Hi ->]]]]]. destruct l as [|x l]; cbn in E.
        -- injection E as <-. cbn in Hi |- *.
           destruct (Nat.eqb_spec i 0); [lia|]. f_equal. f_equal. lia.
        -- injection E as <- _. discriminate.
    + destruct (Approx.rle_is_local_char b) eqn:Lb; cbn [negb].
      * rewrite IH. split.
        -- intros [l [d [E [Hl [Hi ->]]]]]. exists (b :: l), d.
           repeat split; cbn; try rewrite Lb; try rewrite E; auto; lia.
        -- intros [l [d [E [Hl [Hi ->]]]]]. destruct l as [|x l]; cbn in E.
           ++ injection E as -> _. contradiction.
           ++ injection E as -> E. cbn in Hl. rewrite Lb in Hl.
              exists l, d. repeat split; auto; cbn in *; lia.
      * split; [discriminate|].
        intros [l [d [E [Hl _]]]]. destruct l as [|x l]; cbn in E.
        -- injection E as -> _. contradiction.
        -- injection E as -> _. cbn in Hl. rewrite Lb in Hl. discriminate.
Qed.

Lemma rle_domain_loop_spec : forall all rest i ds, (0 < i)%nat -> skipn i all = rest ->
  Approx.rle_domain_loop all rest i ds =
  if forallb rle_domain_char rest && negb (Tiers.has_adjacent_dots (nth (i - 1) all 0 :: rest))
  then Some (ds || existsb (Z.eqb 46) rest) else None.
Proof.
  intros all rest. induction rest as [|b rest IH]; intros i ds Hi Hs.
  - cbn. rewrite orb_false_r. reflexivity.
  - assert (Nb : nth i all 0 = b).
    { rewrite <- (firstn_skipn i all), Hs, app_nth2; rewrite length_firstn.
      - assert (length all >= i)%nat.
        { destruct (Nat.le_gt_cases i (length all)); [lia|].
          rewrite skipn_all2 in Hs by lia. discriminate. }
        replace (i - Nat.min i (length all))%nat with 0%nat by lia. reflexivity.
      - lia. }
    assert (Hs' : skipn (S i) all = rest).
    { rewrite <- (Nat.add_1_r i), Nat.add_comm, <- skipn_skipn, Hs. reflexivity. }
    cbn [Approx.rle_domain_loop].
    specialize (IH (S i)). rewrite Nat.sub_succ, Nat.sub_0_r, Nb in IH.
    change (Tiers.has_adjacent_dots (nth (i - 1) all 0 :: b :: rest))
      with (((nth (i - 1) all 0 =? 46) && (b =? 46)) || Tiers.has_adjacent_dots (b :: rest)).
    cbn [forallb existsb].
    destruct (Z.eqb_spec b 46) as [->|Hb].
    + replace (Nat.ltb 0 i) with true by (symmetry; apply Nat.ltb_lt; lia).
      cbn [andb]. replace (rle_domain_char 46) with true by reflexivity.
      destruct (nth (i - 1) all 0 =? 46); cbn [andb orb negb].
      * destruct (forallb rle_domain_char rest); reflexivity.
      * rewrite IH by (auto; lia). rewrite Z.eqb_refl.
        destruct (forallb rle_domain_char rest && negb (Tiers.has_adjacent_dots (46 :: rest)));
          [rewrite orb_true_r|]; reflexivity.
    + replace (46 =? b) with false by (symmetry; apply Z.eqb_neq; congruence).
      replace (b =? 46) with false by (symmetry; apply Z.eqb_neq; exact Hb).
      rewrite andb_false_r. cbn [orb].
      unfold rle_domain_char at 1. rewrite (proj2 (Z.eqb_neq b 46) Hb), orb_false_r.
      destruct (is_ascii_alphanumeric b || (b =? 45)) eqn:Db.
      * replace (negb (is_ascii_alphanumeric b) && negb (b =? 45)) with false
          by (rewrite <- negb_orb, Db; reflexivity).
        rewrite IH by (auto; lia). cbn [andb]. reflexivity.
      * replace (negb (is_ascii_alphanumeric b) && negb (b =? 45)) with true
          by (rewrite <- negb_orb, Db; reflexivity).
        reflexivity.
Qed.

Lemma last_app_cons : forall (l d : list Z) x z, d <> [] -> last (l ++ x :: d) z = last d z.
Proof.
  induction l as [|a l IH]; intros d x z Hd.
  - destruct d as [|y d]; [contradiction|]. reflexivity.
  - cbn [app]. rewrite <- (IH d x z Hd).
    destruct l; reflexivity.
Qed.

Lemma has_adjacent_dots_at : forall d, Tiers.has_adjacent_dots (64 :: d) = Tiers.has_adjacent_dots d.
Proof. intros [|b d]; reflexivity. Qed.

Lemma pattern_match_split : forall e l d,
  bytes e = l ++ 64 :: d -> l <> [] -> forallb Approx.rle_is_local_char l = true ->
  Approx.pattern_match e =
    negb (Nat.ltb (length (bytes e)) 5 || Nat.ltb 254 (length (bytes e))) &&
    negb (match d with [] => true | _ => false end) &&
    forallb rle_domain_char d && negb (Tiers.has_adjacent_dots d) &&
    existsb (Z.eqb 46) d && negb (last d 0 =? 46).
Proof.
  intros e l d E Hl Lc. unfold Approx.pattern_match. rewrite E.
  destruct (Nat.ltb (length (l ++ 64 :: d)) 5 || Nat.ltb 254 (length (l ++ 64 :: d))); [reflexivity|].
  cbn [negb andb].
  assert (L : Approx.rle_local_loop (l ++ 64 :: d) 0 = Some (Some (S (length l)))).
  { apply rle_local_loop_spec. exists l, d. repeat split; auto.
    destruct l; [contradiction|cbn; lia]. }
  rewrite L. rewrite length_app.
  destruct d as [|b d']; cbn [length].
  - replace (Nat.leb (length l + 1) (S (length l))) with true by (symmetry; apply Nat.leb_le; lia).
    reflexivity.
  - replace (Nat.leb (length l + S (S (length d'))) (S (length l))) with false
      by (symmetry; apply Nat.leb_gt; lia).
    cbn [negb andb].
    assert (Sk : skipn (S (length l)) (l ++ 64 :: b :: d') = b :: d').
    { rewrite skipn_app, skipn_all2 by lia. cbn [app].
      replace (S (length l) - length l)%nat with 1%nat by lia. reflexivity. }
    rewrite Sk, rle_domain_loop_spec by (auto; lia).
    replace (nth (S (length l) - 1)%nat (l ++ 64 :: b :: d') 0) with 64
      by (rewrite Nat.sub_succ, Nat.sub_0_r, nth_middle; reflexivity).
    rewrite has_adjacent_dots_at.
    destruct (forallb rle_domain_char (b :: d') && negb (Tiers.has_adjacent_dots (b :: d'))); [|reflexivity].
    cbn [orb].
    replace (length l + S (S (length d')) - 1)%nat with (length (l ++ 64%Z :: b :: d') - 1)%nat
      by (rewrite length_app; cbn [length]; lia).
    rewrite nth_last by (destruct l; discriminate).
    rewrite last_app_cons by discriminate.
    destruct (existsb (Z.eqb 46) (b :: d')); reflexivity.
Qed.

(** ** [jit::ValidationState] *)

Lemma jit_run_app : forall oc s a b,
  Jit.run oc s (a ++ b) = let* s' := Jit.run oc s a in Jit.run oc s' b.
Proof.
  intros oc s a. revert s. induction a as [|x a IH]; intros s b; [reflexivity|].
  cbn [app Jit.run]. destruct (Jit.transition oc s x); cbn [bind]; auto.
Qed.

Lemma jit_rejected_stays : forall oc bs s, Jit.state s = 255 ->
  exists st, Jit.run oc s bs = Ok st /\ Jit.state st = 255.
Proof.
  intros oc. induction bs as [|b bs IH]; intros s Hs; [exists s; auto|].
  cbn [Jit.run]. unfold Jit.transition. rewrite Hs. cbn. apply IH. exact Hs.
Qed.

Lemma jit_domain_at : forall bs s, Jit.state s = 3 -> In 64 bs ->
  exists st, Jit.run false s bs = Ok st /\ Jit.state st = 255.
Proof.
  induction bs as [|b bs IH]; intros s Hs Hin; [destruct Hin|].
  cbn [Jit.run]. unfold Jit.transition. rewrite Hs. cbn [Z.eqb Pos.eqb].
  destruct (Z.eqb_spec b 64) as [->|Hb].
  - cbn. apply jit_rejected_stays. reflexivity.
  - destruct Hin as [E|Hin]; [congruence|].
    destruct (b =? 46); cbn; apply IH; auto.
Qed.

Lemma jit_domain_no_at : forall bs s, Jit.state s = 3 -> ~ In 64 bs ->
  0 <= Jit.dot_count s < 256 ->
  exists st, Jit.run false s bs = Ok st /\ Jit.state st = 3 /\
    Jit.at_count st = Jit.at_count s /\
    Jit.dot_count st = (Jit.dot_count s + dots bs) mod 256.
Proof.
  induction bs as [|b bs IH]; intros s Hs Hin Hd.
  - exists s. unfold dots. cbn. rewrite Z.add_0_r, Z.mod_small by lia. auto.
  - cbn [Jit.run]. unfold Jit.transition. rewrite Hs. cbn [Z.eqb Pos.eqb].
    assert (Hb : b <> 64) by (intros ->; apply Hin; left; reflexivity).
    rewrite (proj2 (Z.eqb_neq b 64) Hb).
    unfold dots. cbn [count_occ].
    destruct (Z.eqb_spec b 46) as [->|Hb'].
    + cbn [bind Jit.add_u8 andb Jit.state Jit.at_count Jit.dot_count].
      destruct (Z.eq_dec 46 46) as [_|]; [|congruence].
      edestruct (IH {| Jit.state := 3; Jit.at_count := Jit.at_count s;
                       Jit.dot_count := (Jit.dot_count s + 1) mod 256; Jit.last_char := 46 |})
        as [st [R [S1 [S2 S3]]]]; cbn [Jit.state Jit.dot_count]; auto.
      { intros H. apply Hin. right. exact H. }
      { apply Z.mod_pos_bound. lia. }
      exists st. split; [exact R|]. split; [exact S1|]. split; [exact S2|].
      rewrite S3. unfold dots. cbn [Jit.dot_count]. rewrite Zplus_mod_idemp_l. f_equal. lia.
    + destruct (Z.eq_dec b 46) as [|_]; [congruence|].
      cbn [bind Jit.state Jit.at_count Jit.dot_count].
      edestruct (IH {| Jit.state := Jit.state s; Jit.at_count := Jit.at_count s;
                       Jit.dot_count := Jit.dot_count s; Jit.last_char := b |})
        as [st [R [S1 [S2 S3]]]]; cbn [Jit.state Jit.dot_count]; auto.
      { intros H. apply Hin. right. exact H. }
      exists st. auto.
Qed.

Lemma jit_local : forall l s, Jit.state s = 1 -> Jit.at_count s = 0 -> ~ In 64 l ->
  exists st, Jit.run false s l = Ok st /\
    if Tiers.has_adjacent_dots (Jit.last_char s :: l) then Jit.state st = 255
    else Jit.state st = 1 /\ Jit.at_count st = 0 /\ Jit.dot_count st = Jit.dot_count s.
Proof.
  induction l as [|b l IH]; intros s Hs Ha Hin.
  - exists s. split; [reflexivity|]. cbn. auto.
  - assert (Hb : b <> 64) by (intros ->; apply Hin; left; reflexivity).
    cbn [Jit.run]. unfold Jit.transition. rewrite Hs. cbn [Z.eqb Pos.eqb].
    rewrite (proj2 (Z.eqb_neq b 64) Hb).
    change (Tiers.has_adjacent_dots (Jit.last_char s :: b :: l))
      with (((Jit.last_char s =? 46) && (b =? 46)) || Tiers.has_adjacent_dots (b :: l)).
    rewrite (andb_comm (Jit.last_char s =? 46)).
    destruct ((b =? 46) && (Jit.last_char s =? 46)); cbn [orb bind].
    + apply jit_rejected_stays. reflexivity.
    + apply (IH {| Jit.state := Jit.state s; Jit.at_count := Jit.at_count s;
                   Jit.dot_count := Jit.dot_count s; Jit.last_char := b |}); cbn; auto.
      intros H. apply Hin. right. exact H.
Qed.

Lemma jit_run_false_ok : forall bs s, exists st, Jit.run false s bs = Ok st.
Proof.
  induction bs as [|b bs IH]; intros s; [exists s; reflexivity|].
  cbn [Jit.run]. unfold Jit.transition.
  destruct (Jit.state s =? 0); [cbn [bind]; apply IH|].
  destruct (Jit.state s =? 1).
  - destruct (b =? 64); [|destruct (_ && _); cbn [bind]; apply IH].
    cbn [Jit.add_u8 andb bind]. destruct (1 <? _); cbn [bind]; apply IH.
  - destruct (Jit.state s =? 2); [cbn [bind]; apply IH|].
    destruct (Jit.state s =? 3); [|cbn [bind]; apply IH].
    destruct (b =? 64); [cbn [bind]; apply IH|].
    destruct (b =? 46); cbn [bind Jit.add_u8 andb]; apply IH.
Qed.

Lemma jit_first : forall x, Jit.transition false Jit.vs_new x =
  Ok (if (x =? 64) || (x =? 46)
      then {| Jit.state := 255; Jit.at_count := 0; Jit.dot_count := 0; Jit.last_char := x |}
      else {| Jit.state := 1; Jit.at_count := 0; Jit.dot_count := 0; Jit.last_char := x |}).
Proof. intros x. unfold Jit.transition. destruct ((x =? 64) || (x =? 46)); reflexivity. Qed.

Lemma jit_at_step : forall s, Jit.state s = 1 -> Jit.at_count s = 0 ->
  Jit.transition false s 64 =
  Ok {| Jit.state := 2; Jit.at_count := 1; Jit.dot_count := Jit.dot_count s; Jit.last_char := 64 |}.
Proof. intros s Hs Ha. unfold Jit.transition. rewrite Hs, Ha. reflexivity. Qed.

Lemma jit_dstart : forall s y, Jit.state s = 2 ->
  Jit.transition false s y =
  Ok (if (y =? 46) || (y =? 64)
      then {| Jit.state := 255; Jit.at_count := Jit.at_count s; Jit.dot_count := Jit.dot_count s; Jit.last_char := y |}
      else {| Jit.state := 3; Jit.at_count := Jit.at_count s; Jit.dot_count := Jit.dot_count s; Jit.last_char := y |}).
Proof. intros s y Hs. unfold Jit.transition. rewrite Hs. destruct ((y =? 46) || (y =? 64)); reflexivity. Qed.

Lemma dots_cons_ne : forall y d, y <> 46 -> dots (y :: d) = dots d.
Proof.
  intros y d H. unfold dots. cbn [count_occ].
  destruct (Z.eq_dec y 46); [contradiction|reflexivity].
Qed.

Ltac jit_rej H P :=
  match type of H with
  | Jit.run false ?s ?bs = Ok ?st =>
    let st' := fresh "st" in let R := fresh "R" in let S := fresh "S" in
    destruct (jit_rejected_stays false bs s P) as [st' [R S]];
    rewrite R in H; injection H as <-
  end.

Lemma jit_accepts_iff_h : forall bs,
  (exists st, Jit.run false Jit.vs_new bs = Ok st /\ Jit.can_accept st = true) <->
  exists l d, bs = l ++ 64 :: d /\ l <> [] /\ hd 0 l <> 46 /\ ~ In 64 l /\
    ~ (exists p q, l = p ++ 46 :: 46 :: q) /\
    d <> [] /\ hd 0 d <> 46 /\ ~ In 64 d /\ dots d mod 256 <> 0.
Proof.
  intros bs. split.
  - intros [st [R A]].
    destruct bs as [|x rest]; [injection R as <-; discriminate|].
    cbn [Jit.run] in R. rewrite jit_first in R. cbn [bind] in R.
    destruct ((x =? 64) || (x =? 46)) eqn:Ex.
    + jit_rej R (@eq_refl Z 255). unfold Jit.can_accept in A. rewrite S in A. discriminate.
    + apply orb_false_iff in Ex as [Ex1 Ex2].
      apply Z.eqb_neq in Ex1, Ex2.
      destruct (in_dec Z.eq_dec 64 rest) as [Hin|Hin].
      * destruct (first_at_split rest Hin) as [l' [d [-> Hl']]].
        rewrite jit_run_app in R.
        destruct (jit_local l' {| Jit.state := 1; Jit.at_count := 0; Jit.dot_count := 0; Jit.last_char := x |}
                    eq_refl eq_refl Hl') as [s2 [R2 C2]].
        rewrite R2 in R. cbn [bind Jit.last_char Jit.dot_count] in R, C2.
        destruct (Tiers.has_adjacent_dots (x :: l')) eqn:Hadj.
        -- jit_rej R C2. unfold Jit.can_accept in A. rewrite S in A. discriminate.
        -- destruct C2 as [C2a [C2b C2c]].
           cbn [Jit.run] in R. rewrite jit_at_step in R by assumption. cbn [bind] in R.
           destruct d as [|y d'].
           ++ injection R as <-. discriminate.
           ++ cbn [Jit.run] in R. rewrite jit_dstart in R by reflexivity.
              cbn [bind Jit.at_count Jit.dot_count] in R.
              destruct ((y =? 46) || (y =? 64)) eqn:Ey.
              ** jit_rej R (@eq_refl Z 255). unfold Jit.can_accept in A. rewrite S in A. discriminate.
              ** apply orb_false_iff in Ey as [Ey1 Ey2].
                 apply Z.eqb_neq in Ey1, Ey2.
                 destruct (in_dec Z.eq_dec 64 d') as [Hd|Hd].
                 --- destruct (jit_domain_at d'
                       {| Jit.state := 3; Jit.at_count := 1; Jit.dot_count := Jit.dot_count s2; Jit.last_char := y |}
                       eq_refl Hd) as [st' [R' S']].
                     rewrite R' in R. injection R as <-.
                     unfold Jit.can_accept in A. rewrite S' in A. discriminate.
                 --- destruct (jit_domain_no_at d'
                       {| Jit.state := 3; Jit.at_count := 1; Jit.dot_count := Jit.dot_count s2; Jit.last_char := y |}
                       eq_refl Hd) as [st' [R' [S1 [S2 S3]]]]; cbn [Jit.dot_count]; [lia|].
                     rewrite R' in R. injection R as <-.
                     unfold Jit.can_accept in A. rewrite S1, S2, S3 in A.
                     cbn [Jit.dot_count] in A. rewrite C2c in A.
                     exists (x :: l'), (y :: d'). repeat split.
                     +++ discriminate.
                     +++ exact Ex2.
                     +++ intros [E|E]; [congruence|exact (Hl' E)].
                     +++ rewrite <- has_adjacent_dots_iff, Hadj. discriminate.
                     +++ discriminate.
                     +++ exact Ey1.
                     +++ intros [E|E]; [congruence|exact (Hd E)].
                     +++ rewrite dots_cons_ne by exact Ey1.
                         apply andb_true_iff in A as [_ A]. apply Z.leb_le in A. rewrite Z.add_0_l in A. lia.
      * destruct (jit_local rest {| Jit.state := 1; Jit.at_count := 0; Jit.dot_count := 0; Jit.last_char := x |}
                    eq_refl eq_refl Hin) as [s2 [R2 C2]].
        rewrite R2 in R. injection R as <-. cbn [Jit.last_char Jit.dot_count] in C2.
        unfold Jit.can_accept in A.
        destruct (Tiers.has_adjacent_dots (x :: rest)).
        -- rewrite C2 in A. discriminate.
        -- destruct C2 as [C2 _]. rewrite C2 in A. discriminate.
  - intros [l [d [-> [Hl [Hh [Hla [Hdd [Hd [Hdh [Hda Hdots]]]]]]]]]].
    destruct l as [|x l']; [contradiction|]. destruct d as [|y d']; [contradiction|].
    cbn [hd] in Hh, Hdh.
    assert (Hx : x <> 64) by (intros ->; apply Hla; left; reflexivity).
    assert (Hl' : ~ In 64 l') by (intros E; apply Hla; right; exact E).
    assert (Hy : y <> 64) by (intros ->; apply Hda; left; reflexivity).
    assert (Hd' : ~ In 64 d') by (intros E; apply Hda; right; exact E).
    cbn [app Jit.run]. rewrite jit_first.
    replace ((x =? 64) || (x =? 46)) with false
      by (symmetry; apply orb_false_iff; split; apply Z.eqb_neq; assumption).
    cbn [bind]. rewrite jit_run_app.
    destruct (jit_local l' {| Jit.state := 1; Jit.at_count := 0; Jit.dot_count := 0; Jit.last_char := x |}
                eq_refl eq_refl Hl') as [s2 [R2 C2]].
    rewrite R2. cbn [bind Jit.last_char Jit.dot_count] in C2 |- *.
    replace (Tiers.has_adjacent_dots (x :: l')) with false in C2
      by (symmetry; apply not_true_iff_false; rewrite has_adjacent_dots_iff; exact Hdd).
    destruct C2 as [C2a [C2b C2c]].
    cbn [Jit.run]. rewrite jit_at_step by assumption. cbn [bind Jit.run].
    rewrite jit_dstart by reflexivity.
    replace ((y =? 46) || (y =? 64)) with false
      by (symmetry; apply orb_false_iff; split; apply Z.eqb_neq; assumption).
    cbn [bind].
    destruct (jit_domain_no_at d'
      {| Jit.state := 3; Jit.at_count := 1; Jit.dot_count := Jit.dot_count s2; Jit.last_char := y |}
      eq_refl Hd') as [st' [R' [S1 [S2 S3]]]]; cbn [Jit.dot_count]; [lia|].
    exists st'. split; [exact R'|].
    unfold Jit.can_accept. rewrite S1, S2, S3. cbn [Jit.dot_count]. rewrite C2c.
    rewrite dots_cons_ne in Hdots by exact Hdh.
    cbn [Z.eqb Pos.eqb andb]. apply Z.leb_le.
    rewrite Z.add_0_l. pose proof (Z.mod_pos_bound (dots d') 256 ltac:(lia)). lia.
Qed.

(** ** [approximate::EmailFilter] *)

Lemma nth_replace_other : forall (l : list Z) i j v, (i < length l)%nat -> j <> i ->
  nth j (Prefetch.replace_nth l i v) 0 = nth j l 0.
Proof.
  unfold Prefetch.replace_nth.
  induction l as [|x l IH]; intros i j v Hi H.
  - cbn in Hi. lia.
  - destruct i as [|i].
    + destruct j as [|j]; [lia|]. reflexivity.
    + destruct j as [|j]; [reflexivity|].
      cbn [firstn app]. rewrite skipn_cons. cbn [nth]. apply IH; cbn in Hi; lia.
Qed.

Lemma get_bit_testbit : forall bits idx, 0 <= idx ->
  Approx.get_bit bits idx = Z.testbit (nth (Z.to_nat (idx / 64)) bits 0) (idx mod 64).
Proof.
  intros bits idx H. unfold Approx.get_bit.
  set (x := nth (Z.to_nat (idx / 64)) bits 0).
  change 1 with (Z.ones 1) at 1. rewrite Z.land_ones by lia.
  rewrite Zmod_odd, <- Z.bit0_odd, Z.shiftr_spec by lia.
  pose proof (Z.mod_pos_bound idx 64 ltac:(lia)).
  rewrite Z.add_0_l. destruct (Z.testbit x (idx mod 64)); reflexivity.
Qed.

Lemma set_bit_length : forall bits i, length bits = 32%nat -> 0 <= i < 2048 ->
  length (Approx.set_bit bits i) = 32%nat.
Proof.
  intros bits i Hl Hi. unfold Approx.set_bit. rewrite length_replace; [exact Hl|].
  rewrite Hl. assert (i / 64 < 32) by (apply Z.div_lt_upper_bound; lia).
  assert (0 <= i / 64) by (apply Z.div_pos; lia). lia.
Qed.

Lemma get_set_bit : forall bits i j, length bits = 32%nat -> 0 <= i < 2048 -> 0 <= j ->
  Approx.get_bit (Approx.set_bit bits i) j = Approx.get_bit bits j || (i =? j).
Proof.
  intros bits i j Hl Hi Hj. rewrite !get_bit_testbit by lia. unfold Approx.set_bit.
  assert (i / 64 < 32) by (apply Z.div_lt_upper_bound; lia).
  assert (0 <= i / 64) by (apply Z.div_pos; lia).
  assert (0 <= j / 64) by (apply Z.div_pos; lia).
  pose proof (Z.mod_pos_bound i 64 ltac:(lia)).
  pose proof (Z.mod_pos_bound j 64 ltac:(lia)).
  destruct (Z.eq_dec (i / 64) (j / 64)) as [E|E].
  - rewrite <- E, nth_replace by lia.
    rewrite Z.lor_spec, Z.shiftl_1_l, Z.pow2_bits_eqb by lia. f_equal.
    assert (Hij : i = j <-> i mod 64 = j mod 64).
    { rewrite (Z.div_mod i 64), (Z.div_mod j 64) at 1 by lia. split; intros; subst; lia. }
    destruct (Z.eqb_spec i j) as [->|Nij]; [apply Z.eqb_refl|].
    apply Z.eqb_neq. intros X. apply Nij, Hij, X.
  - rewrite nth_replace_other by lia.
    replace (i =? j) with false; [rewrite orb_false_r; reflexivity|].
    symmetry. apply Z.eqb_neq. intros ->. contradiction.
Qed.

Lemma mod2048 : forall h, 0 <= h mod 2048 < 2048.
Proof. intros h. apply Z.mod_pos_bound. lia. Qed.

Lemma set_bit_keeps : forall bits i j, length bits = 32%nat -> 0 <= i < 2048 -> 0 <= j ->
  Approx.get_bit bits j = true -> Approx.get_bit (Approx.set_bit bits i) j = true.
Proof. intros. rewrite get_set_bit by assumption. apply orb_true_iff. left. assumption. Qed.

Lemma set_bit_sets : forall bits i, length bits = 32%nat -> 0 <= i < 2048 ->
  Approx.get_bit (Approx.set_bit bits i) i = true.
Proof. intros. rewrite get_set_bit by (auto; lia). rewrite Z.eqb_refl, orb_true_r. reflexivity. Qed.

Lemma filter_add_spec : forall oc bits e bits', length bits = 32%nat ->
  Approx.filter_add oc bits e = Ok bits' ->
  length bits' = 32%nat /\
  (forall j, 0 <= j -> Approx.get_bit bits j = true -> Approx.get_bit bits' j = true) /\
  Approx.might_be_valid oc bits' e = Ok true.
Proof.
  intros oc bits e bits' Hl H. unfold Approx.filter_add in H.
  destruct (Approx.hash2 oc e) as [h2| |] eqn:H2; cbn [bind] in H; try discriminate.
  injection H as <-.
  set (i1 := Approx.hash1 e mod 2048). set (i2 := h2 mod 2048). set (i3 := Approx.hash3 e mod 2048).
  assert (B1 : 0 <= i1 < 2048) by apply mod2048.
  assert (B2 : 0 <= i2 < 2048) by apply mod2048.
  assert (B3 : 0 <= i3 < 2048) by apply mod2048.
  assert (L1 : length (Approx.set_bit bits i1) = 32%nat) by (apply set_bit_length; auto).
  assert (L2 : length (Approx.set_bit (Approx.set_bit bits i1) i2) = 32%nat)
    by (apply set_bit_length; auto).
  split; [apply set_bit_length; auto|]. split.
  - intros j Hj Hb. repeat apply set_bit_keeps; auto.
  - unfold Approx.might_be_valid. rewrite H2. cbn [bind]. fold i1 i2 i3.
    rewrite (set_bit_sets _ i3 L2 B3).
    rewrite (set_bit_keeps _ i3 i2 L2 B3 (proj1 B2) (set_bit_sets _ i2 L1 B2)).
    rewrite (set_bit_keeps _ i3 i1 L2 B3 (proj1 B1)
               (set_bit_keeps _ i2 i1 L1 B2 (proj1 B1) (set_bit_sets _ i1 Hl B1))).
    reflexivity.
Qed.

Lemma might_be_valid_mono : forall oc bits bits' e,
  (forall j, 0 <= j -> Approx.get_bit bits j = true -> Approx.get_bit bits' j = true) ->
  Approx.might_be_valid oc bits e = Ok true -> Approx.might_be_valid oc bits' e = Ok true.
Proof.
  intros oc bits bits' e Hm H. unfold Approx.might_be_valid in *.
  destruct (Approx.hash2 oc e); cbn [bind] in *; try discriminate.
  injection H as H. f_equal. rewrite !andb_true_iff in H |- *.
  destruct H as [[H1 H2] H3].
  repeat split; apply Hm; auto; apply mod2048.
Qed.

Lemma filter_add_all_spec : forall oc es bits bits', length bits = 32%nat ->
  Approx.filter_add_all oc bits es = Ok bits' ->
  length bits' = 32%nat /\
  (forall j, 0 <= j -> Approx.get_bit bits j = true -> Approx.get_bit bits' j = true) /\
  (forall e, In e es -> Approx.might_be_valid oc bits' e = Ok true).
Proof.
  intros oc. induction es as [|e es IH]; intros bits bits' Hl H.
  - injection H as <-. repeat split; auto. intros e [].
  - cbn [Approx.filter_add_all] in H.
    destruct (Approx.filter_add oc bits e) as [b1| |] eqn:F; cbn [bind] in H; try discriminate.
    destruct (filter_add_spec oc bits e b1 Hl F) as [L1 [M1 V1]].
    destruct (IH b1 bits' L1 H) as [L2 [M2 V2]].
    split; [exact L2|]. split; [auto|].
    intros x [Ex|Hx]; [subst x|auto].
    exact (might_be_valid_mono oc b1 bits' e M2 V1).
Qed.

(** ** [approximate::NeuralValidator] *)

Lemma filter_none : forall (A : Type) (p : A -> bool) l,
  (forall x, In x l -> p x = false) -> filter p l = [].
Proof.
  intros A p. induction l as [|x l IH]; intros H; [reflexivity|].
  cbn [filter]. rewrite (H x (or_introl eq_refl)). apply IH. intros y Hy. apply H. right. exact Hy.
Qed.

Lemma lowercase_not : forall b, is_ascii_lowercase b = true ->
  (b =? 64) = false /\ (b =? 46) = false /\ is_ascii_uppercase b = false /\
  is_ascii_digit b = false /\ is_ascii_alphabetic b = true.
Proof.
  intros b H. unfold is_ascii_lowercase, is_ascii_alphabetic, is_ascii_uppercase,
    is_ascii_digit, in_range in *.
  apply andb_true_iff in H as [H1 H2]. apply Z.leb_le in H1, H2.
  repeat split; try (apply Z.eqb_neq; lia).
  - apply andb_false_iff. right. apply Z.leb_gt. lia.
  - apply andb_false_iff. right. apply Z.leb_gt. lia.
  - rewrite orb_true_iff. right. apply andb_true_iff. split; apply Z.leb_le; lia.
Qed.

Lemma score_lowercase : forall e, forallb is_ascii_lowercase (bytes e) = true ->
  (3 <= length (bytes e) <= 254)%nat ->
  Approx.score Approx.neural_new e = 10 * Z.of_nat (length (bytes e)) + 23.
Proof.
  intros e Hl Hn. unfold Approx.score.
  set (bs := bytes e) in *. set (n := length bs) in *.
  pose proof (proj1 (forallb_forall _ _) Hl) as Hb.
  replace (Nat.ltb n 3 || Nat.ltb 254 n) with false
    by (symmetry; apply orb_false_iff; split; apply Nat.ltb_ge; lia).
  unfold Approx.count_bytes.
  rewrite (filter_none _ (Z.eqb 64) bs) by (intros x Hx; rewrite Z.eqb_sym; apply (lowercase_not x (Hb x Hx))).
  rewrite (filter_none _ (Z.eqb 46) bs) by (intros x Hx; rewrite Z.eqb_sym; apply (lowercase_not x (Hb x Hx))).
  rewrite (filter_none _ is_ascii_uppercase bs) by (intros x Hx; apply (lowercase_not x (Hb x Hx))).
  rewrite (filter_none _ is_ascii_digit bs) by (intros x Hx; apply (lowercase_not x (Hb x Hx))).
  assert (In0 : In (nth 0 bs 0) bs) by (apply nth_In; lia).
  assert (Inl : In (nth (n - 1) bs 0) bs) by (apply nth_In; lia).
  rewrite (proj2 (proj2 (proj2 (proj2 (lowercase_not _ (Hb _ In0)))))).
  rewrite (proj1 (proj2 (lowercase_not _ (Hb _ In0)))).
  rewrite (proj1 (proj2 (lowercase_not _ (Hb _ Inl)))).
  rewrite (filter_none _ _ (seq 0 (n - 1))).
  - cbn [fold_left seq nth Z.b2z negb andb Approx.weights Approx.neural_new]. change (length (@nil Z)) with 0%nat. change (length (@nil nat)) with 0%nat. cbn [Z.of_nat]. lia.
  - intros i Hi. apply in_seq in Hi.
    assert (In (nth i bs 0) bs) by (apply nth_In; lia).
    rewrite (proj1 (proj2 (lowercase_not _ (Hb _ H)))). reflexivity.
Qed.

(** ** [syntax::validate_local_part] *)

Lemma has_adjacent_dots_cons_ne : forall b bs, b <> 46 ->
  Tiers.has_adjacent_dots (b :: bs) = Tiers.has_adjacent_dots bs.
Proof.
  intros b [|c bs] H; [reflexivity|].
  change (Tiers.has_adjacent_dots (b :: c :: bs))
    with (((b =? 46) && (c =? 46)) || Tiers.has_adjacent_dots (c :: bs)).
  rewrite (proj2 (Z.eqb_neq b 46) H). reflexivity.
Qed.

Lemma local_scan_false_spec : forall bs p,
  local_scan false p bs = Ok tt <->
  forallb atext_or_dot bs = true /\
  Tiers.has_adjacent_dots ((if p then [46] else []) ++ bs) = false.
Proof.
  induction bs as [|b bs IH]; intros p.
  - destruct p; cbn; tauto.
  - cbn [local_scan forallb].
    destruct (Z.eqb_spec b 46) as [->|Hb].
    + destruct p.
      * split; [discriminate|]. intros [_ H]. discriminate.
      * rewrite IH. cbn [app]. replace (atext_or_dot 46) with true by reflexivity. tauto.
    + unfold is_valid_local_byte. rewrite (proj2 (Z.eqb_neq b 46) Hb), orb_false_r.
      cbn [andb]. rewrite andb_false_r.
      unfold atext_or_dot at 1. rewrite (proj2 (Z.eqb_neq b 46) Hb), orb_false_r.
      destruct (is_atext b); cbn [negb andb].
      * rewrite IH. cbn [app].
        replace (Tiers.has_adjacent_dots ((if p then [46] else []) ++ b :: bs))
          with (Tiers.has_adjacent_dots bs); [tauto|].
        destruct p; cbn [app].
        -- change (Tiers.has_adjacent_dots (46 :: b :: bs))
             with (((46 =? 46) && (b =? 46)) || Tiers.has_adjacent_dots (b :: bs)).
           rewrite (proj2 (Z.eqb_neq b 46) Hb), andb_false_r. cbn [orb].
           symmetry. apply has_adjacent_dots_cons_ne. exact Hb.
        -- symmetry. apply has_adjacent_dots_cons_ne. exact Hb.
      * split; [discriminate|]. intros [H _]. discriminate.
Qed.

Lemma nth_error_last_some : forall (l : list Z), l <> [] -> nth_error l (length l - 1) = Some (last l 0).
Proof.
  intros l H. rewrite (nth_error_nth' l 0).
  - rewrite nth_last by exact H. reflexivity.
  - destruct l; [contradiction|cbn; lia].
Qed.

Lemma validate_local_part_shape : forall l allow,
  validate_local_part l allow =
  if Nat.eqb (len l) 0 then Err Empty
  else if Nat.ltb 64 (len l) then Err LocalPartTooLong
  else if hd 0 (bytes l) =? 46 then Err LeadingDot
  else if last (bytes l) 0 =? 46 then Err TrailingDot
  else
    let* _ := local_scan allow false (bytes l) in
    if allow && existsb (fun b => 128 <=? b) (bytes l) then
      if existsb (fun c => (127 <? c) && is_unsafe_unicode c) l
      then Err InvalidCharacter else Ok tt
    else Ok tt.
Proof.
  intros l allow. unfold validate_local_part, is_empty.
  destruct (Nat.eqb_spec (len l) 0) as [|Hn]; [reflexivity|].
  destruct (Nat.ltb 64 (len l)); [reflexivity|].
  assert (Hb : bytes l <> []) by (intros E; apply Hn; unfold len; rewrite E; reflexivity).
  destruct (bytes l) as [|b0 bs] eqn:E; [contradiction|].
  cbn [nth_error unwrap bind hd].
  destruct (b0 =? 46); [reflexivity|].
  rewrite nth_error_last_some by exact Hb. reflexivity.
Qed.

Lemma is_atext_ascii : forall b, is_atext b = true -> 0 <= b < 128.
Proof.
  intros b H. unfold is_atext, in_range in H. cbn [existsb] in H.
  repeat match goal with H : _ || _ = true |- _ => apply orb_true_iff in H as [H|H] end;
    try discriminate;
    try (apply andb_true_iff in H as [H1 H2]; apply Z.leb_le in H1, H2; lia);
    apply Z.eqb_eq in H; lia.
Qed.

Lemma local_scan_flag : forall bs p, forallb atext_or_dot bs = true ->
  local_scan true p bs = local_scan false p bs.
Proof.
  induction bs as [|b bs IH]; intros p H; [reflexivity|].
  cbn [forallb] in H. apply andb_true_iff in H as [Hb H].
  cbn [local_scan]. destruct (b =? 46) eqn:E; [destruct p; [reflexivity|apply IH; exact H]|].
  unfold atext_or_dot in Hb. rewrite E, orb_false_r in Hb.
  unfold is_valid_local_byte. rewrite Hb. cbn [orb negb]. apply IH. exact H.
Qed.

(** ** [domain::validate_domain] *)

Lemma in_tl : forall (A : Type) (x : A) l, In x (tl l) -> In x l.
Proof. intros A x [|y l] H; [destruct H|right; exact H]. Qed.

Lemma split_on_adjacent : forall p q, In [] (tl (split_on 46 (p ++ 46 :: 46 :: q))).
Proof.
  induction p as [|x p IH]; intros q.
  - cbn. left. reflexivity.
  - cbn [app split_on]. destruct (x =? 46).
    + cbn [tl]. apply in_tl. apply IH.
    + specialize (IH q). destruct (split_on 46 (p ++ 46 :: 46 :: q)); [destruct IH|exact IH].
Qed.

Lemma split_on_trailing : forall p, In [] (tl (split_on 46 (p ++ [46]))).
Proof.
  induction p as [|x p IH].
  - cbn. left. reflexivity.
  - cbn [app split_on]. destruct (x =? 46).
    + cbn [tl]. apply in_tl. apply IH.
    + destruct (split_on 46 (p ++ [46])); [destruct IH|exact IH].
Qed.

Lemma split_on_nonempty : forall a, (forall lab, In lab (split_on 46 a) -> lab <> []) ->
  a <> [] /\ hd 0 a <> 46 /\ last a 0 <> 46 /\ ~ (exists p q, a = p ++ 46 :: 46 :: q).
Proof.
  intros a H. assert (Ha : a <> []) by (intros ->; apply (H []); [left|]; reflexivity).
  split; [exact Ha|]. split; [|split].
  - destruct a as [|x a]; [contradiction|]. cbn [hd]. intros ->.
    apply (H []); [cbn [split_on]; rewrite Z.eqb_refl; left|]; reflexivity.
  - intros E. rewrite (app_removelast_last 0 Ha), E in H.
    apply (H []); [apply in_tl, split_on_trailing|reflexivity].
  - intros [p [q E]]. rewrite E in H.
    apply (H []); [apply in_tl, split_on_adjacent|reflexivity].
Qed.

Lemma validate_labels_Ok : forall ls, validate_labels ls = Ok tt \/ validate_labels ls <> Ok tt.
Proof. intros ls. destruct (validate_labels ls) as [[]| |]; [left; reflexivity|right; discriminate..]. Qed.

Lemma validate_domain_label_shape : forall lab, validate_domain_label lab = Ok tt ->
  lab <> [] /\ (len lab <= 63)%nat /\ starts_with_byte lab 45 = false /\ ends_with_byte lab 45 = false.
Proof.
  intros lab H. unfold validate_domain_label, is_empty in H.
  destruct (Nat.eqb_spec (len lab) 0) as [|Hn]; [discriminate|].
  destruct (Nat.ltb_spec 63 (len lab)); [discriminate|].
  destruct (starts_with_byte lab 45) eqn:S; [discriminate|].
  destruct (ends_with_byte lab 45) eqn:En; [discriminate|].
  repeat split; auto. intros ->. apply Hn. reflexivity.
Qed.

Lemma forallb_false_in : forall (A : Type) (f : A -> bool) l,
  forallb f l = false -> exists x, In x l /\ f x = false.
Proof.
  intros A f. induction l as [|x l IH]; intros H; [discriminate|].
  cbn [forallb] in H. apply andb_false_iff in H as [H|H].
  - exists x. split; [left; reflexivity|exact H].
  - destruct (IH H) as [y [Hy Hf]]. exists y. split; [right; exact Hy|exact Hf].
Qed.

Lemma validate_local_part_ascii_iff_h : forall l,
  validate_local_part l false = Ok tt <->
  (1 <= len l <= 64)%nat /\ hd 0 (bytes l) <> 46 /\ last (bytes l) 0 <> 46 /\
  forallb atext_or_dot (bytes l) = true /\
  ~ (exists p q, bytes l = p ++ 46 :: 46 :: q).
Proof.
  intros l. rewrite validate_local_part_shape.
  destruct (Nat.eqb_spec (len l) 0) as [|Hn].
  { split; [discriminate|lia]. }
  destruct (Nat.ltb_spec 64 (len l)).
  { split; [discriminate|lia]. }
  destruct (Z.eqb_spec (hd 0 (bytes l)) 46).
  { split; [discriminate|tauto]. }
  destruct (Z.eqb_spec (last (bytes l) 0) 46).
  { split; [discriminate|tauto]. }
  destruct (local_scan false false (bytes l)) as [[]|x|] eqn:S; cbn [bind andb].
  - apply local_scan_false_spec in S as [S1 S2]. cbn [app] in S2.
    split; [intros _|intros; reflexivity].
    repeat split; auto; try lia.
    rewrite <- has_adjacent_dots_iff, S2. discriminate.
  - split; [discriminate|].
    intros [_ [_ [_ [F A]]]].
    assert (Ok tt = Err x); [|discriminate].
    rewrite <- S. symmetry. apply local_scan_false_spec. split; [exact F|].
    cbn [app]. apply not_true_iff_false. rewrite has_adjacent_dots_iff. exact A.
  - exfalso. exact (local_scan_not_panic _ _ _ S).
Qed.

(** ** [lazy::BranchlessValidator] *)

Lemma shl_u32_small : forall oc c i, (i < 32)%nat ->
  Branchless.shl_u32 oc (Z.b2z c) i = Ok (Z.b2z c * 2 ^ Z.of_nat i).
Proof.
  intros oc c i Hi. unfold Branchless.shl_u32.
  replace (Nat.leb 32 i) with false by (symmetry; apply Nat.leb_gt; lia).
  rewrite andb_false_r. f_equal.
  rewrite (Z.mod_small (Z.of_nat i) 32) by lia. rewrite Z.shiftl_mul_pow2 by lia.
  assert (0 < 2 ^ Z.of_nat i < 2 ^ 32).
  { split; [apply Z.pow_pos_nonneg; lia|apply Z.pow_lt_mono_r; lia]. }
  apply Z.mod_small. destruct c; cbn [Z.b2z]; lia.
Qed.

Lemma branchless_loop_small : forall oc bs i mask at_pos, (i + length bs <= 32)%nat ->
  Branchless.branchless_loop oc bs i mask at_pos =
  Ok (Z.lor mask (Branchless.at_bits bs i), Branchless.last_at bs i at_pos).
Proof.
  intros oc. induction bs as [|b bs IH]; intros i mask at_pos H.
  - cbn. rewrite Z.lor_0_r. reflexivity.
  - cbn [Branchless.branchless_loop Branchless.at_bits Branchless.last_at length] in *.
    rewrite shl_u32_small by lia. cbn [bind]. rewrite IH by lia.
    rewrite Z.lor_assoc. destruct (b =? 64); reflexivity.
Qed.

Lemma at_bits_testbit : forall bs i k,
  Z.testbit (Branchless.at_bits bs i) (Z.of_nat k) = Nat.leb i k && (nth (k - i) bs 0 =? 64).
Proof.
  induction bs as [|b bs IH]; intros i k.
  - cbn [Branchless.at_bits]. rewrite Z.testbit_0_l.
    destruct (k - i)%nat; rewrite andb_false_r; reflexivity.
  - cbn [Branchless.at_bits]. rewrite Z.lor_spec, IH.
    assert (Hb : Z.testbit (Z.b2z (b =? 64) * 2 ^ Z.of_nat i) (Z.of_nat k) =
                 (b =? 64) && Nat.eqb i k).
    { destruct (b =? 64); cbn [Z.b2z andb].
      - rewrite Z.mul_1_l, Z.pow2_bits_eqb by lia.
        destruct (Nat.eqb_spec i k); [subst; apply Z.eqb_refl|apply Z.eqb_neq; lia].
      - apply Z.testbit_0_l. }
    rewrite Hb.
    destruct (Nat.eqb_spec i k) as [Eik|Hik]; [subst k|].
    + rewrite Nat.sub_diag, Nat.leb_refl. cbn [nth andb].
      replace (Nat.leb (S i) i) with false by (symmetry; apply Nat.leb_gt; lia).
      rewrite andb_false_l. destruct (b =? 64); reflexivity.
    + rewrite andb_false_r, orb_false_l.
      destruct (Nat.leb_spec (S i) k); destruct (Nat.leb_spec i k); try lia; cbn [andb].
      * replace (k - i)%nat with (S (k - S i)) by lia. reflexivity.
Qed.

Lemma length_filter_map_S : forall (f : nat -> bool) l,
  length (filter f (map S l)) = length (filter (fun k => f (S k)) l).
Proof.
  intros f. induction l as [|x l IH]; [reflexivity|].
  cbn [map filter]. destruct (f (S x)); cbn [length]; rewrite IH; reflexivity.
Qed.

Lemma filter_nth_at_count : forall bs m, (length bs <= m)%nat ->
  length (filter (fun k => nth k bs 0 =? 64) (seq 0 m)) = count_occ Z.eq_dec bs 64.
Proof.
  induction bs as [|b bs IH]; intros m H.
  - cbn [count_occ]. rewrite filter_none; [reflexivity|].
    intros k _. destruct k; reflexivity.
  - destruct m as [|m]; [cbn in H; lia|].
    cbn [seq filter count_occ]. rewrite <- seq_shift.
    change (nth 0 (b :: bs) 0) with b.
    destruct (Z.eq_dec b 64) as [->|Hb].
    + rewrite Z.eqb_refl. cbn [length]. rewrite length_filter_map_S.
      f_equal. apply IH. cbn in H. lia.
    + rewrite (proj2 (Z.eqb_neq b 64) Hb). rewrite length_filter_map_S.
      apply IH. cbn in H. lia.
Qed.

Lemma count_ones_at_bits : forall bs, (length bs <= 32)%nat ->
  Branchless.count_ones (Branchless.at_bits bs 0) = count_occ Z.eq_dec bs 64.
Proof.
  intros bs H. unfold Branchless.count_ones.
  rewrite <- (filter_nth_at_count bs 32 H). f_equal. apply filter_ext. intros k.
  rewrite at_bits_testbit, Nat.sub_0_r. reflexivity.
Qed.

Lemma count_at_one : forall bs, count_occ Z.eq_dec bs 64 = 1%nat <->
  exists l d, bs = l ++ 64 :: d /\ ~ In 64 l /\ ~ In 64 d.
Proof.
  intros bs. split.
  - intros H. assert (Hin : In 64 bs) by (apply (count_occ_In Z.eq_dec); lia).
    destruct (first_at_split bs Hin) as [l [d [-> Hl]]].
    exists l, d. split; [reflexivity|]. split; [exact Hl|].
    rewrite count_occ_app in H. cbn [count_occ] in H.
    destruct (Z.eq_dec 64 64) as [_|]; [|congruence].
    rewrite (proj1 (count_occ_not_In Z.eq_dec l 64) Hl) in H.
    apply (count_occ_not_In Z.eq_dec). lia.
  - intros [l [d [-> [Hl Hd]]]]. rewrite count_occ_app. cbn [count_occ].
    destruct (Z.eq_dec 64 64) as [_|]; [|congruence].
    rewrite (proj1 (count_occ_not_In Z.eq_dec l 64) Hl), (proj1 (count_occ_not_In Z.eq_dec d 64) Hd).
    reflexivity.
Qed.

Lemma last_at_none : forall d i a, ~ In 64 d -> Branchless.last_at d i a = a.
Proof.
  induction d as [|b d IH]; intros i a H; [reflexivity|].
  cbn [Branchless.last_at]. rewrite (proj2 (Z.eqb_neq b 64)) by (intros ->; apply H; left; reflexivity).
  apply IH. intros E. apply H. right. exact E.
Qed.

Lemma last_at_split : forall l d i a, ~ In 64 d ->
  Branchless.last_at (l ++ 64 :: d) i a = (i + length l)%nat.
Proof.
  induction l as [|x l IH]; intros d i a H.
  - cbn. rewrite last_at_none by exact H. lia.
  - cbn [app Branchless.last_at length]. rewrite IH by exact H. lia.
Qed.

Lemma branchless_loop_panic : forall bs i mask at_pos, (i <= 32)%nat -> (32 < i + length bs)%nat ->
  Branchless.branchless_loop true bs i mask at_pos = Panic.
Proof.
  induction bs as [|b bs IH]; intros i mask at_pos H1 H2; [cbn in H2; lia|].
  cbn [Branchless.branchless_loop]. destruct (Nat.eq_dec i 32) as [->|Hi].
  - reflexivity.
  - rewrite shl_u32_small by lia. cbn [bind]. apply IH; cbn in H2; lia.
Qed.

(** ** Results *)

(** The SWAR test of [find_at] is exact on any 8 bytes. *)
Theorem simd_has_at_exact : forall c, all_bytes c -> length c = 8%nat ->
  Simd.has_at (Simd.le_u64 c) = existsb (Z.eqb 64) c.
Proof. exact has_at_exact. Qed.

Lemma simd_has_at_exact_witness :
  all_bytes [0; 64; 255; 1; 65; 63; 128; 192] /\ length [0; 64; 255; 1; 65; 63; 128; 192] = 8%nat /\
  Simd.has_at (Simd.le_u64 [0; 64; 255; 1; 65; 63; 128; 192])
  = existsb (Z.eqb 64) [0; 64; 255; 1; 65; 63; 128; 192].
Proof.
  assert (H : all_bytes [0; 64; 255; 1; 65; 63; 128; 192]).
  { intros b Hb. repeat (destruct Hb as [<-|Hb]; [lia|]). destruct Hb. }
  split; [exact H|]. split; [reflexivity|].
  apply simd_has_at_exact; [exact H|reflexivity].
Defined.

(** [SimdValidator::find_at] and [count_at]: the 8-byte chunked scans give
    the position of the first '@' byte and the number of '@' bytes of the
    whole string, tail included. *)
Theorem simd_find_count_at : forall email, valid_str email = true ->
  Simd.find_at email = Simd.position (Z.eqb 64) (bytes email) /\
  Simd.count_at email = Simd.count_in (bytes email).
Proof. exact find_count_at_bytes. Qed.

Lemma simd_find_count_at_witness :
  valid_str long_dotted = true /\
  Simd.find_at long_dotted = Simd.position (Z.eqb 64) (bytes long_dotted) /\
  Simd.count_at long_dotted = Simd.count_in (bytes long_dotted).
Proof.
  assert (H : valid_str long_dotted = true) by (vm_compute; reflexivity).
  split; [exact H|]. apply simd_find_count_at, H.
Defined.

(** [SimdValidator::is_valid_ascii] checks only the high bit of the bytes in
    the full 8-byte chunks, and the range [0x20..0x80) only in the tail after
    the last full chunk: control bytes inside a full chunk are accepted. *)
Theorem simd_is_valid_ascii_iff : forall email, valid_str email = true ->
  let n := (8 * (len email / 8))%nat in
  Simd.is_valid_ascii email
  = forallb (fun b => b <? 128) (firstn n (bytes email))
    && forallb (in_range 0x20 0x7F) (skipn n (bytes email)).
Proof.
  intros email Hv n. unfold Simd.is_valid_ascii.
  rewrite is_valid_ascii_loop_eq.
  - cbn [skipn]. rewrite Nat.sub_0_r. reflexivity.
  - apply bytes_all_bytes, Hv.
  - lia.
  - unfold len. lia.
Qed.

Lemma simd_is_valid_ascii_iff_witness :
  valid_str long_dotted = true /\
  Simd.is_valid_ascii long_dotted
  = forallb (fun b => b <? 128) (firstn (8 * (len long_dotted / 8)) (bytes long_dotted))
    && forallb (in_range 0x20 0x7F) (skipn (8 * (len long_dotted / 8)) (bytes long_dotted)).
Proof.
  assert (H : valid_str long_dotted = true) by (vm_compute; reflexivity).
  split; [exact H|]. exact (simd_is_valid_ascii_iff long_dotted H).
Defined.

(** [PortableSimd::validate_email_fast] never panics, and when it returns
    [Some(true)] the string has at least 16 bytes, is ASCII, and is [l@d] with
    [l] nonempty, exactly one '@', and a dot in [d]. *)
Theorem simd_validate_email_fast_sound : forall email, valid_str email = true ->
  Simd.validate_email_fast email <> Panic /\
  (Simd.validate_email_fast email = Ok (Some true) ->
   (16 <= len email)%nat /\ (forall c, In c email -> 0 <= c < 128) /\
   exists l d, email = l ++ 64 :: d /\ l <> [] /\ ~ In 64 l /\ ~ In 64 d /\ In 46 d).
Proof. exact validate_email_fast_sound_h. Qed.

Lemma simd_validate_email_fast_sound_witness :
  valid_str long_dotted = true /\ Simd.validate_email_fast long_dotted <> Panic.
Proof.
  assert (H : valid_str long_dotted = true) by (vm_compute; reflexivity).
  split; [exact H|]. exact (proj1 (simd_validate_email_fast_sound long_dotted H)).
Defined.

(** [count_at_swar] returns the exact number of '@' bytes and the position
    of the first one: the SWAR chunk filter loses no '@'. *)
Theorem count_at_swar_exact : forall s, valid_str s = true ->
  Lookup.count_at_swar s = (Simd.count_in (bytes s), Simd.position (Z.eqb 64) (bytes s)).
Proof.
  intros s Hv. unfold Lookup.count_at_swar.
  rewrite count_at_swar_loop_spec.
  - cbn [skipn]. rewrite scan_at_spec. cbn [Nat.add].
    destruct (Simd.position _ _); reflexivity.
  - apply bytes_all_bytes, Hv.
  - unfold len. lia.
Qed.

Lemma count_at_swar_exact_witness :
  valid_str long_dotted = true /\
  Lookup.count_at_swar long_dotted
  = (Simd.count_in (bytes long_dotted), Simd.position (Z.eqb 64) (bytes long_dotted)).
Proof.
  assert (H : valid_str long_dotted = true) by (vm_compute; reflexivity).
  split; [exact H|]. exact (count_at_swar_exact long_dotted H).
Defined.

(** [has_consecutive_dots] returns [true] exactly when the string has two
    adjacent '.' bytes; the unused chunk loop changes nothing. *)
Theorem has_consecutive_dots_iff : forall s,
  Lookup.has_consecutive_dots s = true <-> exists p q, bytes s = p ++ 46 :: 46 :: q.
Proof.
  intros s. unfold Lookup.has_consecutive_dots. set (bs := bytes s).
  destruct (Nat.ltb_spec (length bs) 2) as [Hl|Hl].
  - split; [discriminate|]. intros [p [q E]].
    apply (f_equal (@length Z)) in E. rewrite length_app in E. cbn in E. lia.
  - rewrite existsb_exists. split.
    + intros [i [Hi Hd]]. apply in_seq in Hi.
      rewrite Bool.andb_true_iff, !Z.eqb_eq in Hd. destruct Hd as [H1 H2].
      exists (firstn i bs), (skipn (S (S i)) bs).
      transitivity (firstn i bs ++ nth i bs 0 :: nth (S i) bs 0 :: skipn (S (S i)) bs);
        [apply nth_split2; lia | rewrite H1, H2; reflexivity].
    + intros [p [q E]]. exists (length p). rewrite E. split.
      * apply in_seq. rewrite length_app. cbn. lia.
      * rewrite app_nth2 by lia. rewrite Nat.sub_diag.
        rewrite app_nth2 by lia. replace (S (length p) - length p)%nat with 1%nat by lia.
        reflexivity.
Qed.

(** [const_validate_email] accepts exactly the strings of 3 to 254 bytes
    with exactly one '@', wherever it is, with no other check. *)
Theorem const_validate_email_iff : forall email,
  Fastpath.const_validate_email email = true <->
  (3 <= len email <= 254)%nat /\ Simd.count_in (bytes email) = 1%nat.
Proof.
  intros email. unfold Fastpath.const_validate_email, len.
  destruct (Nat.ltb_spec (length (bytes email)) 3), (Nat.ltb_spec 254 (length (bytes email)));
    cbn [orb]; try (split; [discriminate|lia]).
  rewrite const_loop_spec. lia.
Qed.

(** [ultra_fast_ascii_check] accepts exactly the byte sequences of 3 to 254
    bytes of the form [l@d] with [l] and [d] nonempty, [l] made of fast local
    characters other than '@' and [d] made of fast domain characters; dot
    placement is not checked. *)
Theorem ultra_fast_ascii_check_iff : forall bs,
  Fastpath.ultra_fast_ascii_check bs = true <->
  (3 <= length bs <= 254)%nat /\
  exists l d, bs = l ++ 64 :: d /\ l <> [] /\ d <> [] /\
    forallb (fun c => Tiers.is_fast_local_char c && negb (c =? 64)) l = true /\
    forallb Tiers.is_fast_domain_char d = true.
Proof.
  intros bs. unfold Fastpath.ultra_fast_ascii_check.
  destruct (Nat.ltb_spec (length bs) 3), (Nat.ltb_spec 254 (length bs));
    cbn [orb]; try (split; [discriminate|lia]).
  rewrite ultra_loop_local by reflexivity. split.
  - intros [l [d [E [Hn [Hd [Fl Fd]]]]]]. split; [lia|].
    exists l, d. repeat split; auto. intros ->. cbn in Hn. lia.
  - intros [_ [l [d [E [Hn [Hd [Fl Fd]]]]]]]. exists l, d. repeat split; auto.
    destruct l; [congruence|cbn; lia].
Qed.

(** [fast_ascii_email_check] returns [Some(true)] for any local part of 1 to
    64 fast local characters without '@' followed by one of the common
    domains: the cache hit skips the dot checks of the local part. *)
Theorem fast_ascii_common_domain_accepts : forall l dom,
  In dom Tiers.common_domains ->
  (1 <= length l <= 64)%nat -> forallb Tiers.is_fast_local_char l = true -> ~ In 64 l ->
  Tiers.fast_ascii_email_check (l ++ 64 :: lit dom) = Some true.
Proof.
  intros l dom Hin Hl Fl Nl. apply fast_check_common_domain; auto.
  pose proof common_domains_ok as H. rewrite forallb_forall in H. apply H, Hin.
Qed.

Lemma fast_ascii_common_domain_accepts_witness :
  In "gmail.com"%string Tiers.common_domains /\
  (1 <= length (lit ".a..b.") <= 64)%nat /\
  forallb Tiers.is_fast_local_char (lit ".a..b.") = true /\ ~ In 64 (lit ".a..b.") /\
  Tiers.fast_ascii_email_check (lit ".a..b." ++ 64 :: lit "gmail.com") = Some true.
Proof.
  assert (H1 : In "gmail.com"%string Tiers.common_domains) by (cbn; auto).
  assert (H2 : (1 <= length (lit ".a..b.") <= 64)%nat) by (cbn; lia).
  assert (H3 : forallb Tiers.is_fast_local_char (lit ".a..b.") = true)
    by (vm_compute; reflexivity).
  assert (H4 : ~ In 64 (lit ".a..b.")) by (apply not_in_of_existsb; vm_compute; reflexivity).
  split; [exact H1|]. split; [exact H2|]. split; [exact H3|]. split; [exact H4|].
  exact (fast_ascii_common_domain_accepts (lit ".a..b.") "gmail.com" H1 H2 H3 H4).
Defined.

(** [pipelined_validation] computes [is_valid_fast(e, true)] of every email, in order. *)
Theorem pipelined_validation_eq_map : forall cb emails,
  Tiers.pipelined_validation cb emails = Tiers.map_res (Prefetch.is_valid_true cb) emails.
Proof. exact pipelined_validation_map_res. Qed.

(** [validate_batch_prefetch] writes the results into the first slots of
    [results]; it panics when [results] is shorter than [emails]. *)
Theorem validate_batch_prefetch_spec : forall cb emails results,
  Prefetch.validate_batch_prefetch cb emails results =
  if Nat.leb (length emails) (length results) then
    let* rs := Tiers.map_res (Prefetch.is_valid_true cb) emails in
    Ok (rs ++ skipn (length emails) results)
  else Panic.
Proof.
  intros cb emails results. unfold Prefetch.validate_batch_prefetch.
  destruct (Nat.eqb_spec (length emails) 0) as [E|E].
  - destruct emails; [|discriminate]. reflexivity.
  - destruct (Nat.leb_spec (length emails) (length results)).
    + rewrite small_loop_spec by lia. cbn [skipn firstn app].
      rewrite firstn_all. reflexivity.
    + apply small_loop_short; try lia.
      intros e x. apply is_valid_fast_not_err.
Qed.

(** [validate_chunked] panics on [chunk_size = 0]; otherwise the chunking
    does not change the result, which is [is_valid_fast(e, true)] of each email. *)
Theorem validate_chunked_spec : forall cb emails chunk_size,
  Prefetch.validate_chunked cb emails chunk_size =
  if Nat.eqb chunk_size 0 then Panic
  else Tiers.map_res (Prefetch.is_valid_true cb) emails.
Proof.
  intros cb emails k. unfold Prefetch.validate_chunked, Prefetch.chunks.
  destruct (Nat.eqb_spec k 0); [reflexivity|]. cbn [bind].
  rewrite push_chunks_spec, concat_chunks_loop by lia.
  destruct (Tiers.map_res _ emails); reflexivity.
Qed.

(** [batch_is_valid] on valid strings never panics and returns one result per email. *)
Theorem batch_is_valid_ok : forall cb emails allow, forallb valid_str emails = true ->
  exists rs, Tiers.batch_is_valid cb emails allow = Ok rs /\ length rs = length emails.
Proof.
  intros cb emails allow H. pose proof (proj1 (forallb_forall _ _) H) as H0. clear H. rename H0 into H.
  assert (G : forall a, exists rs,
    Tiers.map_res (fun e => Tiers.is_valid_fast cb e a) emails = Ok rs /\
    length rs = length emails).
  { intros a. apply map_res_ok. intros e He.
    destruct (Tiers.is_valid_fast cb e a) as [r|x|] eqn:F.
    - exists r. reflexivity.
    - exfalso. exact (is_valid_fast_not_err cb e a x F).
    - exfalso. exact (is_valid_fast_not_panic cb e a (H e He) F). }
  unfold Tiers.batch_is_valid. destruct (Nat.ltb 16 (length emails)).
  - rewrite pipelined_validation_map_res. apply G.
  - apply G.
Qed.

Lemma batch_is_valid_ok_witness :
  forallb valid_str (repeat (lit "a@b.com") 17) = true /\
  exists rs, Tiers.batch_is_valid cb_model (repeat (lit "a@b.com") 17) false = Ok rs /\
             length rs = length (repeat (lit "a@b.com") 17).
Proof.
  split; [vm_compute; reflexivity|].
  apply batch_is_valid_ok. vm_compute. reflexivity.
Defined.

(** [StringPool]: after [clear] (or [new]) and [add] of valid strings, [get i]
    returns the [i]-th string added, and [None] past the end. *)
Theorem pool_get_add_all : forall p ss i, forallb valid_str ss = true ->
  Prefetch.pool_get (Prefetch.pool_add_all (Prefetch.pool_clear p) ss) i = Ok (nth_error ss i).
Proof.
  intros p ss i Hv.
  destruct (pool_add_all_spec ss (Prefetch.pool_clear p)) as [B O].
  cbn [Prefetch.pool_clear Prefetch.buffer Prefetch.offsets app length] in B, O.
  unfold Prefetch.pool_get. rewrite O, B.
  set (g := fun j => (0 + length (flat_map bytes (firstn j ss)))%nat).
  destruct (Nat.lt_ge_cases i (length ss)) as [Hi|Hi].
  - destruct (nth_error ss i) as [s|] eqn:Es; [|apply nth_error_None in Es; lia].
    destruct (List.nth_error_split ss i Es) as [l1 [l2 [Ess Hl1]]].
    assert (Hs : valid_str s = true).
    { apply forallb_forall with (x := s) in Hv; [exact Hv|].
      rewrite Ess. apply in_or_app. right. left. reflexivity. }
    assert (Gn : forall j, (j < length ss)%nat -> nth_error (map g (seq 0 (length ss))) j = Some (g j)).
    { intros j Hj. rewrite nth_error_map.
      rewrite (nth_error_nth' (seq 0 (length ss)) 0%nat) by (rewrite length_seq; lia).
      rewrite seq_nth by lia. reflexivity. }
    rewrite Gn by lia.
    assert (Gi : g i = length (flat_map bytes l1)).
    { unfold g. rewrite Ess, <- Hl1, firstn_exact. reflexivity. }
    assert (GSi : g (S i) = (length (flat_map bytes l1) + len s)%nat).
    { unfold g. rewrite Ess, firstn_app, firstn_all2 by lia.
      replace (S i - length l1)%nat with 1%nat by lia. cbn [firstn].
      rewrite flat_map_app, length_app. cbn [flat_map]. rewrite app_nil_r.
      unfold len. lia. }
    assert (Hend : match nth_error (map g (seq 0 (length ss))) (S i) with
                   | Some e => e | None => length (flat_map bytes ss) end
                   = (length (flat_map bytes l1) + len s)%nat).
    { destruct (Nat.lt_ge_cases (S i) (length ss)).
      - rewrite Gn by lia. exact GSi.
      - rewrite (proj2 (nth_error_None _ _)) by (rewrite length_map, length_seq; lia).
        rewrite Ess, flat_map_app, length_app. cbn [flat_map]. rewrite length_app.
        assert (l2 = []) by (destruct l2; [reflexivity|]; rewrite Ess, length_app in *;
                             cbn [length] in *; lia).
        subst l2. cbn. unfold len. lia. }
    rewrite Hend, Gi.
    assert (Lb : length (flat_map bytes ss) = (length (flat_map bytes l1) + len s + length (flat_map bytes l2))%nat).
    { rewrite Ess, flat_map_app, length_app. cbn [flat_map]. rewrite length_app. unfold len. lia. }
    destruct (Nat.leb_spec (length (flat_map bytes l1)) (length (flat_map bytes l1) + len s));
      [|lia].
    destruct (Nat.leb_spec (length (flat_map bytes l1) + len s) (length (flat_map bytes ss)));
      [|lia].
    cbn [andb]. f_equal.
    replace (length (flat_map bytes l1) + len s - length (flat_map bytes l1))%nat with (len s) by lia.
    rewrite Ess, flat_map_app. cbn [flat_map].
    rewrite skipn_app, skipn_all, Nat.sub_diag, skipn_O. cbn [app].
    unfold len. rewrite firstn_app, Nat.sub_diag, firstn_O, firstn_all, app_nil_r.
    apply from_utf8_bytes, Hs.
  - rewrite (proj2 (nth_error_None _ _)) by (rewrite length_map, length_seq; lia).
    rewrite (proj2 (nth_error_None _ _)) by lia. reflexivity.
Qed.

Lemma pool_get_add_all_witness :
  forallb valid_str [lit "a@b"; []; [0xE9; 64; 0x4E2D]] = true /\
  Prefetch.pool_get (Prefetch.pool_add_all (Prefetch.pool_clear Prefetch.pool_new)
    [lit "a@b"; []; [0xE9; 64; 0x4E2D]]) 2 = Ok (nth_error [lit "a@b"; []; [0xE9; 64; 0x4E2D]] 2).
Proof.
  split; [vm_compute; reflexivity|].
  apply pool_get_add_all. vm_compute. reflexivity.
Defined.

(** [ValidationCache::check] never reports a hit for an email whose hash has
    its top bit set: [bucket >> 1] has only 63 bits. *)
Theorem cache_check_high_hash_miss : forall buckets email,
  forallb u64_ok buckets = true -> 2 ^ 63 <= Prefetch.hash email ->
  Prefetch.cache_check buckets email =
  if Nat.eqb (length buckets) 0 then Panic else Ok None.
Proof.
  intros buckets email Hb Hh. unfold Prefetch.cache_check, Prefetch.cache_mask.
  destruct (Nat.eqb (length buckets) 0); [reflexivity|]. cbn [bind].
  rewrite check_loop_high by assumption. reflexivity.
Qed.

Lemma cache_check_high_hash_miss_witness :
  forallb u64_ok (Prefetch.insert_loop 8 (fun _ => true) 0 (Prefetch.cache_new 16) 15
     (Z.land (Prefetch.hash (lit "user@example.com")) 15)
     (Z.lor ((Z.shiftl (Prefetch.hash (lit "user@example.com")) 1) mod Simd.two64) 1)) = true /\
  2 ^ 63 <= Prefetch.hash (lit "user@example.com") /\
  Prefetch.cache_check (Prefetch.insert_loop 8 (fun _ => true) 0 (Prefetch.cache_new 16) 15
     (Z.land (Prefetch.hash (lit "user@example.com")) 15)
     (Z.lor ((Z.shiftl (Prefetch.hash (lit "user@example.com")) 1) mod Simd.two64) 1))
     (lit "user@example.com") = Ok None.
Proof.
  assert (H1 : forallb u64_ok (Prefetch.insert_loop 8 (fun _ => true) 0 (Prefetch.cache_new 16) 15
     (Z.land (Prefetch.hash (lit "user@example.com")) 15)
     (Z.lor ((Z.shiftl (Prefetch.hash (lit "user@example.com")) 1) mod Simd.two64) 1)) = true)
    by (vm_compute; reflexivity).
  assert (H2 : 2 ^ 63 <= Prefetch.hash (lit "user@example.com"))
    by (vm_compute; discriminate).
  split; [exact H1|]. split; [exact H2|].
  rewrite (cache_check_high_hash_miss _ _ H1 H2). vm_compute. reflexivity.
Defined.

(** [ValidationCache]: in a fresh cache, [insert(email, r)] followed by
    [check(email)] returns [Some r] when the hash is nonzero and below [2^63]
    and the first compare-exchange succeeds. *)
Theorem cache_insert_then_check : forall cas_ok size email r,
  0 < Prefetch.hash email < 2 ^ 63 -> cas_ok 0%nat = true ->
  exists b', Prefetch.cache_insert cas_ok (Prefetch.cache_new size) email r = Ok b' /\
             Prefetch.cache_check b' email = Ok (Some r).
Proof.
  intros cas size email r Hh Hc.
  destruct (next_power_of_two_pow size) as [k Ek].
  unfold Prefetch.cache_insert, Prefetch.cache_check, Prefetch.cache_mask, Prefetch.cache_new.
  rewrite Ek. set (N := (2 ^ k)%nat).
  assert (NP : (N <> 0)%nat) by (apply Nat.pow_nonzero; lia).
  rewrite repeat_length. destruct (Nat.eqb_spec N 0); [lia|]. cbn [bind].
  set (h := Prefetch.hash email) in *.
  assert (ZN : Z.of_nat N = 2 ^ Z.of_nat k) by (unfold N; rewrite Nat2Z.inj_pow; reflexivity).
  assert (Hm : Z.land h (Z.of_nat N - 1) = h mod 2 ^ Z.of_nat k).
  { rewrite ZN. replace (2 ^ Z.of_nat k - 1) with (Z.ones (Z.of_nat k))
      by (rewrite Z.ones_equiv; lia).
    apply Z.land_ones. lia. }
  assert (Bi : 0 <= h mod 2 ^ Z.of_nat k < Z.of_nat N)
    by (rewrite ZN; apply Z.mod_pos_bound; lia).
  rewrite Hm. set (idx := h mod 2 ^ Z.of_nat k) in *.
  assert (Ni : (Z.to_nat idx < N)%nat) by lia.
  rewrite (cache_value h r) by lia.
  cbn [Prefetch.insert_loop]. rewrite nth_repeat, Z.eqb_refl, Hc. cbn [andb].
  eexists. split; [reflexivity|].
  rewrite length_replace by (rewrite repeat_length; exact Ni).
  rewrite repeat_length.
  destruct (Nat.eqb_spec N 0); [lia|]. cbn [bind]. rewrite Hm. fold idx. f_equal.
  cbn [Prefetch.check_loop].
  rewrite nth_replace by (rewrite repeat_length; exact Ni).
  replace (2 * h + Z.b2z r =? 0) with false
    by (symmetry; apply Z.eqb_neq; destruct r; cbn [Z.b2z]; lia).
  assert (D : Z.shiftr (2 * h + Z.b2z r) 1 = h).
  { rewrite Z.shiftr_div_pow2 by lia. change (2 ^ 1) with 2.
    replace (2 * h + Z.b2z r) with (h * 2 + Z.b2z r) by lia.
    rewrite Z.div_add_l by lia. destruct r; cbn [Z.b2z]; [rewrite (Z.div_small 1 2) by lia|rewrite Z.div_0_l by lia]; lia. }
  rewrite D, Z.eqb_refl. f_equal.
  change 1 with (Z.ones 1) at 1. rewrite Z.land_ones by lia.
  change (2 ^ 1) with 2.
  replace (2 * h + Z.b2z r) with (Z.b2z r + h * 2) by lia.
  rewrite Z.mod_add by lia. destruct r; reflexivity.
Qed.

Lemma cache_insert_then_check_witness :
  0 < Prefetch.hash (lit "test@example.com") < 2 ^ 63 /\ (fun _ : nat => true) 0%nat = true /\
  exists b', Prefetch.cache_insert (fun _ => true) (Prefetch.cache_new 16)
               (lit "test@example.com") true = Ok b' /\
             Prefetch.cache_check b' (lit "test@example.com") = Ok (Some true).
Proof.
  assert (H : 0 < Prefetch.hash (lit "test@example.com") < 2 ^ 63)
    by (split; vm_compute; reflexivity).
  split; [exact H|]. split; [reflexivity|].
  apply cache_insert_then_check; [exact H|reflexivity].
Defined.

Ltac negb_or H :=
  rewrite negb_true_iff, orb_false_iff in H; destruct H as [?H ?H].

(** [validate_single_fast] accepts exactly: 5 to 254 bytes, split at the first
    ['@'] into a local part of 1 to 64 bytes with no dot at either end and no
    two adjacent dots, and a domain of 3 to 253 bytes with a dot, none at
    either end. Nothing else is checked: the domain may hold any byte,
    another ['@'] included. *)
Theorem validate_single_fast_iff : forall email,
  Vectorized.validate_single_fast email = true <->
  (5 <= len email <= 254)%nat /\
  exists l d, bytes email = l ++ 64 :: d /\ ~ In 64 l /\
    (1 <= length l <= 64)%nat /\ hd 0 l <> 46 /\ last l 0 <> 46 /\
    ~ (exists p q, l = p ++ 46 :: 46 :: q) /\
    (3 <= length d <= 253)%nat /\ hd 0 d <> 46 /\ last d 0 <> 46 /\ In 46 d.
Proof.
  intros email. destruct (in_dec Z.eq_dec 64 (bytes email)) as [Hin|Hnin].
  - destruct (first_at_split _ Hin) as [l [d [E Hl]]].
    assert (Ln : len email = (length l + S (length d))%nat)
      by (unfold len; rewrite E, length_app; reflexivity).
    rewrite (vsf_split email l d E Hl), Ln. split.
    + intros H. repeat rewrite andb_true_iff in H.
      destruct H as [[[[[[[A B] C] D] F] G] K] M].
      negb_or A. negb_or B. negb_or C. negb_or D. negb_or G. negb_or K.
      rewrite negb_true_iff in F.
      apply Nat.ltb_ge in A. apply Nat.ltb_ge in A0. apply Nat.eqb_neq in C.
      apply Nat.ltb_ge in C0. apply Nat.ltb_ge in G. apply Nat.ltb_ge in G0.
      apply Z.eqb_neq in D. apply Z.eqb_neq in D0. apply Z.eqb_neq in K. apply Z.eqb_neq in K0.
      split; [lia|]. exists l, d. repeat split; auto; try lia.
      * rewrite <- nth_0_hd. exact D.
      * rewrite <- nth_last by (destruct l; cbn in *; [lia|discriminate]). exact D0.
      * apply no_dots_scan, F.
      * rewrite <- nth_0_hd. exact K.
      * rewrite <- nth_last by (destruct d; cbn in *; [lia|discriminate]). exact K0.
      * apply existsb_eqb_iff, M.
    + intros [Hn [l' [d' [E' [Hl' R]]]]].
      rewrite E in E'. destruct (at_split_first _ _ _ _ E' Hl Hl') as [<- <-].
      destruct R as [L1 [H0 [HL [Hdd [Ld [D0 [DL Hd]]]]]]].
      assert (Lne : l <> []) by (destruct l; cbn in *; [lia|discriminate]).
      assert (Dne : d <> []) by (destruct d; cbn in *; [lia|discriminate]).
      rewrite nth_0_hd, nth_0_hd, nth_last, nth_last by assumption.
      rewrite (proj2 (no_dots_scan l) Hdd), (proj2 (existsb_eqb_iff 46 d) Hd).
      replace (Nat.ltb (length l + S (length d)) 5) with false by (symmetry; apply Nat.ltb_ge; lia).
      replace (Nat.ltb 254 (length l + S (length d))) with false by (symmetry; apply Nat.ltb_ge; lia).
      replace (Nat.eqb (length l) 0) with false by (symmetry; apply Nat.eqb_neq; lia).
      replace (Nat.eqb (length l) (length l + S (length d) - 1)) with false
        by (symmetry; apply Nat.eqb_neq; lia).
      replace (Nat.ltb 64 (length l)) with false by (symmetry; apply Nat.ltb_ge; lia).
      replace (Nat.ltb (length d) 3) with false by (symmetry; apply Nat.ltb_ge; lia).
      replace (Nat.ltb 253 (length d)) with false by (symmetry; apply Nat.ltb_ge; lia).
      replace (hd 0 l =? 46) with false by (symmetry; apply Z.eqb_neq; exact H0).
      replace (last l 0 =? 46) with false by (symmetry; apply Z.eqb_neq; exact HL).
      replace (hd 0 d =? 46) with false by (symmetry; apply Z.eqb_neq; exact D0).
      replace (last d 0 =? 46) with false by (symmetry; apply Z.eqb_neq; exact DL).
      reflexivity.
  - split.
    + intros H. unfold Vectorized.validate_single_fast in H.
      rewrite (proj2 (position_at_none _) Hnin) in H.
      destruct (_ || _); discriminate.
    + intros [_ [l [d [E _]]]]. exfalso. apply Hnin. rewrite E.
      apply in_or_app. right. left. reflexivity.
Qed.

(** [RleValidator::pattern_match] accepts exactly the strings of 5 to 254
    bytes that split as [l ++ "@" :: d] where the local part [l] is nonempty
    and made of ASCII alphanumerics and [._-+], and the domain [d] is nonempty,
    made of ASCII alphanumerics, '-' and '.', contains a '.', does not end
    with '.', and has no two adjacent dots. Dots at the start or end of the
    local part, consecutive dots in the local part, and a leading dot or
    hyphen in the domain are accepted. *)
Theorem pattern_match_iff : forall e,
  Approx.pattern_match e = true <->
  (5 <= length (bytes e) <= 254)%nat /\
  exists l d, bytes e = l ++ 64 :: d /\ l <> [] /\
    forallb Approx.rle_is_local_char l = true /\
    d <> [] /\ forallb rle_domain_char d = true /\ In 46 d /\
    last d 0 <> 46 /\ ~ (exists p q, d = p ++ 46 :: 46 :: q).
Proof.
  intros e. split.
  - intros H.
    assert (Hn : (5 <= length (bytes e) <= 254)%nat).
    { unfold Approx.pattern_match in H.
      destruct (Nat.ltb_spec (length (bytes e)) 5); [discriminate|].
      destruct (Nat.ltb_spec 254 (length (bytes e))); [discriminate|]. lia. }
    split; [exact Hn|].
    destruct (Approx.rle_local_loop (bytes e) 0) as [[k|]|] eqn:L.
    + apply rle_local_loop_spec in L as [l [d [E [Lc [Hi ->]]]]].
      assert (Hl : l <> []) by (destruct l; [cbn in Hi; lia|discriminate]).
      rewrite (pattern_match_split e l d E Hl Lc) in H.
      rewrite !andb_true_iff in H.
      destruct H as [[[[[_ Hd] Hf] Ha] Hx] Hlast].
      exists l, d. repeat split; auto.
      * destruct d; discriminate.
      * apply existsb_eqb_iff. exact Hx.
      * apply negb_true_iff, Z.eqb_neq in Hlast. exact Hlast.
      * rewrite <- has_adjacent_dots_iff. apply negb_true_iff in Ha. congruence.
    + exfalso. unfold Approx.pattern_match in H. rewrite L in H.
      destruct (_ || _); discriminate.
    + exfalso. unfold Approx.pattern_match in H. rewrite L in H.
      destruct (_ || _); discriminate.
  - intros [Hn [l [d [E [Hl [Lc [Hd [Hf [Hx [Hlast Ha]]]]]]]]]].
    rewrite (pattern_match_split e l d E Hl Lc).
    replace (Nat.ltb (length (bytes e)) 5 || Nat.ltb 254 (length (bytes e))) with false
      by (symmetry; apply orb_false_iff; split; apply Nat.ltb_ge; lia).
    rewrite Hf, (proj2 (existsb_eqb_iff 46 d) Hx).
    replace (Tiers.has_adjacent_dots d) with false
      by (symmetry; apply not_true_iff_false; rewrite has_adjacent_dots_iff; exact Ha).
    replace (last d 0 =? 46) with false by (symmetry; apply Z.eqb_neq; exact Hlast).
    destruct d; [contradiction|reflexivity].
Qed.

(** [ValidationState]: fed byte by byte from [new()] in a build without
    overflow checks, the state machine ends in a state where [can_accept]
    holds exactly for inputs [l ++ "@" :: d] where [l] is nonempty, has no
    '@', does not start with '.' and has no two adjacent dots, and [d] is
    nonempty, has no '@', does not start with '.', and its number of dots is
    not a multiple of 256 (the [u8] dot counter wraps). A trailing dot in
    either part and adjacent dots in the domain are accepted. *)
Theorem jit_accepts_iff : forall bs,
  (exists st, Jit.run false Jit.vs_new bs = Ok st /\ Jit.can_accept st = true) <->
  exists l d, bs = l ++ 64 :: d /\ l <> [] /\ hd 0 l <> 46 /\ ~ In 64 l /\
    ~ (exists p q, l = p ++ 46 :: 46 :: q) /\
    d <> [] /\ hd 0 d <> 46 /\ ~ In 64 d /\ dots d mod 256 <> 0.
Proof. exact jit_accepts_iff_h. Qed.

(** [EmailFilter]: after a sequence of [add] calls on a new filter that
    returns normally, [might_be_valid] returns [true] for every string that
    was added (no false negatives). *)
Theorem filter_no_false_negatives : forall oc es bits e,
  Approx.filter_add_all oc Approx.filter_new es = Ok bits -> In e es ->
  Approx.might_be_valid oc bits e = Ok true.
Proof.
  intros oc es bits e H Hin.
  exact (proj2 (proj2 (filter_add_all_spec oc es Approx.filter_new bits eq_refl H)) e Hin).
Qed.

Lemma filter_no_false_negatives_witness :
  Approx.filter_add_all false Approx.filter_new Adaptive.patterns =
    Ok (match Approx.filter_add_all false Approx.filter_new Adaptive.patterns with
        | Ok b => b | _ => [] end) /\
  Approx.might_be_valid false
    (match Approx.filter_add_all false Approx.filter_new Adaptive.patterns with
     | Ok b => b | _ => [] end) (lit "gmail.com") = Ok true.
Proof.
  split; [vm_compute; reflexivity|].
  apply (filter_no_false_negatives false Adaptive.patterns).
  - vm_compute. reflexivity.
  - left. reflexivity.
Defined.

(** [AdaptiveValidator::new] panics in a build with overflow checks (the
    SDBM [hash2] overflows on "gmail.com"); without them it returns a
    validator whose filter reports every one of its eight patterns as
    possibly valid. *)
Theorem adaptive_new_behaviour :
  Adaptive.adaptive_new true = Panic /\
  exists av, Adaptive.adaptive_new false = Ok av /\
    forall p, In p Adaptive.patterns -> Approx.might_be_valid false (Adaptive.filter av) p = Ok true.
Proof.
  split; [vm_compute; reflexivity|].
  unfold Adaptive.adaptive_new.
  destruct (Approx.filter_add_all false Approx.filter_new Adaptive.patterns) as [bits| |] eqn:F.
  - eexists. split; [reflexivity|]. cbn [Adaptive.filter].
    exact (proj2 (proj2 (filter_add_all_spec false _ Approx.filter_new bits eq_refl F))).
  - vm_compute in F. discriminate.
  - vm_compute in F. discriminate.
Qed.

(** [NeuralValidator::quick_check] with the weights of [new()] scores a
    string of 3 to 254 ASCII lowercase letters at [10 * len + 23] and reports
    it as probably valid, though it has no '@'. *)
Theorem quick_check_lowercase : forall e,
  forallb is_ascii_lowercase (bytes e) = true -> (3 <= length (bytes e) <= 254)%nat ->
  Approx.score Approx.neural_new e = 10 * Z.of_nat (length (bytes e)) + 23 /\
  Approx.quick_check Approx.neural_new e = (false, true).
Proof.
  intros e Hl Hn. pose proof (score_lowercase e Hl Hn) as S.
  split; [exact S|]. unfold Approx.quick_check. rewrite S.
  replace (10 * Z.of_nat (length (bytes e)) + 23 <? -200) with false by (symmetry; apply Z.ltb_ge; lia).
  replace (Approx.threshold Approx.neural_new <? 10 * Z.of_nat (length (bytes e)) + 23) with true
    by (symmetry; apply Z.ltb_lt; cbn [Approx.threshold Approx.neural_new]; lia).
  reflexivity.
Qed.

Lemma quick_check_lowercase_witness :
  (Approx.score Approx.neural_new (lit "abc") = 53 /\
   Approx.quick_check Approx.neural_new (lit "abc") = (false, true)).
Proof. apply (quick_check_lowercase (lit "abc")); [vm_compute; reflexivity|split; apply Nat.leb_le; vm_compute; reflexivity]. Defined.

(** [is_valid_fast] (the body of the Python [is_valid]) returns a boolean on
    every valid string, for either value of [allow_smtputf8]: it neither
    panics nor fails. *)
Theorem is_valid_fast_total : forall cb e allow, valid_str e = true ->
  exists b, Tiers.is_valid_fast cb e allow = Ok b.
Proof.
  intros cb e allow Hv.
  destruct (Tiers.is_valid_fast cb e allow) as [b|x|] eqn:E.
  - exists b. reflexivity.
  - exfalso. exact (is_valid_fast_not_err cb e allow x E).
  - exfalso. exact (is_valid_fast_not_panic cb e allow Hv E).
Qed.

Lemma is_valid_fast_total_witness :
  valid_str (lit "user@example.com") = true /\
  exists b, Tiers.is_valid_fast cb_model (lit "user@example.com") true = Ok b.
Proof.
  split; [vm_compute; reflexivity|].
  apply is_valid_fast_total. vm_compute. reflexivity.
Defined.

(** [EmailValidator::ascii_to_lower] never panics on a valid string and maps
    exactly the ASCII capitals to lowercase, leaving every other character as
    it is. *)
Theorem ascii_to_lower_map : forall s, valid_str s = true ->
  ascii_to_lower s = Ok (map lower_byte s).
Proof. exact ascii_to_lower_valid. Qed.

Lemma ascii_to_lower_map_witness :
  ascii_to_lower (lit "Example.COM") = Ok (map lower_byte (lit "Example.COM")).
Proof. apply ascii_to_lower_map. vm_compute. reflexivity. Defined.

(** [validate_local_part] without SMTPUTF8 accepts exactly the local parts of
    1 to 64 bytes made of atext characters and dots that neither start nor
    end with a dot and have no two adjacent dots. *)
Theorem validate_local_part_ascii_iff : forall l,
  validate_local_part l false = Ok tt <->
  (1 <= len l <= 64)%nat /\ hd 0 (bytes l) <> 46 /\ last (bytes l) 0 <> 46 /\
  forallb atext_or_dot (bytes l) = true /\
  ~ (exists p q, bytes l = p ++ 46 :: 46 :: q).
Proof. exact validate_local_part_ascii_iff_h. Qed.

(** [validate_local_part]: a local part accepted without SMTPUTF8 is also
    accepted with it. *)
Theorem validate_local_part_flag_mono : forall l,
  validate_local_part l false = Ok tt -> validate_local_part l true = Ok tt.
Proof.
  intros l H.
  pose proof (proj1 (validate_local_part_ascii_iff_h l) H) as [Hn [Hh [Hl [F A]]]].
  rewrite validate_local_part_shape in H |- *.
  destruct (Nat.eqb (len l) 0); [discriminate|].
  destruct (Nat.ltb 64 (len l)); [discriminate|].
  destruct (hd 0 (bytes l) =? 46); [discriminate|].
  destruct (last (bytes l) 0 =? 46); [discriminate|].
  rewrite local_scan_flag by exact F.
  destruct (local_scan false false (bytes l)) as [[]| |]; cbn [bind andb] in H |- *; try discriminate.
  replace (existsb (fun b => 128 <=? b) (bytes l)) with false; [reflexivity|].
  symmetry. apply not_true_iff_false. intros E. apply existsb_exists in E as [b [Hb Eb]].
  pose proof (proj1 (forallb_forall _ _) F b Hb) as Fb.
  unfold atext_or_dot in Fb. apply orb_true_iff in Fb as [Fb|Fb].
  - apply is_atext_ascii in Fb. apply Z.leb_le in Eb. lia.
  - apply Z.eqb_eq in Fb. apply Z.leb_le in Eb. lia.
Qed.

Lemma validate_local_part_flag_mono_witness :
  validate_local_part (lit "user.name") false = Ok tt /\
  validate_local_part (lit "user.name") true = Ok tt.
Proof.
  split; [vm_compute; reflexivity|].
  apply validate_local_part_flag_mono. vm_compute. reflexivity.
Defined.

(** [validate_domain]: an accepted domain is either a bracketed literal,
    returned unchanged, or a domain of at most 253 bytes whose IDNA form is
    returned; that form consists of ASCII letters, digits, '-' and '.',
    contains a dot, neither starts nor ends with a dot, has no two adjacent
    dots, has labels of 1 to 63 bytes that neither start nor end with '-',
    and has a label with a non-digit character. *)
Theorem validate_domain_ok_shape : forall cb d a, validate_domain cb d = Ok a ->
  (starts_with_byte d 91 && ends_with_byte d 93 = true /\ a = d) \/
  (domain_to_ascii cb d = Some a /\ (len d <= 253)%nat /\ In 46 a /\
   hd 0 a <> 46 /\ last a 0 <> 46 /\ ~ (exists p q, a = p ++ 46 :: 46 :: q) /\
   (forall c, In c a -> c = 46 \/ is_ascii_alphanumeric c || (c =? 45) = true) /\
   (forall lab, In lab (split_on 46 a) ->
      (1 <= len lab <= 63)%nat /\ starts_with_byte lab 45 = false /\ ends_with_byte lab 45 = false) /\
   exists lab c, In lab (split_on 46 a) /\ In c lab /\ is_ascii_digit c = false).
Proof.
  intros cb d a H.
  destruct (starts_with_byte d 91 && ends_with_byte d 93) eqn:B.
  - left. split; [reflexivity|].
    destruct (bracketed_shape d B) as [m ->]. rewrite validate_domain_bracketed in H.
    destruct (validate_ip_literal_result m) as [E|E]; rewrite E in H;
      [injection H as <-; reflexivity|discriminate].
  - right. pose proof (validate_domain_idna_chars cb d a B H) as Ch.
    unfold validate_domain in H. rewrite B in H.
    destruct (is_empty d); [discriminate|].
    destruct (Nat.ltb_spec 253 (len d)); [discriminate|].
    destruct (domain_to_ascii cb d) as [a'|]; [|discriminate].
    destruct (existsb (Z.eqb 46) a') eqn:Ed; cbn [negb] in H; [|discriminate].
    destruct (forallb (fun label => forallb is_ascii_digit label) (split_on 46 a')) eqn:Fn; [discriminate|].
    destruct (validate_labels (split_on 46 a')) as [[]| |] eqn:VL; cbn [bind] in H;
      try discriminate.
    injection H as <-.
    pose proof (validate_labels_all _ VL) as Lab.
    destruct (split_on_nonempty a') as [_ [Hh [Hl Hadj]]].
    { intros lab Hin. exact (proj1 (validate_domain_label_shape lab (Lab lab Hin))). }
    split; [reflexivity|]. split; [lia|].
    split; [apply existsb_eqb_iff; exact Ed|].
    split; [exact Hh|]. split; [exact Hl|]. split; [exact Hadj|]. split; [exact Ch|].
    split.
    + intros lab Hin.
      destruct (validate_domain_label_shape lab (Lab lab Hin)) as [Ne [Le [S E]]].
      split; [|split; assumption].
      split; [|exact Le].
      destruct (len lab) eqn:Z0; [|lia]. apply len_zero in Z0. contradiction.
    + apply forallb_false_in in Fn as [lab [Hin Fl]].
      apply forallb_false_in in Fl as [c [Hc Dc]].
      exists lab, c. auto.
Qed.

Lemma validate_domain_ok_shape_witness :
  validate_domain cb_model (lit "example.com") = Ok (lit "example.com") /\
  ((starts_with_byte (lit "example.com") 91 && ends_with_byte (lit "example.com") 93 = true /\
    lit "example.com" = lit "example.com") \/
   (domain_to_ascii cb_model (lit "example.com") = Some (lit "example.com") /\
    (len (lit "example.com") <= 253)%nat /\ In 46 (lit "example.com") /\
    hd 0 (lit "example.com") <> 46 /\ last (lit "example.com") 0 <> 46 /\
    ~ (exists p q, lit "example.com" = p ++ 46 :: 46 :: q) /\
    (forall c, In c (lit "example.com") -> c = 46 \/ is_ascii_alphanumeric c || (c =? 45) = true) /\
    (forall lab, In lab (split_on 46 (lit "example.com")) ->
       (1 <= len lab <= 63)%nat /\ starts_with_byte lab 45 = false /\ ends_with_byte lab 45 = false) /\
    exists lab c, In lab (split_on 46 (lit "example.com")) /\ In c lab /\ is_ascii_digit c = false)).
Proof.
  split; [vm_compute; reflexivity|].
  apply (validate_domain_ok_shape cb_model (lit "example.com")). vm_compute. reflexivity.
Defined.

(** [BranchlessValidator::is_valid_branchless] on a string of at most 32
    bytes, in either build: it returns [true] exactly when the string has at
    least 3 bytes and exactly one '@', which is neither its first nor its
    last byte. *)
Theorem is_valid_branchless_short : forall oc e, (length (bytes e) <= 32)%nat ->
  Branchless.is_valid_branchless oc e = Ok true <->
  (3 <= length (bytes e))%nat /\
  exists l d, bytes e = l ++ 64 :: d /\ ~ In 64 l /\ ~ In 64 d /\ l <> [] /\ d <> [].
Proof.
  intros oc e Hn. unfold Branchless.is_valid_branchless.
  destruct (Nat.ltb_spec (length (bytes e)) 3) as [H3|H3].
  { cbn [orb]. split; [discriminate|lia]. }
  replace (Nat.ltb 254 (length (bytes e))) with false by (symmetry; apply Nat.ltb_ge; lia).
  cbn [orb]. rewrite branchless_loop_small by lia. cbn [bind].
  rewrite Z.lor_0_l, count_ones_at_bits by exact Hn.
  split.
  - intros H. injection H as H. rewrite !andb_true_iff in H.
    destruct H as [[C P1] P2]. apply Nat.eqb_eq, count_at_one in C as [l [d [E [Hl Hd]]]].
    split; [exact H3|]. exists l, d. repeat split; auto.
    + rewrite E, last_at_split in P1 by exact Hd. apply Nat.ltb_lt in P1.
      intros ->. cbn in P1. lia.
    + rewrite E, last_at_split in P2 by exact Hd. apply Nat.ltb_lt in P2.
      rewrite length_app in P2. intros ->. cbn in P2. lia.
  - intros [_ [l [d [E [Hl [Hd [Nl Nd]]]]]]].
    f_equal. rewrite (proj2 (count_at_one (bytes e)) (ex_intro _ l (ex_intro _ d (conj E (conj Hl Hd))))).
    rewrite E, last_at_split by exact Hd. rewrite length_app. cbn [length Nat.eqb andb].
    destruct l; [contradiction|]. destruct d; [contradiction|].
    cbn [length]. apply andb_true_iff. split; apply Nat.ltb_lt; lia.
Qed.

Lemma is_valid_branchless_short_witness :
  (length (bytes (lit "a@b.com")) <= 32)%nat /\
  Branchless.is_valid_branchless true (lit "a@b.com") = Ok true.
Proof.
  split; [apply Nat.leb_le; vm_compute; reflexivity|].
  apply is_valid_branchless_short.
  - apply Nat.leb_le. vm_compute. reflexivity.
  - split; [apply Nat.leb_le; vm_compute; reflexivity|].
    exists (lit "a"), (lit "b.com"). repeat split; cbn; try intuition discriminate.
Defined.

(** [BranchlessValidator::is_valid_branchless] panics in a build with
    overflow checks on every string of 33 to 254 bytes: the shift [is_at << i]
    overflows at byte 32, whether or not that byte is an '@'. *)
Theorem is_valid_branchless_long_panics : forall e,
  (33 <= length (bytes e) <= 254)%nat -> Branchless.is_valid_branchless true e = Panic.
Proof.
  intros e Hn. unfold Branchless.is_valid_branchless.
  replace (Nat.ltb (length (bytes e)) 3 || Nat.ltb 254 (length (bytes e))) with false
    by (symmetry; apply orb_false_iff; split; apply Nat.ltb_ge; lia).
  rewrite branchless_loop_panic by lia. reflexivity.
Qed.

Lemma is_valid_branchless_long_panics_witness :
  (33 <= length (bytes (lit "first.last@a-rather-long-domain.example")) <= 254)%nat /\
  Branchless.is_valid_branchless true (lit "first.last@a-rather-long-domain.example") = Panic.
Proof.
  assert (H : (33 <= length (bytes (lit "first.last@a-rather-long-domain.example")) <= 254)%nat)
    by (split; apply Nat.leb_le; vm_compute; reflexivity).
  split; [exact H|]. apply is_valid_branchless_long_panics. exact H.
Defined.

